(** * PSA importer / exporter: a shallow embedding of
      [io_scene_psk_psa/psa/importer.py] and [io_scene_psk_psa/psa/exporter.py]

    The development follows the Python source function by function.

    - Python exceptions are the [Raise] results of an error monad.
    - Python [str] values are Rocq strings holding the UTF-8 encoding of the
      text: equality of the encodings is equality of the texts, and the
      byte-wise lexicographic order of the encodings is the code-point order
      that [sorted] uses.
    - Python dictionaries keyed by bone indices are [gmap nat _]; lists are
      lists, indexed with [!!], and an index out of range raises.
    - [mathutils] objects are mutable: they live in a store and are named by
      their address, so that aliasing ([quat = q]) and in-place updates
      ([q.rotate(...)]) are modelled as the interpreter performs them.
    - Python floats are binary64 values ([PrimFloat.float]). *)

From Stdlib Require Import ZArith Ascii Floats Uint63 OrderedTypeEx.
From stdpp Require Import gmap strings list sorting.

Set Default Proof Using "Type*".

(* ===================================================================== *)
(** * Part I: the embedding                                               *)
(* ===================================================================== *)

(** ** Exceptions and results *)

Inductive exn : Type :=
  | ValueError (msg : string)
  | KeyError (key : string)
  | IndexError
  | TypeError
  | AttributeError
  | ZeroDivisionError.

Inductive Result (A : Type) : Type :=
  | Ok (a : A)
  | Raise (e : exn).
Arguments Ok {A} a.
Arguments Raise {A} e.

#[global] Instance Result_ret : MRet Result := λ A a, Ok a.
#[global] Instance Result_bind : MBind Result := λ A B k m,
  match m with
  | Ok a => k a
  | Raise e => Raise e
  end.

Definition succeeds {A} (m : Result A) : Prop := ∃ a, m = Ok a.

(** [l[i]] on a Python list. *)
Definition list_get {A} (l : list A) (i : nat) : Result A :=
  match l !! i with
  | Some x => Ok x
  | None => Raise IndexError
  end.

(** [for i, x in enumerate(l, start): st = body(st, i, x)], stopping at the
    first exception. *)
Fixpoint for_enumerate {A St} (body : St → nat → A → Result St)
    (start : nat) (l : list A) (st : St) : Result St :=
  match l with
  | [] => Ok st
  | x :: l' => st' ← body st start x; for_enumerate body (S start) l' st'
  end.

(** ** Python strings *)

(** [str.lower] is a builtin of the interpreter (full Unicode lower-casing).
    It is kept as an interface; the only fact relied on is its behaviour on
    text made of ASCII characters, where it maps [A]..[Z] to [a]..[z]. *)

Definition ascii_lower_char (c : ascii) : ascii :=
  let n := nat_of_ascii c in
  if (65 <=? n)%nat && (n <=? 90)%nat then ascii_of_nat (n + 32) else c.

Fixpoint ascii_lower (s : string) : string :=
  match s with
  | EmptyString => EmptyString
  | String c s' => String (ascii_lower_char c) (ascii_lower s')
  end.

Fixpoint is_ascii (s : string) : bool :=
  match s with
  | EmptyString => true
  | String c s' => (nat_of_ascii c <? 128)%nat && is_ascii s'
  end.

Class PyStr := {
  str_lower : string → string;
  str_lower_ascii : ∀ s, is_ascii s = true → str_lower s = ascii_lower s
}.

(** [l.index(x)]: the first position holding [x], or [ValueError]. *)
Fixpoint index_from (x : string) (start : nat) (l : list string) : Result nat :=
  match l with
  | [] => Raise (ValueError "is not in list")
  | y :: l' => if decide (y = x) then Ok start else index_from x (S start) l'
  end.

Definition list_index (l : list string) (x : string) : Result nat :=
  index_from x 0 l.

(** [sorted(s)] for a set of strings [s]: strings are compared by code
    point, which is [String.leb] on the encodings. *)
Definition str_le (a b : string) : Prop := String.leb a b = true.
Definition str_lt (a b : string) : Prop := String.ltb a b = true.

#[global] Instance str_le_dec a b : Decision (str_le a b).
Proof. unfold str_le. apply _. Defined.

Definition sorted (s : gset string) : list string :=
  merge_sort str_le (elements s).

(** ** The bone mapper ([importer.py], lines 66-125) *)

Section BoneMapper.
Context `{PyStr}.

(** [_get_armature_bone_index_for_psa_bone], the loop over
    [enumerate(armature_bone_names)] starting at position [start]. *)
Fixpoint _get_armature_bone_index_from (psa_bone_name : string)
    (start : nat) (armature_bone_names : list string)
    (bone_mapping_mode : string) : option nat :=
  match armature_bone_names with
  | [] => None
  | armature_bone_name :: rest =>
      if decide (bone_mapping_mode = "CASE_INSENSITIVE") then
        if decide (str_lower armature_bone_name = str_lower psa_bone_name)
        then Some start
        else _get_armature_bone_index_from psa_bone_name (S start) rest
               bone_mapping_mode
      else
        if decide (armature_bone_name = psa_bone_name)
        then Some start
        else _get_armature_bone_index_from psa_bone_name (S start) rest
               bone_mapping_mode
  end.

(** The result [None] is Python's [None]; the function raises nothing. *)
Definition _get_armature_bone_index_for_psa_bone (psa_bone_name : string)
    (armature_bone_names : list string) (bone_mapping_mode : string)
    : option nat :=
  _get_armature_bone_index_from psa_bone_name 0 armature_bone_names
    bone_mapping_mode.

(** The four collections that the first loop of [import_psa] builds. *)
Record BoneMapping := mkBoneMapping {
  psa_to_armature_bone_indices : gmap nat nat;
  armature_to_psa_bone_indices : gmap nat nat;
  psa_bone_names : list string;
  duplicate_mappings : list (nat * nat * nat)
}.

Definition empty_mapping : BoneMapping :=
  mkBoneMapping ∅ ∅ [] [].

(** Body of the loop of lines 95-108; [psa_bone_name] is the decoded name
    of the PSA bone. *)
Definition map_psa_bone (armature_bone_names : list string)
    (bone_mapping_mode : string) (st : BoneMapping)
    (psa_bone_index : nat) (psa_bone_name : string) : Result BoneMapping :=
  match _get_armature_bone_index_for_psa_bone psa_bone_name
          armature_bone_names bone_mapping_mode with
  | Some armature_bone_index =>
      st' ←
        match armature_to_psa_bone_indices st !! armature_bone_index with
        | None =>
            i ← list_index armature_bone_names psa_bone_name;
            Ok (mkBoneMapping
                  (<[psa_bone_index := i]> (psa_to_armature_bone_indices st))
                  (<[armature_bone_index := psa_bone_index]>
                     (armature_to_psa_bone_indices st))
                  (psa_bone_names st)
                  (duplicate_mappings st))
        | Some mapped_psa_bone_index =>
            Ok (mkBoneMapping
                  (psa_to_armature_bone_indices st)
                  (armature_to_psa_bone_indices st)
                  (psa_bone_names st)
                  (duplicate_mappings st ++
                     [(psa_bone_index, armature_bone_index,
                       mapped_psa_bone_index)]))
        end;
      armature_bone_name ← list_get armature_bone_names armature_bone_index;
      Ok (mkBoneMapping
            (psa_to_armature_bone_indices st')
            (armature_to_psa_bone_indices st')
            (psa_bone_names st' ++ [armature_bone_name])
            (duplicate_mappings st'))
  | None =>
      Ok (mkBoneMapping
            (psa_to_armature_bone_indices st)
            (armature_to_psa_bone_indices st)
            (psa_bone_names st ++ [psa_bone_name])
            (duplicate_mappings st))
  end.

(** The loop of lines 95-108 over the decoded names of
    [psa_reader.bones]. *)
Definition map_psa_bones (armature_bone_names : list string)
    (bone_mapping_mode : string) (psa_names : list string)
    : Result BoneMapping :=
  for_enumerate (map_psa_bone armature_bone_names bone_mapping_mode)
    0 psa_names empty_mapping.

(** The warnings of [PsaImportResult]. Each message of the source is an
    f-string over the fields carried here. *)
Inductive Warning : Type :=
  | DuplicateMapping (psa_bone_index : nat) (psa_bone_name : string)
      (armature_bone_index : nat) (armature_bone_name : string)
      (mapped_psa_bone_index : nat) (mapped_psa_bone_name : string)
  | MissingBones (armature_object_name : string) (count : nat)
      (names : list string).

(** Lines 110-116. *)
Definition duplicate_warning (armature_bone_names : list string)
    (st : BoneMapping) (d : nat * nat * nat) : Result Warning :=
  let '(psa_bone_index, armature_bone_index, mapped_psa_bone_index) := d in
  psa_bone_name ← list_get (psa_bone_names st) psa_bone_index;
  armature_bone_name ← list_get armature_bone_names armature_bone_index;
  mapped_psa_bone_name ← list_get (psa_bone_names st) mapped_psa_bone_index;
  Ok (DuplicateMapping psa_bone_index psa_bone_name
        armature_bone_index armature_bone_name
        mapped_psa_bone_index mapped_psa_bone_name).

Fixpoint duplicate_warnings (armature_bone_names : list string)
    (st : BoneMapping) (ds : list (nat * nat * nat)) : Result (list Warning) :=
  match ds with
  | [] => Ok []
  | d :: ds' =>
      w ← duplicate_warning armature_bone_names st d;
      ws ← duplicate_warnings armature_bone_names st ds';
      Ok (w :: ws)
  end.

(** Lines 118-125. *)
Definition missing_bone_names (armature_bone_names : list string)
    (st : BoneMapping) : gset string :=
  list_to_set (psa_bone_names st) ∖ list_to_set armature_bone_names.

Definition missing_warning (armature_object_name : string)
    (armature_bone_names : list string) (st : BoneMapping) : list Warning :=
  let missing := missing_bone_names armature_bone_names st in
  if decide (0 < size missing)
  then [MissingBones armature_object_name (size missing) (sorted missing)]
  else [].

(** Lines 88-125 of [import_psa]: the mapping and the warnings appended to
    [result.warnings] (which starts empty). *)
Definition bone_mapper (armature_object_name : string)
    (armature_bone_names : list string) (bone_mapping_mode : string)
    (psa_names : list string) : Result (BoneMapping * list Warning) :=
  st ← map_psa_bones armature_bone_names bone_mapping_mode psa_names;
  dups ← duplicate_warnings armature_bone_names st (duplicate_mappings st);
  Ok (st, dups ++ missing_warning armature_object_name armature_bone_names st).

(** "The target name [armature_bone_name] matches the source name
    [psa_bone_name] under the mode": the test of lines 74-79. *)
Definition name_matches (bone_mapping_mode armature_bone_name
    psa_bone_name : string) : Prop :=
  if decide (bone_mapping_mode = "CASE_INSENSITIVE")
  then str_lower armature_bone_name = str_lower psa_bone_name
  else armature_bone_name = psa_bone_name.

(** [i] is the first position of [armature_bone_names] whose name matches
    [psa_bone_name] under the mode. *)
Definition first_match (bone_mapping_mode : string)
    (armature_bone_names : list string) (psa_bone_name : string)
    (i : nat) : Prop :=
  ∃ arm, armature_bone_names !! i = Some arm ∧
         name_matches bone_mapping_mode arm psa_bone_name ∧
         ∀ j y, armature_bone_names !! j = Some y → j < i →
                ¬ name_matches bone_mapping_mode y psa_bone_name.

(** The source bone at position [s] of [psa_names] is accepted for the
    target index [t]: [t] is what the lookup returns for its name. *)
Definition accepts (armature_bone_names : list string)
    (bone_mapping_mode : string) (psa_names : list string)
    (s t : nat) : Prop :=
  ∃ n, psa_names !! s = Some n ∧
       _get_armature_bone_index_for_psa_bone n armature_bone_names
         bone_mapping_mode = Some t.

(** [s] is the lowest source index accepted for [t]. *)
Definition earliest (armature_bone_names : list string)
    (bone_mapping_mode : string) (psa_names : list string)
    (t s : nat) : Prop :=
  accepts armature_bone_names bone_mapping_mode psa_names s t ∧
  ∀ s', s' < s →
        ¬ accepts armature_bone_names bone_mapping_mode psa_names s' t.

End BoneMapper.

(** The ASCII instance of the string interface. *)
#[global, refine] Instance ascii_PyStr : PyStr := {| str_lower := ascii_lower |}.
Proof. reflexivity. Defined.

(** ** mathutils *)

(** [mathutils] is the host's vector library, outside this repository. Its
    values are kept abstract: single-precision quaternions, vectors and
    matrices, built from and read back as Python numbers [F]. The operations
    are the ones the importer calls; [quat_rotated q other] is the value of
    [q] after [q.rotate(other)], [vec_rotated v other] the value of [v] after
    [v.rotate(other)], and [quat_eq] is [==] on quaternions. *)
Class Mathutils (F : Type) := {
  Quaternion : Type;
  Vector : Type;
  Matrix : Type;
  Quaternion_new : F → F → F → F → Quaternion;
  Quaternion_identity : Quaternion;
  quat_w : Quaternion → F;
  quat_x : Quaternion → F;
  quat_y : Quaternion → F;
  quat_z : Quaternion → F;
  quat_conjugated : Quaternion → Quaternion;
  quat_rotated : Quaternion → Quaternion → Quaternion;
  quat_eq : Quaternion → Quaternion → bool;
  Vector_new : F → F → F → Vector;
  Vector_zero : Vector;
  vec_x : Vector → F;
  vec_y : Vector → F;
  vec_z : Vector → F;
  vec_sub : Vector → Vector → Vector;
  vec_rotated : Vector → Quaternion → Vector;
  matrix_translation : Matrix → Vector;
  matrix_to_quaternion : Matrix → Quaternion
}.

Section Store.
Context {F : Type} `{Mathutils F}.

(** *** The store of mathutils objects *)

(** A mathutils object is mutable and is named by its address; a new
    object takes the next free address. *)
Inductive Obj : Type :=
  | OQuat (q : Quaternion)
  | OVec (v : Vector).

(** A computation that uses the store: it returns a value and the new
    store, or raises. *)
Definition Py (A : Type) : Type := list Obj → Result (A * list Obj).

#[global] Instance Py_ret : MRet Py := λ A a h, Ok (a, h).
#[global] Instance Py_bind : MBind Py := λ A B k m h,
  match m h with
  | Ok (a, h') => k a h'
  | Raise e => Raise e
  end.

Definition raise {A} (e : exn) : Py A := λ _, Raise e.

Definition new_obj (o : Obj) : Py nat := λ h, Ok (length h, h ++ [o]).

Definition get_quat (l : nat) : Py Quaternion := λ h,
  match h !! l with
  | Some (OQuat q) => Ok (q, h)
  | _ => Raise TypeError
  end.

Definition get_vec (l : nat) : Py Vector := λ h,
  match h !! l with
  | Some (OVec v) => Ok (v, h)
  | _ => Raise TypeError
  end.

Definition set_obj (l : nat) (o : Obj) : Py unit := λ h, Ok (tt, <[l := o]> h).

(** *** The calls of the importer *)

(** [Quaternion(seq)]: a sequence of four numbers. *)
Definition Quaternion_ (seq : list F) : Py nat :=
  match seq with
  | [w; x; y; z] => new_obj (OQuat (Quaternion_new w x y z))
  | _ => raise TypeError
  end.

(** [Vector(seq)]; the importer only handles vectors of three numbers,
    every other size ends in an exception. *)
Definition Vector_ (seq : list F) : Py nat :=
  match seq with
  | [x; y; z] => new_obj (OVec (Vector_new x y z))
  | _ => raise TypeError
  end.

(** [q.copy()] *)
Definition Quaternion_copy (q : nat) : Py nat :=
  v ← get_quat q; new_obj (OQuat v).

(** [q.conjugated()]: a new object. *)
Definition Quaternion_conjugated (q : nat) : Py nat :=
  v ← get_quat q; new_obj (OQuat (quat_conjugated v)).

(** [q.conjugate()]: in place. *)
Definition Quaternion_conjugate (q : nat) : Py unit :=
  v ← get_quat q; set_obj q (OQuat (quat_conjugated v)).

(** [q.rotate(other)]: in place. *)
Definition Quaternion_rotate (q other : nat) : Py unit :=
  v ← get_quat q; o ← get_quat other; set_obj q (OQuat (quat_rotated v o)).

(** [v.copy()] *)
Definition Vector_copy (v : nat) : Py nat :=
  x ← get_vec v; new_obj (OVec x).

(** [a - b]: a new object. *)
Definition Vector_sub (a b : nat) : Py nat :=
  x ← get_vec a; y ← get_vec b; new_obj (OVec (vec_sub x y)).

(** [v.rotate(other)]: in place. *)
Definition Vector_rotate (v other : nat) : Py unit :=
  x ← get_vec v; o ← get_quat other; set_obj v (OVec (vec_rotated x o)).

(** [m.translation] and [m.to_quaternion()]: the matrix is never written
    to by the importer, and each access yields an object of its own. *)
Definition Matrix_translation (m : Matrix) : Py nat :=
  new_obj (OVec (matrix_translation m)).

Definition Matrix_to_quaternion (m : Matrix) : Py nat :=
  new_obj (OQuat (matrix_to_quaternion m)).

(** ** The armature *)

(** A bone of the target armature: its name, its parent bone (an object
    of the same armature, or [None]) and its bind matrix in armature
    space. The importer only reads the armature. *)
#[local] Unset Elimination Schemes.
Inductive ArmatureBone : Type :=
  | mkArmatureBone (name : string) (parent : option ArmatureBone)
      (matrix_local : Matrix).
#[local] Set Elimination Schemes.

Definition bone_name (b : ArmatureBone) : string :=
  match b with mkArmatureBone n _ _ => n end.
Definition bone_parent (b : ArmatureBone) : option ArmatureBone :=
  match b with mkArmatureBone _ p _ => p end.
Definition bone_matrix_local (b : ArmatureBone) : Matrix :=
  match b with mkArmatureBone _ _ m => m end.

(** [armature_data.bones[name]] *)
Fixpoint bones_by_name (bones : list ArmatureBone) (name : string)
    : Result ArmatureBone :=
  match bones with
  | [] => Raise (KeyError name)
  | b :: bones' =>
      if decide (bone_name b = name) then Ok b else bones_by_name bones' name
  end.

(** ** ImportBone ([importer.py], lines 31-40) *)

(** [psa_bone] is the position of the PSA bone in [psa_reader.bones]. An
    ImportBone object is named by its position in the list [import_bones],
    which is how [parent] and [import_bones_dict] refer to it. The three
    mathutils fields hold addresses. [pose_bone] and [fcurves] play no part
    in the conversion and are left out. *)
Record ImportBone := mkImportBone {
  psa_bone : nat;
  parent : option nat;
  armature_bone : ArmatureBone;
  original_location : nat;
  original_rotation : nat;
  post_rotation : nat
}.

(** ** Per-key conversion ([importer.py], lines 43-58) *)

Definition _calculate_fcurve_data (import_bone : ImportBone)
    (key_data : list F) : Py (list F) :=
  key_rotation ← Quaternion_ (take 4 key_data);
  key_location ← Vector_ (drop 4 key_data);
  q ← Quaternion_copy (post_rotation import_bone);
  Quaternion_rotate q (original_rotation import_bone);;
  let quat := q in
  q ← Quaternion_copy (post_rotation import_bone);
  match parent import_bone with
  | None =>
      c ← Quaternion_conjugated key_rotation;
      Quaternion_rotate q c
  | Some _ =>
      Quaternion_rotate q key_rotation
  end;;
  c ← Quaternion_conjugated q;
  Quaternion_rotate quat c;;
  loc ← Vector_sub key_location (original_location import_bone);
  c ← Quaternion_conjugated (post_rotation import_bone);
  Vector_rotate loc c;;
  quat_v ← get_quat quat;
  loc_v ← get_vec loc;
  mret [quat_w quat_v; quat_x quat_v; quat_y quat_v; quat_z quat_v;
        vec_x loc_v; vec_y loc_v; vec_z loc_v].

(** ** Building the ImportBones ([importer.py], lines 128-157) *)

(** [for i, x in enumerate(l, start)] over a body that uses the store. *)
Fixpoint py_for_enumerate {A St} (body : St → nat → A → Py St)
    (start : nat) (l : list A) (st : St) : Py St :=
  match l with
  | [] => mret st
  | x :: l' =>
      st' ← body st start x; py_for_enumerate body (S start) l' st'
  end.

(** Body of the loop of lines 132-141. The state is the pair of
    [import_bones] and [import_bones_dict]. [ImportBone(psa_bone)] creates
    the three default mathutils objects. *)
Definition make_import_bone (bones : list ArmatureBone)
    (psa_to_armature : gmap nat nat)
    (st : list (option ImportBone) * gmap string nat)
    (psa_bone_index : nat) (item : string * string)
    : Py (list (option ImportBone) * gmap string nat) :=
  let '(import_bones, import_bones_dict) := st in
  let psa_bone_name := item.2 in
  match psa_to_armature !! psa_bone_index with
  | None => mret (import_bones ++ [None], import_bones_dict)
  | Some _ =>
      ol ← new_obj (OVec Vector_zero);
      or ← new_obj (OQuat Quaternion_identity);
      pr ← new_obj (OQuat Quaternion_identity);
      match bones_by_name bones psa_bone_name with
      | Raise e => raise e
      | Ok armature_bone =>
          let import_bone :=
            mkImportBone psa_bone_index None armature_bone ol or pr in
          mret (import_bones ++ [Some import_bone],
                <[psa_bone_name := length import_bones]> import_bones_dict)
      end
  end.

(** Body of the loop of lines 143-157, for one ImportBone. *)
Definition calculate_bind_pose (mapped_names : list string)
    (import_bones_dict : gmap string nat) (import_bone : ImportBone)
    : Py ImportBone :=
  let armature_bone := armature_bone import_bone in
  import_bone ←
    match bone_parent armature_bone with
    | Some p =>
        if decide (bone_name p ∈ mapped_names) then
          match import_bones_dict !! bone_name p with
          | Some j =>
              mret (mkImportBone (psa_bone import_bone) (Some j)
                      armature_bone (original_location import_bone)
                      (original_rotation import_bone)
                      (post_rotation import_bone))
          | None => raise (KeyError (bone_name p))
          end
        else mret import_bone
    | None => mret import_bone
    end;
  '(ol, or) ←
    match parent import_bone with
    | Some _ =>
        match bone_parent armature_bone with
        | None => raise AttributeError
        | Some p =>
            a ← Matrix_translation (bone_matrix_local armature_bone);
            b ← Matrix_translation (bone_matrix_local p);
            ol ← Vector_sub a b;
            pq ← Matrix_to_quaternion (bone_matrix_local p);
            c ← Quaternion_conjugated pq;
            Vector_rotate ol c;;
            or ← Matrix_to_quaternion (bone_matrix_local armature_bone);
            pq ← Matrix_to_quaternion (bone_matrix_local p);
            c ← Quaternion_conjugated pq;
            Quaternion_rotate or c;;
            Quaternion_conjugate or;;
            mret (ol, or)
        end
    | None =>
        t ← Matrix_translation (bone_matrix_local armature_bone);
        ol ← Vector_copy t;
        or ← Matrix_to_quaternion (bone_matrix_local armature_bone);
        mret (ol, or)
    end;
  pr ← Quaternion_conjugated or;
  mret (mkImportBone (psa_bone import_bone) (parent import_bone)
          armature_bone ol or pr).

(** The loop of lines 143-157 visits the slots of [import_bones] in
    order, skips the ones holding [None], and updates each ImportBone in
    place. *)
Definition bind_pose_step (mapped_names : list string)
    (import_bones_dict : gmap string nat)
    (import_bones : list (option ImportBone)) (i : nat)
    (slot : option ImportBone) : Py (list (option ImportBone)) :=
  match import_bones !! i with
  | Some (Some import_bone) =>
      import_bone' ←
        calculate_bind_pose mapped_names import_bones_dict import_bone;
      mret (<[i := Some import_bone']> import_bones)
  | _ => mret import_bones
  end.

(** Lines 128-157: [psa_names] are the decoded names of
    [psa_reader.bones], zipped with the [psa_bone_names] list of the
    mapping. *)
Definition build_import_bones (bones : list ArmatureBone)
    (psa_names : list string) (mapping : BoneMapping)
    : Py (list (option ImportBone)) :=
  '(import_bones, import_bones_dict) ←
    py_for_enumerate
      (make_import_bone bones (psa_to_armature_bone_indices mapping))
      0 (zip psa_names (psa_bone_names mapping)) ([], ∅);
  py_for_enumerate
    (bind_pose_step (psa_bone_names mapping) import_bones_dict)
    0 import_bones import_bones.

(** Every parent of a bone of the armature is a bone of the armature (the
    host keeps this true); the importer compares them by name. *)
Definition armature_closed (bones : list ArmatureBone) : Prop :=
  ∀ b p, b ∈ bones → bone_parent b = Some p →
         bone_name p ∈ bone_name <$> bones.

End Store.

(** *** An exact instance of the mathutils interface *)

(** Quaternions and vectors with integer components: conjugation negates
    the vector part, [q.rotate(other)] is the Hamilton product
    [other * q], and a vector is rotated by [q] as [q v q*]. On the unit
    quaternions of this instance these are the rotations that mathutils
    computes, without rounding. A matrix is given by its rotation and its
    translation. *)
Definition zquat : Type := Z * Z * Z * Z.
Definition zvec : Type := Z * Z * Z.

Definition zquat_mul (a b : zquat) : zquat :=
  let '(a1, b1, c1, d1) := a in
  let '(a2, b2, c2, d2) := b in
  (a1 * a2 - b1 * b2 - c1 * c2 - d1 * d2,
   a1 * b2 + b1 * a2 + c1 * d2 - d1 * c2,
   a1 * c2 - b1 * d2 + c1 * a2 + d1 * b2,
   a1 * d2 + b1 * c2 - c1 * b2 + d1 * a2)%Z.

Definition zquat_conj (a : zquat) : zquat :=
  let '(w, x, y, z) := a in (w, - x, - y, - z)%Z.

Definition zquat_eqb (a b : zquat) : bool :=
  let '(a1, b1, c1, d1) := a in
  let '(a2, b2, c2, d2) := b in
  (a1 =? a2)%Z && (b1 =? b2)%Z && (c1 =? c2)%Z && (d1 =? d2)%Z.

Definition zvec_rot (v : zvec) (q : zquat) : zvec :=
  let '(x, y, z) := v in
  let '(_, x', y', z') := zquat_mul (zquat_mul q (0%Z, x, y, z)) (zquat_conj q) in
  (x', y', z').

#[global] Instance Z_Mathutils : Mathutils Z := {|
  Quaternion := zquat;
  Vector := zvec;
  Matrix := zquat * zvec;
  Quaternion_new w x y z := (w, x, y, z);
  Quaternion_identity := (1, 0, 0, 0)%Z;
  quat_w q := q.1.1.1;
  quat_x q := q.1.1.2;
  quat_y q := q.1.2;
  quat_z q := q.2;
  quat_conjugated := zquat_conj;
  quat_rotated q other := zquat_mul other q;
  quat_eq := zquat_eqb;
  Vector_new x y z := (x, y, z);
  Vector_zero := (0, 0, 0)%Z;
  vec_x v := v.1.1;
  vec_y v := v.1.2;
  vec_z v := v.2;
  vec_sub a b := (a.1.1 - b.1.1, a.1.2 - b.1.2, a.2 - b.2)%Z;
  vec_rotated := zvec_rot;
  matrix_translation m := m.2;
  matrix_to_quaternion m := m.1
|}.

(** *** An example armature over the exact instance *)

(** Pelvis is the root, Spine its child and Head the child of Spine. *)
Definition pelvis : ArmatureBone (F := Z) :=
  mkArmatureBone "Pelvis" None ((1, 0, 0, 0), (0, 0, 1))%Z.
Definition spine : ArmatureBone (F := Z) :=
  mkArmatureBone "Spine" (Some pelvis) ((0, 1, 0, 0), (0, 0, 2))%Z.
Definition head : ArmatureBone (F := Z) :=
  mkArmatureBone "Head" (Some spine) ((0, 0, 1, 0), (0, 1, 3))%Z.
Definition example_bones : list (ArmatureBone (F := Z)) :=
  [pelvis; spine; head].

(** The mapping of the PSA bones Pelvis, Spine onto it, and of the PSA
    bones Pelvis, Head, with the ImportBones and the store built from
    each. *)
Definition example_mapping_spine : BoneMapping :=
  mkBoneMapping (<[1:=1]> (<[0:=0]> ∅)) (<[1:=1]> (<[0:=0]> ∅))
    ["Pelvis"; "Spine"] [].
Definition example_import_spine :=
  Eval vm_compute in
    build_import_bones example_bones ["Pelvis"; "Spine"]
      example_mapping_spine [].
Definition example_mapping_head : BoneMapping :=
  mkBoneMapping (<[1:=2]> (<[0:=0]> ∅)) (<[2:=1]> (<[0:=0]> ∅))
    ["Pelvis"; "Head"] [].
Definition example_import_head :=
  Eval vm_compute in
    build_import_bones example_bones ["Pelvis"; "Head"]
      example_mapping_head [].

(** ** Frame rate and keyframes ([importer.py], lines 178-189, 229-241) *)

(** A Python number: [sequence.fps] and [options.fps_custom] are floats,
    [context.scene.render.fps] is an int. *)
Inductive PyNum : Type :=
  | PyInt (z : Z)
  | PyFloat (f : float).

(** [float(z)] for an int within the 63-bit range, which covers the frame
    rates of the host and the frame indices of a sequence; the conversion
    rounds to nearest, as the interpreter does. *)
Definition float_of_Z (z : Z) : float :=
  if (z <? 0)%Z
  then PrimFloat.opp (PrimFloat.of_uint63 (Uint63.of_Z (- z)))
  else PrimFloat.of_uint63 (Uint63.of_Z z).

Definition py_to_float (a : PyNum) : float :=
  match a with
  | PyInt z => float_of_Z z
  | PyFloat f => f
  end.

(** [a / b] for a float [b]: true division, which raises on a zero
    divisor of either sign. *)
Definition py_truediv (a : PyNum) (b : float) : Result float :=
  if PrimFloat.eqb b 0%float then Raise ZeroDivisionError
  else Ok (PrimFloat.div (py_to_float a) b).

(** The fields of [PsaImportOptions] and of a PSA sequence that these
    lines read. *)
Record PsaImportOptions := mkPsaImportOptions {
  should_write_keyframes : bool;
  fps_source : string;
  fps_custom : float
}.

Record Sequence := mkSequence {
  sequence_fps : float;
  frame_count : nat
}.

(** Lines 178-187; [scene_fps] is [context.scene.render.fps]. *)
Definition calculate_target_fps (options : PsaImportOptions)
    (scene_fps : Z) (sequence : Sequence) : Result PyNum :=
  let target_fps := PyFloat (sequence_fps sequence) in
  if decide (fps_source options = "CUSTOM") then
    Ok (PyFloat (fps_custom options))
  else if decide (fps_source options = "SCENE") then
    Ok (PyInt scene_fps)
  else if decide (fps_source options = "SEQUENCE") then
    Ok (PyFloat (sequence_fps sequence))
  else
    Raise (ValueError ("Unknown FPS source: " +:+ fps_source options)).

(** [numpy.zeros(n, dtype=float)] *)
Definition numpy_zeros (n : nat) : list float := replicate n 0%float.

(** [data[0::2] = vals] and [data[1::2] = vals] once the shapes agree. *)
Fixpoint assign_even (data vals : list float) : list float :=
  match data, vals with
  | _ :: d1 :: rest, v :: vals' => v :: d1 :: assign_even rest vals'
  | [_], v :: _ => [v]
  | _, _ => data
  end.

Definition assign_odd (data vals : list float) : list float :=
  match data with
  | d0 :: rest => d0 :: assign_even rest vals
  | [] => []
  end.

(** [data[offset::2] = vals] for [offset] 0 or 1: the values fill the
    slice when there are as many of them as slots, a single value is
    repeated over the slice, and any other shape raises. *)
Definition numpy_assign (offset : nat) (data vals : list float)
    : Result (list float) :=
  let slots := (length data + 1 - offset) / 2 in
  let assign := if decide (offset = 0) then assign_even else assign_odd in
  if decide (length vals = slots) then Ok (assign data vals)
  else
    match vals with
    | [v] => Ok (assign data (replicate slots v))
    | _ => Raise (ValueError "could not broadcast input array")
    end.

(** [matrix[:, bone_index, fcurve_index]] on the sequence data matrix,
    a frame-major array of seven numbers per bone. *)
Fixpoint matrix_column (matrix : list (list (list float)))
    (bone_index fcurve_index : nat) : Result (list float) :=
  match matrix with
  | [] => Ok []
  | frame :: matrix' =>
      key ← list_get frame bone_index;
      v ← list_get key fcurve_index;
      column ← matrix_column matrix' bone_index fcurve_index;
      Ok (v :: column)
  end.

(** [fcurve.keyframe_points.foreach_set('co', data)]: the flat array is
    read as the (time, value) pairs of the keyframe points. *)
Fixpoint co_pairs (data : list float) : list (float * float) :=
  match data with
  | t :: v :: rest => (t, v) :: co_pairs rest
  | _ => []
  end.

(** Line 232 *)
Definition keyframe_times (frame_count : nat) (keyframe_time_dilation : float)
    : list float :=
  (λ x, PrimFloat.mul (float_of_Z (Z.of_nat x)) keyframe_time_dilation)
    <$> seq 0 frame_count.

(** The state of the loops of lines 233-243: the array [fcurve_data],
    which every f-curve reuses, and the keyframes handed to the f-curves so
    far, each with its bone index and f-curve index. *)
Definition KeyframeWrites : Type :=
  list float * list (nat * nat * list (float * float)).

(** Lines 236-243 for one f-curve slot of a bone; [present] tells whether
    the slot holds an f-curve or [None]. *)
Definition write_fcurve (matrix : list (list (list float)))
    (bone_index : nat) (st : KeyframeWrites) (fcurve_index : nat)
    (present : bool) : Result KeyframeWrites :=
  if present then
    let '(fcurve_data, written) := st in
    column ← matrix_column matrix bone_index fcurve_index;
    fcurve_data ← numpy_assign 1 fcurve_data column;
    Ok (fcurve_data,
        written ++ [(bone_index, fcurve_index, co_pairs fcurve_data)])
  else Ok st.

(** Lines 233-243 for one slot of [import_bones]: [None], or the f-curve
    slots of the ImportBone. *)
Definition write_bone_fcurves (matrix : list (list (list float)))
    (st : KeyframeWrites) (bone_index : nat)
    (import_bone_fcurves : option (list bool)) : Result KeyframeWrites :=
  match import_bone_fcurves with
  | None => Ok st
  | Some fcurves => for_enumerate (write_fcurve matrix bone_index) 0 fcurves st
  end.

(** Lines 178-189 and 229-243 for one sequence. [matrix] is the sequence
    data matrix as the conversion loop of lines 219-226 has left it. The
    result is the target frame rate and the keyframes of each f-curve. *)
Definition import_sequence_keyframes (options : PsaImportOptions)
    (scene_fps : Z) (sequence : Sequence)
    (import_bones_fcurves : list (option (list bool)))
    (matrix : list (list (list float)))
    : Result (PyNum * list (nat * nat * list (float * float))) :=
  target_fps ← calculate_target_fps options scene_fps sequence;
  keyframe_time_dilation ← py_truediv target_fps (sequence_fps sequence);
  if should_write_keyframes options then
    let fcurve_data := numpy_zeros (2 * frame_count sequence) in
    fcurve_data ←
      numpy_assign 0 fcurve_data
        (keyframe_times (frame_count sequence) keyframe_time_dilation);
    '(_, written) ←
      for_enumerate (write_bone_fcurves matrix) 0 import_bones_fcurves
        (fcurve_data, []);
    Ok (target_fps, written)
  else Ok (target_fps, []).

(** ** The exporter ([exporter.py], lines 16-38) *)

(** The value a [c_int32] field takes when a Python int is assigned to
    it: ctypes keeps the low 32 bits, read as a signed number. *)
Definition c_int32 (z : Z) : Z :=
  ((z + 2 ^ 31) `mod` 2 ^ 32 - 2 ^ 31)%Z.

(** The record types written to a PSA file. *)
Inductive DataType : Type := Psa_Bone | Psa_Sequence | Psa_Key.

(** The structures [Psa.Bone], [Psa.Sequence] and [Psa.Key] are declared
    in [data.py], outside the exporter: their contents are kept abstract,
    and [sizeof] is the size in bytes that ctypes gives to each, which fits a
    [c_int32]. *)
Class PsaData := {
  PsaBone : Type;
  PsaSequence : Type;
  PsaKey : Type;
  sizeof : DataType → Z;
  sizeof_range : ∀ t, (0 ≤ sizeof t < 2 ^ 31)%Z
}.

Section Exporter.
Context `{PsaData}.

(** Modelled from the spec: the [Section] header structure of [data.py],
    which the spec gives as a tag followed by an [i32] element size and an
    [i32] element count; a new [Section()] has every field zero. *)
Record Section := mkSection {
  section_name : string;
  data_size : Z;
  data_count : Z
}.

Definition Section_new : Section := mkSection "" 0 0.

(** An element of one of the lists of a [Psa]. *)
Inductive Datum : Type :=
  | DBone (b : PsaBone)
  | DSequence (s : PsaSequence)
  | DKey (k : PsaKey).

(** What [fp.write] appends to the file: a header or a record. *)
Inductive Written : Type :=
  | WSection (s : Section)
  | WDatum (d : Datum).

(** [PsaExporter.write_section]; [fp] is the content of the file so far,
    [data_type] and [data] are [None] when the caller omits them. *)
Definition write_section (fp : list Written) (name : string)
    (data_type : option DataType) (data : option (list Datum))
    : list Written :=
  let section := Section_new in
  let section := mkSection name (data_size section) (data_count section) in
  let section :=
    match data_type, data with
    | Some t, Some d =>
        mkSection (section_name section) (c_int32 (sizeof t))
          (c_int32 (Z.of_nat (length d)))
    | _, _ => section
    end in
  let fp := fp ++ [WSection section] in
  match data with
  | Some d => fp ++ (WDatum <$> d)
  | None => fp
  end.

(** The [Psa] object: [sequences] is an ordered dictionary, kept as the
    list of its items in insertion order. *)
Record Psa := mkPsa {
  psa_bones : list PsaBone;
  psa_sequences : list (string * PsaSequence);
  psa_keys : list PsaKey
}.

(** [PsaExporter.export]: the content of the file, which [open(path, 'wb')]
    starts empty. *)
Definition export (psa : Psa) : list Written :=
  let fp := [] in
  let fp := write_section fp "ANIMHEAD" None None in
  let fp := write_section fp "BONENAMES" (Some Psa_Bone)
              (Some (DBone <$> psa_bones psa)) in
  let fp := write_section fp "ANIMINFO" (Some Psa_Sequence)
              (Some (DSequence <$> (psa_sequences psa).*2)) in
  write_section fp "ANIMKEYS" (Some Psa_Key) (Some (DKey <$> psa_keys psa)).

End Exporter.

(** An instance of the record types for examples: records without content,
    with the sizes 120, 100 and 32. *)
#[global, refine] Instance unit_PsaData : PsaData := {|
  PsaBone := unit;
  PsaSequence := unit;
  PsaKey := unit;
  sizeof t := match t with
              | Psa_Bone => 120%Z
              | Psa_Sequence => 100%Z
              | Psa_Key => 32%Z
              end
|}.
Proof. intros []; lia. Defined.

(** ** The f-curves of a sequence ([importer.py], lines 165-168, 197-213) *)

(** Lines 166-168: the bone track flags of the configuration file for the
    sequence, or an empty dictionary. *)
Definition get_sequence_bone_track_flags
    (sequence_bone_flags : gmap string (gmap nat Z))
    (sequence_name : string) : gmap nat Z :=
  default ∅ (sequence_bone_flags !! sequence_name).

Section FCurves.
(** The two flags that [importer.py] takes from [config.py]. *)
Variables (REMOVE_TRACK_LOCATION REMOVE_TRACK_ROTATION : Z).

(** The list of lines 205-213: for each of the seven slots, whether it
    holds a new f-curve or [None]. *)
Definition new_fcurves (bone_track_flags : Z) : list bool :=
  let add_rotation_fcurves :=
    bool_decide (Z.land bone_track_flags REMOVE_TRACK_ROTATION = 0%Z) in
  let add_location_fcurves :=
    bool_decide (Z.land bone_track_flags REMOVE_TRACK_LOCATION = 0%Z) in
  [add_rotation_fcurves; add_rotation_fcurves; add_rotation_fcurves;
   add_rotation_fcurves;
   add_location_fcurves; add_location_fcurves; add_location_fcurves].

(** Body of the loop of lines 198-213. The state is the [fcurves]
    attribute of each slot of [import_bones], [None] where [import_bones]
    holds [None]. *)
Definition create_bone_fcurves (sequence_bone_track_flags : gmap nat Z)
    (import_bones_fcurves : list (option (list bool))) (_ : nat)
    (item : nat * nat) : Result (list (option (list bool))) :=
  let psa_bone_index := item.1 in
  let bone_track_flags :=
    default 0%Z (sequence_bone_track_flags !! psa_bone_index) in
  import_bone ← list_get import_bones_fcurves psa_bone_index;
  match import_bone with
  | None => Raise AttributeError
  | Some _ =>
      Ok (<[psa_bone_index := Some (new_fcurves bone_track_flags)]>
            import_bones_fcurves)
  end.

(** Lines 198-213. [psa_to_armature_items] are the items of the
    dictionary [psa_to_armature_bone_indices], in the order in which the
    dictionary yields them. *)
Definition create_fcurves (psa_to_armature_items : list (nat * nat))
    (sequence_bone_track_flags : gmap nat Z)
    (import_bones_fcurves : list (option (list bool)))
    : Result (list (option (list bool))) :=
  for_enumerate (create_bone_fcurves sequence_bone_track_flags) 0
    psa_to_armature_items import_bones_fcurves.

End FCurves.

(** The [fcurves] attributes as [ImportBone.__init__] leaves them (line
    40): an empty list for every ImportBone. *)
Definition initial_fcurves {A} (import_bones : list (option A))
    : list (option (list bool)) :=
  (λ slot : option A, (λ _ : A, @nil bool) <$> slot) <$> import_bones.

(** [items] are the items of the dictionary [m], in some order. *)
Definition items_of (m : gmap nat nat) (items : list (nat * nat)) : Prop :=
  ∀ k v, (k, v) ∈ items ↔ m !! k = Some v.

(** ** The conversion of the sequence data ([importer.py], lines 219-226) *)

Section SequenceData.
Context {F : Type} `{Mathutils F}.

(** [sequence_data_matrix[frame_index, bone_index]], read and written; the
    matrix is frame-major and holds one key of seven numbers per bone. *)
Definition matrix_get (sequence_data_matrix : list (list (list F)))
    (frame_index bone_index : nat) : Result (list F) :=
  frame ← list_get sequence_data_matrix frame_index;
  list_get frame bone_index.

Definition matrix_set (sequence_data_matrix : list (list (list F)))
    (frame_index bone_index : nat) (key : list F) : list (list (list F)) :=
  match sequence_data_matrix !! frame_index with
  | Some frame =>
      <[frame_index := <[bone_index := key]> frame]> sequence_data_matrix
  | None => sequence_data_matrix
  end.

(** Lines 224-226, for one frame of one bone. *)
Definition convert_key (import_bone : ImportBone) (bone_index : nat)
    (sequence_data_matrix : list (list (list F))) (_ : nat)
    (frame_index : nat) : Py (list (list (list F))) :=
  match matrix_get sequence_data_matrix frame_index bone_index with
  | Raise e => raise e
  | Ok key_data =>
      key ← _calculate_fcurve_data import_bone key_data;
      mret (matrix_set sequence_data_matrix frame_index bone_index key)
  end.

(** Lines 220-226, for one slot of [import_bones]. *)
Definition convert_bone (frame_count : nat)
    (sequence_data_matrix : list (list (list F))) (bone_index : nat)
    (import_bone : option ImportBone) : Py (list (list (list F))) :=
  match import_bone with
  | None => mret sequence_data_matrix
  | Some import_bone =>
      py_for_enumerate (convert_key import_bone bone_index) 0
        (seq 0 frame_count) sequence_data_matrix
  end.

(** Lines 219-226. *)
Definition convert_sequence_data (import_bones : list (option ImportBone))
    (frame_count : nat) (sequence_data_matrix : list (list (list F)))
    : Py (list (list (list F))) :=
  py_for_enumerate (convert_bone frame_count) 0 import_bones
    sequence_data_matrix.

End SequenceData.

(** ** One sequence ([importer.py], lines 165-243) *)

Section ImportSequence.
(** The sequence data matrix is a numpy array of floats, and the keys that
    go through mathutils come back into it: the numbers of the mathutils
    interface are the floats of the matrix. *)
Context `{Mathutils float}.
Variables (REMOVE_TRACK_LOCATION REMOVE_TRACK_ROTATION : Z).

(** A computation that does not use the store. *)
Definition lift {A} (r : Result A) : Py A := λ h,
  match r with
  | Ok a => Ok (a, h)
  | Raise e => Raise e
  end.

(** The body of the loop of line 162 for one sequence, from the bone track
    flags of line 166 to the keyframes of line 243. [sequence_data_matrix]
    is what [psa_reader.read_sequence_data_matrix] returns for the
    sequence, [psa_to_armature_items] the items of the dictionary of the
    mapping, [import_bones_fcurves] the [fcurves] attributes of the slots
    of [import_bones] before the sequence. The result is the target frame
    rate, the [fcurves] attributes after the sequence, and the keyframes
    given to each f-curve. *)
Definition import_sequence (options : PsaImportOptions) (scene_fps : Z)
    (sequence_bone_flags : gmap string (gmap nat Z))
    (psa_to_armature_items : list (nat * nat))
    (import_bones : list (option ImportBone))
    (import_bones_fcurves : list (option (list bool)))
    (sequence_name : string) (sequence : Sequence)
    (sequence_data_matrix : list (list (list float)))
    : Py (PyNum * list (option (list bool)) *
          list (nat * nat * list (float * float))) :=
  let sequence_bone_track_flags :=
    get_sequence_bone_track_flags sequence_bone_flags sequence_name in
  target_fps ← lift (calculate_target_fps options scene_fps sequence);
  keyframe_time_dilation ←
    lift (py_truediv target_fps (sequence_fps sequence));
  if should_write_keyframes options then
    import_bones_fcurves ←
      lift (create_fcurves REMOVE_TRACK_LOCATION REMOVE_TRACK_ROTATION
              psa_to_armature_items sequence_bone_track_flags
              import_bones_fcurves);
    sequence_data_matrix ←
      convert_sequence_data import_bones (frame_count sequence)
        sequence_data_matrix;
    let fcurve_data := numpy_zeros (2 * frame_count sequence) in
    fcurve_data ←
      lift (numpy_assign 0 fcurve_data
              (keyframe_times (frame_count sequence) keyframe_time_dilation));
    '(_, written) ←
      lift (for_enumerate (write_bone_fcurves sequence_data_matrix) 0
              import_bones_fcurves (fcurve_data, []));
    mret (target_fps, import_bones_fcurves, written)
  else mret (target_fps, import_bones_fcurves, []).

(** The loop of lines 160-254 over the requested sequences: for each
    one its name, its record and its data matrix. The [fcurves] attributes
    of the ImportBones go from one sequence to the next; the result is, for
    each action created, the target frame rate and the keyframes of its
    f-curves. *)
Definition import_sequences (options : PsaImportOptions) (scene_fps : Z)
    (sequence_bone_flags : gmap string (gmap nat Z))
    (psa_to_armature_items : list (nat * nat))
    (import_bones : list (option ImportBone))
    (sequences : list (string * Sequence * list (list (list float))))
    : Py (list (PyNum * list (nat * nat * list (float * float)))) :=
  '(_, actions) ←
    py_for_enumerate
      (λ '(import_bones_fcurves, actions) _ '(sequence_name, sequence, matrix),
         '(target_fps, import_bones_fcurves, written) ←
           import_sequence options scene_fps sequence_bone_flags
             psa_to_armature_items import_bones import_bones_fcurves
             sequence_name sequence matrix;
         mret (import_bones_fcurves, actions ++ [(target_fps, written)]))
      0 sequences (initial_fcurves import_bones, []);
  mret actions.

End ImportSequence.

(** *** An instance of the mathutils interface over the floats *)

(** The formulas of the exact instance, evaluated in binary64. mathutils
    itself keeps its components in single precision: this instance is an
    example of the interface, for running the importer on a matrix of
    floats, and no model of the rounding of mathutils. *)
Definition fquat : Type := float * float * float * float.
Definition fvec : Type := float * float * float.

Definition fquat_mul (a b : fquat) : fquat :=
  let '(a1, b1, c1, d1) := a in
  let '(a2, b2, c2, d2) := b in
  (a1 * a2 - b1 * b2 - c1 * c2 - d1 * d2,
   a1 * b2 + b1 * a2 + c1 * d2 - d1 * c2,
   a1 * c2 - b1 * d2 + c1 * a2 + d1 * b2,
   a1 * d2 + b1 * c2 - c1 * b2 + d1 * a2)%float.

Definition fquat_conj (a : fquat) : fquat :=
  let '(w, x, y, z) := a in (w, - x, - y, - z)%float.

Definition fquat_eqb (a b : fquat) : bool :=
  let '(a1, b1, c1, d1) := a in
  let '(a2, b2, c2, d2) := b in
  PrimFloat.eqb a1 a2 && PrimFloat.eqb b1 b2 && PrimFloat.eqb c1 c2
  && PrimFloat.eqb d1 d2.

Definition fvec_rot (v : fvec) (q : fquat) : fvec :=
  let '(x, y, z) := v in
  let '(_, x', y', z') :=
    fquat_mul (fquat_mul q (0%float, x, y, z)) (fquat_conj q) in
  (x', y', z').

Definition float_Mathutils : Mathutils float := {|
  Quaternion := fquat;
  Vector := fvec;
  Matrix := fquat * fvec;
  Quaternion_new w x y z := (w, x, y, z);
  Quaternion_identity := (1, 0, 0, 0)%float;
  quat_w q := q.1.1.1;
  quat_x q := q.1.1.2;
  quat_y q := q.1.2;
  quat_z q := q.2;
  quat_conjugated := fquat_conj;
  quat_rotated q other := fquat_mul other q;
  quat_eq := fquat_eqb;
  Vector_new x y z := (x, y, z);
  Vector_zero := (0, 0, 0)%float;
  vec_x v := v.1.1;
  vec_y v := v.1.2;
  vec_z v := v.2;
  vec_sub a b := (a.1.1 - b.1.1, a.1.2 - b.1.2, a.2 - b.2)%float;
  vec_rotated := fvec_rot;
  matrix_translation m := m.2;
  matrix_to_quaternion m := m.1
|}.

(** The example armature with float bind matrices. *)
Definition float_pelvis : ArmatureBone (H := float_Mathutils) :=
  @mkArmatureBone float float_Mathutils "Pelvis" None
    ((1, 0, 0, 0), (0, 0, 1))%float.
Definition float_spine : ArmatureBone (H := float_Mathutils) :=
  @mkArmatureBone float float_Mathutils "Spine" (Some float_pelvis)
    ((0, 1, 0, 0), (0, 0, 2))%float.
Definition float_head : ArmatureBone (H := float_Mathutils) :=
  @mkArmatureBone float float_Mathutils "Head" (Some float_spine)
    ((0, 0, 1, 0), (0, 1, 3))%float.
Definition float_bones : list (ArmatureBone (H := float_Mathutils)) :=
  [float_pelvis; float_spine; float_head].

(** ** The export dialog ([exporter.py], lines 316-434) *)

(** The [action] attribute of a list item. A timeline marker item has
    none; the pointer of an action item is unset or names an action, which
    belongs to an asset library ([asset_data] is not [None]) or not. *)
Inductive ItemAction : Type :=
  | NoActionAttribute
  | ActionUnset
  | ActionSet (has_asset_data : bool).

(** An item of [action_list] or [marker_list]. Item objects are shared
    with the collection that holds them: an item is named by its position
    in its collection. *)
Record ListItem := mkListItem {
  item_name : string;
  is_selected : bool;
  item_action : ItemAction
}.

(** The properties of [PsaExportPropertyGroup] that the list filter and
    the selection operators use. *)
Record PsaExportPropertyGroup := mkPsaExportPropertyGroup {
  sequence_source : string;
  action_list : list ListItem;
  marker_list : list ListItem;
  sequence_filter_name : string;
  sequence_use_filter_invert : bool;
  sequence_filter_asset : bool
}.

Section ExportDialog.
(** [fnmatch.fnmatch(name, pattern)] *)
Variable fnmatch : string → string → bool.

Definition bitflag_filter_item : Z := Z.shiftl 1 30.

(** The three loops of [filter_sequences]. *)
Definition filter_by_name (pg : PsaExportPropertyGroup) (flt_flags : list Z)
    (i : nat) (sequence : ListItem) : Result (list Z) :=
  if negb (fnmatch (item_name sequence)
             ("*" +:+ sequence_filter_name pg +:+ "*"))
  then Ok (alter (λ flag, Z.land flag (Z.lnot bitflag_filter_item)) i
             flt_flags)
  else Ok flt_flags.

Definition filter_by_asset (flt_flags : list Z) (i : nat)
    (sequence : ListItem) : Result (list Z) :=
  match item_action sequence with
  | NoActionAttribute => Ok flt_flags
  | ActionUnset => Raise AttributeError
  | ActionSet has_asset_data =>
      if has_asset_data
      then Ok (alter (λ flag, Z.land flag (Z.lnot bitflag_filter_item)) i
                 flt_flags)
      else Ok flt_flags
  end.

Definition filter_invert (flt_flags : list Z) (i : nat) (sequence : ListItem)
    : Result (list Z) :=
  Ok (alter (λ flag, Z.lxor flag bitflag_filter_item) i flt_flags).

(** [filter_sequences]; [sequences] is [None] when the caller passes
    [None] for the collection. The filter name is a string property, which
    is never [None]: the test of line 320 always holds. *)
Definition filter_sequences (pg : PsaExportPropertyGroup)
    (sequences : option (list ListItem)) : Result (list Z) :=
  match sequences with
  | None => Raise TypeError
  | Some sequences =>
      let flt_flags := replicate (length sequences) bitflag_filter_item in
      flt_flags ← for_enumerate (filter_by_name pg) 0 sequences flt_flags;
      flt_flags ←
        (if negb (sequence_filter_asset pg)
         then for_enumerate filter_by_asset 0 sequences flt_flags
         else Ok flt_flags);
      flt_flags ←
        (if sequence_use_filter_invert pg
         then for_enumerate filter_invert 0 sequences flt_flags
         else Ok flt_flags);
      Ok flt_flags
  end.

(** [get_visible_sequences]: the items it returns, as positions in
    [sequences]. *)
Definition get_visible_sequences (pg : PsaExportPropertyGroup)
    (sequences : option (list ListItem)) : Result (list nat) :=
  flt_flags ← filter_sequences pg sequences;
  for_enumerate
    (λ visible_sequences i flag,
       if bool_decide (Z.land flag (Z.shiftl 1 30) ≠ 0%Z)
       then
         match sequences with
         | Some sequences =>
             _ ← list_get sequences i; Ok (visible_sequences ++ [i])
         | None => Raise TypeError
         end
       else Ok visible_sequences)
    0 flt_flags [].

(** [get_item_list] of the two selection operators. *)
Definition get_item_list (pg : PsaExportPropertyGroup)
    : option (list ListItem) :=
  if decide (sequence_source pg = "ACTIONS") then Some (action_list pg)
  else if decide (sequence_source pg = "TIMELINE_MARKERS")
  then Some (marker_list pg)
  else None.

(** [item.is_selected = value] *)
Definition set_is_selected (value : bool) (item : ListItem) : ListItem :=
  mkListItem (item_name item) value (item_action item).

(** The property group after the items at [positions] of the list that
    [get_item_list] returns have been given [is_selected = value]. *)
Definition select_items (pg : PsaExportPropertyGroup) (value : bool)
    (positions : list nat) : PsaExportPropertyGroup :=
  let write l := foldl (λ l i, alter (set_is_selected value) i l) l positions in
  if decide (sequence_source pg = "ACTIONS") then
    mkPsaExportPropertyGroup (sequence_source pg) (write (action_list pg))
      (marker_list pg) (sequence_filter_name pg)
      (sequence_use_filter_invert pg) (sequence_filter_asset pg)
  else if decide (sequence_source pg = "TIMELINE_MARKERS") then
    mkPsaExportPropertyGroup (sequence_source pg) (action_list pg)
      (write (marker_list pg)) (sequence_filter_name pg)
      (sequence_use_filter_invert pg) (sequence_filter_asset pg)
  else pg.

(** [is_selected] of the item at a position of [item_list]. *)
Definition item_is_selected (item_list : option (list ListItem)) (i : nat)
    : bool :=
  match item_list ≫= (λ l, l !! i) with
  | Some item => is_selected item
  | None => false
  end.

(** [PsaExportActionsSelectAll] *)
Definition PsaExportActionsSelectAll_poll (pg : PsaExportPropertyGroup)
    : Result bool :=
  let item_list := get_item_list pg in
  visible_sequences ← get_visible_sequences pg item_list;
  let has_unselected_sequences :=
    existsb (λ item, negb (item_is_selected item_list item))
      visible_sequences in
  Ok has_unselected_sequences.

Definition PsaExportActionsSelectAll_execute (pg : PsaExportPropertyGroup)
    : Result PsaExportPropertyGroup :=
  let sequences := get_item_list pg in
  visible_sequences ← get_visible_sequences pg sequences;
  Ok (select_items pg true visible_sequences).

(** [PsaExportActionsDeselectAll] *)
Definition PsaExportActionsDeselectAll_poll (pg : PsaExportPropertyGroup)
    : Result bool :=
  match get_item_list pg with
  | None => Raise TypeError
  | Some item_list =>
      let has_selected_items := existsb is_selected item_list in
      Ok (bool_decide (0 < length item_list) && has_selected_items)
  end.

Definition PsaExportActionsDeselectAll_execute (pg : PsaExportPropertyGroup)
    : Result PsaExportPropertyGroup :=
  let item_list := get_item_list pg in
  visible_sequences ← get_visible_sequences pg item_list;
  Ok (select_items pg false visible_sequences).

End ExportDialog.

(** ** The naming conflict of the export dialog ([exporter.py], lines
    190-197) *)

(** [Counter(names)]: a dictionary from each name to the number of its
    occurrences, kept as the list of its items in insertion order. A name
    that is counted again keeps its place. *)
Fixpoint counter_add (counts : list (string * nat)) (name : string)
    : list (string * nat) :=
  match counts with
  | [] => [(name, 1)]
  | (k, v) :: counts' =>
      if decide (k = name) then (k, S v) :: counts'
      else (k, v) :: counter_add counts' name
  end.

Definition Counter (names : list string) : list (string * nat) :=
  foldl counter_add [] names.

(** The loop of lines 194-197: the name of the first item whose count is
    above one, at which the loop breaks. *)
Fixpoint first_duplicate (action_name_counts : list (string * nat))
    : option string :=
  match action_name_counts with
  | [] => None
  | (action_name, count) :: rest =>
      if 1 <? count then Some action_name else first_duplicate rest
  end.

(** Lines 191-197 of [PsaExportOperator.draw]: the text of the error label
    that is added to the layout, or [None] when no label is added. *)
Definition draw_duplicate_label (pg : PsaExportPropertyGroup)
    : option string :=
  let selected_items := filter (λ x, is_selected x = true) (action_list pg) in
  let action_names := item_name <$> selected_items in
  let action_name_counts := Counter action_names in
  (λ action_name, "Duplicate action: " +:+ action_name)
    <$> first_duplicate action_name_counts.

(** [fnmatch.fnmatch] on the patterns that [filter_sequences] builds from a
    filter name without wildcard characters, under a file system that
    distinguishes case: the name contains the text between the two
    stars. *)
Definition fnmatch_contains (name pattern : string) : bool :=
  let inner := String.substring 1 (String.length pattern - 2) pattern in
  bool_decide (is_Some (String.index 0 inner name)).

(** ** Invariants and vocabulary of the properties *)

Section MapperInvariant.
Context `{PyStr}.

(** The name that the scan appends to [psa_bone_names] for the PSA name
    [n]: the accepted armature name, or [n] itself. *)
Definition mapped_name (arm : list string) (mode : string) (n : string)
    : string :=
  match _get_armature_bone_index_for_psa_bone n arm mode with
  | Some t => default n (arm !! t)
  | None => n
  end.

(** The invariant of the scan of lines 95-108: [st] is the state reached
    after the PSA names [l]. *)
Record scan_inv (arm : list string) (mode : string) (l : list string)
    (st : BoneMapping) : Prop := {
  inv_a2p_Some : ∀ t s,
    armature_to_psa_bone_indices st !! t = Some s → earliest arm mode l t s;
  inv_a2p_None : ∀ t,
    armature_to_psa_bone_indices st !! t = None →
    ∀ s, ¬ accepts arm mode l s t;
  inv_claimant : ∀ t s,
    armature_to_psa_bone_indices st !! t = Some s →
    is_Some (psa_to_armature_bone_indices st !! s);
  inv_p2a : ∀ s i,
    psa_to_armature_bone_indices st !! s = Some i ↔
    ∃ t n, armature_to_psa_bone_indices st !! t = Some s ∧
           l !! s = Some n ∧ list_index arm n = Ok i;
  inv_names : psa_bone_names st = mapped_name arm mode <$> l;
  inv_dups : ∀ s t m,
    (s, t, m) ∈ duplicate_mappings st ↔
    accepts arm mode l s t ∧
    armature_to_psa_bone_indices st !! t = Some m ∧ m < s
}.

End MapperInvariant.

Section StoreSpec.
Context {F : Type} `{Mathutils F}.
Implicit Types (h : list Obj) (ib : ImportBone)
  (ibs : list (option ImportBone)) (dict : gmap string nat).

(** [m] runs from [h] to a result and a store that satisfy [Q]. *)
Definition runs {A} (m : Py A) (h : list Obj) (Q : A → list Obj → Prop) : Prop :=
  ∃ a h', m h = Ok (a, h') ∧ Q a h'.

(** The parent link that lines 145-146 give to a bone. *)
Definition parent_link (mapped_names : list string)
    (import_bones_dict : gmap string nat) (ab : ArmatureBone) : option nat :=
  match bone_parent ab with
  | Some p =>
      if decide (bone_name p ∈ mapped_names)
      then import_bones_dict !! bone_name p
      else None
  | None => None
  end.

(** The fields of [ib] hold, in the store [h], the bind pose derived from
    the armature bone of [ib]. *)
Definition holds_bind_pose (h : list Obj) (ib : ImportBone) : Prop :=
  ∃ ol or,
    h !! original_location ib = Some (OVec ol) ∧
    h !! original_rotation ib = Some (OQuat or) ∧
    h !! post_rotation ib = Some (OQuat (quat_conjugated or)) ∧
    let m := bone_matrix_local (armature_bone ib) in
    match parent ib with
    | None =>
        ol = matrix_translation m ∧ or = matrix_to_quaternion m
    | Some _ =>
        ∃ p, bone_parent (armature_bone ib) = Some p ∧
             let pm := bone_matrix_local p in
             ol = vec_rotated
                    (vec_sub (matrix_translation m) (matrix_translation pm))
                    (quat_conjugated (matrix_to_quaternion pm)) ∧
             or = quat_conjugated
                    (quat_rotated (matrix_to_quaternion m)
                       (quat_conjugated (matrix_to_quaternion pm)))
    end.

(** What the loop of lines 132-141 has built after [k] PSA bones. *)
Definition import_bones_built (bones : list ArmatureBone)
    (p2a : gmap nat nat) (names : list string)
    ibs dict (k : nat) : Prop :=
  length ibs = k ∧
  (∀ s, s < k →
     match p2a !! s with
     | None => ibs !! s = Some None
     | Some _ =>
         ∃ ib name,
           ibs !! s = Some (Some ib) ∧ names !! s = Some name ∧
           bones_by_name bones name = Ok (armature_bone ib) ∧
           psa_bone ib = s ∧ parent ib = None ∧ is_Some (dict !! name)
     end) ∧
  (∀ name j, dict !! name = Some j →
             j < k ∧ is_Some (p2a !! j) ∧ names !! j = Some name).

(** What the loop of lines 143-157 has made of the ImportBone [ib]. *)
Definition bind_pose_done (names : list string) dict h ib ib' : Prop :=
  psa_bone ib' = psa_bone ib ∧
  armature_bone ib' = armature_bone ib ∧
  parent ib' = parent_link names dict (armature_bone ib) ∧
  holds_bind_pose h ib'.

End StoreSpec.

Section PipelineSpec.
Context `{PyStr} {F : Type} `{Mathutils F}.
Implicit Types (h : list Obj) (ib : ImportBone)
  (ibs : list (option ImportBone)) (bones : list ArmatureBone).

(** What [build_import_bones] returns. *)
Definition import_bones_ready bones (mode : string) (psa_names : list string)
    (st : BoneMapping) ibs h : Prop :=
  length ibs = length psa_names ∧
  (∀ s, ibs !! s = Some None ↔
        s < length psa_names ∧ psa_to_armature_bone_indices st !! s = None) ∧
  ∀ s ib, ibs !! s = Some (Some ib) →
    is_Some (psa_to_armature_bone_indices st !! s) ∧
    psa_bone ib = s ∧
    (∃ t, accepts (bone_name <$> bones) mode psa_names s t ∧
          bones !! t = Some (armature_bone ib)) ∧
    holds_bind_pose h ib ∧
    (∀ j, parent ib = Some j →
          ∃ p ibp, bone_parent (armature_bone ib) = Some p ∧
                   ibs !! j = Some (Some ibp) ∧
                   bone_name (armature_bone ibp) = bone_name p) ∧
    (parent ib = None →
     ∀ p, bone_parent (armature_bone ib) = Some p →
          ∀ s' ib', ibs !! s' = Some (Some ib') →
                    bone_name (armature_bone ib') ≠ bone_name p).

End PipelineSpec.

(** What the loops of lines 233-243 keep true of the reused array and of
    the keyframes written so far, [times] being the timestamps of line
    232. *)
Definition writes_inv (matrix : list (list (list float)))
    (times : list float) (st : KeyframeWrites) : Prop :=
  length st.1 = 2 * length times ∧
  (co_pairs st.1).*1 = times ∧
  ∀ b k co, (b, k, co) ∈ st.2 →
            ∃ col, matrix_column matrix b k = Ok col ∧ co = zip times col.

(** The f-curves of [import_bones] that exist, as pairs of a bone index and
    an f-curve index, in the order in which the loops of lines 233-243
    visit them. *)
Definition present_slots (bone_index : nat) (fcurves : list bool)
    : list (nat * nat) :=
  omap id
    (imap (λ fcurve_index (present : bool),
             if present then Some (bone_index, fcurve_index) else None)
       fcurves).

Definition present_fcurves (import_bones_fcurves : list (option (list bool)))
    : list (nat * nat) :=
  mjoin
    (imap (λ bone_index slot,
             match slot with
             | Some fcurves => present_slots bone_index fcurves
             | None => []
             end)
       import_bones_fcurves).

Section SequenceDataSpec.
Context {F : Type} `{Mathutils F}.

(** The key that [_calculate_fcurve_data] makes of [key_data] for an
    ImportBone whose fields are read in the store [h]. *)
Definition local_key (h : list Obj) (import_bone : ImportBone)
    (key_data : list F) : option (list F) :=
  match h !! post_rotation import_bone, h !! original_rotation import_bone,
        h !! original_location import_bone, key_data with
  | Some (OQuat post), Some (OQuat orig), Some (OVec oloc),
    [k0; k1; k2; k3; k4; k5; k6] =>
      let rot := Quaternion_new k0 k1 k2 k3 in
      let loc := Vector_new k4 k5 k6 in
      let q := quat_rotated post orig in
      let q2 := quat_rotated post
                  (match parent import_bone with
                   | None => quat_conjugated rot
                   | Some _ => rot
                   end) in
      let final_rotation := quat_rotated q (quat_conjugated q2) in
      let final_location :=
        vec_rotated (vec_sub loc oloc) (quat_conjugated post) in
      Some [quat_w final_rotation; quat_x final_rotation;
            quat_y final_rotation; quat_z final_rotation;
            vec_x final_location; vec_y final_location;
            vec_z final_location]
  | _, _, _, _ => None
  end.

(** The key of the converted matrix at [bone_index], given the key of the
    matrix as it was read. *)
Definition converted_key (h : list Obj)
    (import_bones : list (option ImportBone)) (bone_index : nat)
    (key_data : list F) : list F :=
  match import_bones !! bone_index with
  | Some (Some import_bone) =>
      default key_data (local_key h import_bone key_data)
  | _ => key_data
  end.

(** The matrix in which the keys at the places chosen by [place] are
    converted. *)
Definition converted_where (h : list Obj)
    (import_bones : list (option ImportBone)) (place : nat → nat → bool)
    (matrix : list (list (list F))) : list (list (list F)) :=
  imap (λ frame_index frame,
          imap (λ bone_index key_data,
                  if place frame_index bone_index
                  then converted_key h import_bones bone_index key_data
                  else key_data)
            frame)
    matrix.

End SequenceDataSpec.

Section SequenceSpec.
Variables (REMOVE_TRACK_LOCATION REMOVE_TRACK_ROTATION : Z).

(** The [fcurves] attributes after the f-curves of a sequence have been
    created, for [n] PSA bones. *)
Definition sequence_fcurves (p2a : gmap nat nat) (flags : gmap nat Z)
    (n : nat) : list (option (list bool)) :=
  (λ s, match p2a !! s with
        | Some _ =>
            Some (new_fcurves REMOVE_TRACK_LOCATION REMOVE_TRACK_ROTATION
                    (default 0%Z (flags !! s)))
        | None => None
        end) <$> seq 0 n.

(** The [fcurves] attributes fit the mapping: a list for every mapped PSA
    bone, [None] at the placeholders. *)
Definition slots_fit (p2a : gmap nat nat) (n : nat)
    (fcurves : list (option (list bool))) : Prop :=
  length fcurves = n ∧
  ∀ s, s < n →
    match p2a !! s with
    | Some _ => ∃ slots, fcurves !! s = Some (Some slots)
    | None => fcurves !! s = Some None
    end.

(** The keyframes of the f-curves that exist, read off the columns of a
    matrix. *)
Definition sequence_written (times : list float)
    (matrix : list (list (list float))) (fcurves : list (option (list bool)))
    : list (nat * nat * list (float * float)) :=
  omap (λ bk : nat * nat,
          match matrix_column matrix bk.1 bk.2 with
          | Ok col => Some (bk, zip times col)
          | Raise _ => None
          end)
    (present_fcurves fcurves).

(** A sequence and its data matrix as the reader gives them for [n] PSA
    bones: a stored rate other than zero, [frame_count] frames, and in each
    frame a key of seven numbers for each PSA bone. *)
Definition well_formed_sequence (n : nat) (sequence : Sequence)
    (matrix : list (list (list float))) : Prop :=
  PrimFloat.eqb (sequence_fps sequence) 0 = false ∧
  length matrix = frame_count sequence ∧
  ∀ frame, frame ∈ matrix →
    n ≤ length frame ∧ ∀ key, key ∈ frame → length key = 7.

End SequenceSpec.

Section ExportDialogSpec.
Variable fnmatch : string → string → bool.

(** The action of the item belongs to an asset library. *)
Definition is_asset (item : ListItem) : bool :=
  match item_action item with
  | ActionSet has_asset_data => has_asset_data
  | _ => false
  end.

(** The item passes the filter of the list: its name contains the filter
    name, in the sense of [fnmatch], and it is no asset unless assets are
    shown; the inversion of the filter turns the answer round. *)
Definition shown (pg : PsaExportPropertyGroup) (item : ListItem) : bool :=
  xorb
    (fnmatch (item_name item) ("*" +:+ sequence_filter_name pg +:+ "*")
     && (sequence_filter_asset pg || negb (is_asset item)))
    (sequence_use_filter_invert pg).

(** The items of a list whose [action] pointer has to be followed can be:
    none is unset, or assets are shown and the pointer is not read. *)
Definition actions_readable (pg : PsaExportPropertyGroup)
    (l : list ListItem) : bool :=
  sequence_filter_asset pg
  || forallb (λ item, match item_action item with
                      | ActionUnset => false
                      | _ => true
                      end) l.

(** The positions of the items of [l] that are shown. *)
Definition shown_positions (pg : PsaExportPropertyGroup) (l : list ListItem)
    : list nat :=
  omap id (imap (λ i item, if shown pg item then Some i else None) l).

End ExportDialogSpec.

Section ExporterSpec.
Context `{PsaData}.

(** The records and the headers of a file, in the order they were
    written in. *)
Definition records (fp : list Written) : list Datum :=
  omap (λ w, match w with WDatum d => Some d | WSection _ => None end) fp.

Definition headers (fp : list Written) : list Section :=
  omap (λ w, match w with WSection s => Some s | WDatum _ => None end) fp.

End ExporterSpec.

(* ===================================================================== *)
(** * Part II: properties                                                 *)
(* ===================================================================== *)

(** ** The error monad, loops and list primitives *)

Lemma bind_Ok {A B} (m : Result A) (k : A → Result B) (b : B) :
  (m ≫= k) = Ok b ↔ ∃ a, m = Ok a ∧ k a = Ok b.
Proof.
  destruct m as [a|e]; simpl; split.
  - intros Hk. by exists a.
  - by intros (a' & [= <-] & Hk).
  - done.
  - by intros (a' & ? & _).
Qed.

Lemma list_get_Ok {A} (l : list A) i x : list_get l i = Ok x ↔ l !! i = Some x.
Proof. unfold list_get. destruct (l !! i); split; congruence. Qed.

Lemma for_enumerate_snoc {A St} (body : St → nat → A → Result St) l x :
  ∀ start st,
    for_enumerate body start (l ++ [x]) st =
    (for_enumerate body start l st ≫= λ st', body st' (start + length l) x).
Proof.
  induction l as [|y l IH]; intros start st; simpl.
  - rewrite Nat.add_0_r. by destruct (body st start x).
  - destruct (body st start y) as [st1|e]; simpl; [|done].
    rewrite IH. by rewrite Nat.add_succ_comm.
Qed.

Lemma for_enumerate_app {A St} (body : St → nat → A → Result St) l1 l2 :
  ∀ start st,
    for_enumerate body start (l1 ++ l2) st =
    (for_enumerate body start l1 st ≫=
       λ st', for_enumerate body (start + length l1) l2 st').
Proof.
  induction l1 as [|y l IH]; intros start st; simpl.
  - rewrite Nat.add_0_r. by destruct (for_enumerate body start l2 st).
  - destruct (body st start y) as [st1|e]; simpl; [|done].
    rewrite IH. by rewrite Nat.add_succ_comm.
Qed.

Lemma index_from_Ok x l : ∀ start i,
  index_from x start l = Ok i ↔
  ∃ k, i = start + k ∧ l !! k = Some x ∧ ∀ j, j < k → l !! j ≠ Some x.
Proof.
  induction l as [|y l IH]; intros start i; simpl.
  - split; [done|]. by intros (k & _ & ? & _).
  - destruct (decide (y = x)) as [->|Hne].
    + split.
      * intros [= <-]. exists 0. split_and!; [lia|done|lia].
      * intros (k & -> & Hk & Hmin). destruct k as [|k]; [f_equal; lia|].
        exfalso. apply (Hmin 0); [lia|done].
    + rewrite IH. split.
      * intros (k & -> & Hk & Hmin). exists (S k). split_and!; [lia|done|].
        intros [|j] Hj; simpl; [congruence|]. apply Hmin. lia.
      * intros (k & -> & Hk & Hmin). destruct k as [|k]; simpl in Hk; [congruence|].
        exists k. split_and!; [lia|done|].
        intros j Hj. apply (Hmin (S j)). lia.
Qed.

Lemma str_lt_trans a b c : str_lt a b → str_lt b c → str_lt a c.
Proof.
  unfold str_lt, String.ltb. intros Hab Hbc.
  destruct (String.compare a b) eqn:E1; try done.
  destruct (String.compare b c) eqn:E2; try done.
  apply String_as_OT.cmp_lt in E1, E2.
  pose proof (String_as_OT.lt_trans _ _ _ E1 E2) as E3.
  apply String_as_OT.cmp_lt in E3. unfold String_as_OT.cmp in E3. by rewrite E3.
Qed.

Lemma str_le_lt_eq a b : str_le a b ↔ str_lt a b ∨ a = b.
Proof.
  unfold str_le, str_lt, String.leb, String.ltb.
  destruct (String.compare a b) eqn:E.
  - apply String.compare_eq_iff in E. naive_solver.
  - naive_solver.
  - split; [done|]. intros [?| ->]; [done|].
    pose proof (String.compare_antisym b b) as Ha. rewrite E in Ha. done.
Qed.
#[global] Instance str_le_trans : Transitive str_le.
Proof.
  intros a b c Hab Hbc. apply str_le_lt_eq in Hab, Hbc. apply str_le_lt_eq.
  destruct Hab as [Hab| ->], Hbc as [Hbc| ->]; eauto using str_lt_trans.
Qed.

#[global] Instance str_le_total : Total str_le.
Proof. intros a b. apply String.leb_total. Qed.

Lemma str_lt_irrefl a : ¬ str_lt a a.
Proof.
  unfold str_lt, String.ltb. intros Hlt.
  pose proof (String.compare_antisym a a) as Ha.
  destruct (String.compare a a); done.
Qed.

Lemma StronglySorted_le_lt (l : list string) :
  NoDup l → StronglySorted str_le l → StronglySorted str_lt l.
Proof.
  induction 2 as [|x l Hs IH Hall]; [constructor|].
  apply NoDup_cons in H as [Hx Hnd]. constructor; [by apply IH|].
  apply Forall_forall. intros y Hy.
  rewrite Forall_forall in Hall. specialize (Hall y Hy).
  apply str_le_lt_eq in Hall as [?| ->]; [done|]. by destruct Hx.
Qed.

Lemma sorted_StronglySorted (s : gset string) : StronglySorted str_lt (sorted s).
Proof.
  unfold sorted. apply StronglySorted_le_lt.
  - rewrite merge_sort_Permutation. apply NoDup_elements.
  - apply (StronglySorted_merge_sort _).
Qed.

Lemma elem_of_sorted (s : gset string) x : x ∈ sorted s ↔ x ∈ s.
Proof. unfold sorted. rewrite merge_sort_Permutation. apply elem_of_elements. Qed.

Section BoneMapperFacts.
Context `{PyStr}.

Lemma get_index_from_Some name names mode : ∀ start i,
  _get_armature_bone_index_from name start names mode = Some i ↔
  ∃ k arm, i = start + k ∧ names !! k = Some arm ∧ name_matches mode arm name ∧
           ∀ j y, names !! j = Some y → j < k → ¬ name_matches mode y name.
Proof.
  unfold name_matches.
  induction names as [|y l IH]; intros start i; simpl.
  - split; [done|]. by intros (k & arm & _ & ? & _).
  - destruct (decide (mode = "CASE_INSENSITIVE")) as [Hm|Hm].
    + destruct (decide (str_lower y = str_lower name)) as [He|Hne].
      * split.
        -- intros [= <-]. exists 0, y. split_and!; [lia|done|done|lia].
        -- intros (k & arm & -> & Hk & Hmatch & Hmin).
           destruct k as [|k]; [f_equal; lia|].
           exfalso. apply (Hmin 0 y); [done|lia|done].
      * rewrite IH. split.
        -- intros (k & arm & -> & Hk & Hmatch & Hmin). exists (S k), arm.
           split_and!; [lia|done|done|].
           intros [|j] z Hz Hj; simpl in Hz; [congruence|]. eapply Hmin; [done|lia].
        -- intros (k & arm & -> & Hk & Hmatch & Hmin).
           destruct k as [|k]; simpl in Hk; [congruence|].
           exists k, arm. split_and!; [lia|done|done|].
           intros j z Hz Hj. apply (Hmin (S j) z); [done|lia].
    + destruct (decide (y = name)) as [He|Hne].
      * split.
        -- intros [= <-]. exists 0, y. split_and!; [lia|done|done|lia].
        -- intros (k & arm & -> & Hk & Hmatch & Hmin).
           destruct k as [|k]; [f_equal; lia|].
           exfalso. apply (Hmin 0 y); [done|lia|done].
      * rewrite IH. split.
        -- intros (k & arm & -> & Hk & Hmatch & Hmin). exists (S k), arm.
           split_and!; [lia|done|done|].
           intros [|j] z Hz Hj; simpl in Hz; [congruence|]. eapply Hmin; [done|lia].
        -- intros (k & arm & -> & Hk & Hmatch & Hmin).
           destruct k as [|k]; simpl in Hk; [congruence|].
           exists k, arm. split_and!; [lia|done|done|].
           intros j z Hz Hj. apply (Hmin (S j) z); [done|lia].
Qed.

Lemma get_index_Some name names mode i :
  _get_armature_bone_index_for_psa_bone name names mode = Some i ↔
  first_match mode names name i.
Proof.
  unfold _get_armature_bone_index_for_psa_bone, first_match.
  rewrite get_index_from_Some. split.
  - intros (k & arm & -> & ?). simpl. eauto.
  - intros (arm & ?). exists i, arm. done.
Qed.

Lemma get_index_from_None name names mode : ∀ start,
  _get_armature_bone_index_from name start names mode = None ↔
  ∀ y, y ∈ names → ¬ name_matches mode y name.
Proof.
  unfold name_matches.
  induction names as [|y l IH]; intros start; simpl.
  - split; [|done]. intros _ y Hy. by apply elem_of_nil in Hy.
  - destruct (decide (mode = "CASE_INSENSITIVE")) as [Hm|Hm].
    + destruct (decide (str_lower y = str_lower name)) as [He|Hne].
      * split; [done|]. intros Hall. destruct (Hall y); [left|done].
      * rewrite IH. split.
        -- intros Hall z [->|Hz]%elem_of_cons; [done|by apply Hall].
        -- intros Hall z Hz. apply Hall. by right.
    + destruct (decide (y = name)) as [He|Hne].
      * split; [done|]. intros Hall. destruct (Hall y); [left|done].
      * rewrite IH. split.
        -- intros Hall z [->|Hz]%elem_of_cons; [done|by apply Hall].
        -- intros Hall z Hz. apply Hall. by right.
Qed.

Lemma get_index_None name names mode :
  _get_armature_bone_index_for_psa_bone name names mode = None ↔
  ∀ y, y ∈ names → ¬ name_matches mode y name.
Proof. apply get_index_from_None. Qed.

Lemma name_matches_refl mode n : name_matches mode n n.
Proof. unfold name_matches. by case_decide. Qed.
End BoneMapperFacts.
Section ScanInvariant.
Context `{PyStr}.
Variables (arm : list string) (mode : string).

Local Abbreviation L n := (_get_armature_bone_index_for_psa_bone n arm mode).

Lemma accepts_lt l s t : accepts arm mode l s t → s < length l.
Proof. intros (n & Hn & _). by eapply lookup_lt_Some. Qed.

Lemma accepts_snoc l n s t :
  accepts arm mode (l ++ [n]) s t ↔ accepts arm mode l s t ∨ (s = length l ∧ L n = Some t).
Proof.
  unfold accepts. split.
  - intros (n' & Hn' & HL).
    apply lookup_app_Some in Hn' as [Hn'|[Hge Hn']]; [left; eauto|].
    apply list_lookup_singleton_Some in Hn' as [Hs ->].
    right. split; [lia|done].
  - intros [(n' & Hn' & HL)|[-> HL]].
    + exists n'. split; [|done]. by apply lookup_app_l_Some.
    + exists n. split; [|done]. by rewrite list_lookup_middle.
Qed.


Lemma earliest_snoc_old l n t s :
  earliest arm mode l t s → earliest arm mode (l ++ [n]) t s.
Proof.
  intros [Hacc Hmin]. split.
  - apply accepts_snoc. by left.
  - intros s' Hlt [Hacc'|[-> _]]%accepts_snoc; [by eapply Hmin|].
    apply accepts_lt in Hacc. lia.
Qed.

Lemma earliest_snoc_new l n t :
  (∀ s, ¬ accepts arm mode l s t) → L n = Some t → earliest arm mode (l ++ [n]) t (length l).
Proof.
  intros Hnone HL. split.
  - apply accepts_snoc. by right.
  - intros s' Hlt [Hacc'|[-> _]]%accepts_snoc; [by eapply Hnone|lia].
Qed.

Lemma get_index_lookup n t : L n = Some t → ∃ a, arm !! t = Some a.
Proof. intros (a & Ha & _)%get_index_Some. eauto. Qed.

Lemma scan_inv_empty : scan_inv arm mode [] empty_mapping.
Proof.
  split; simpl.
  - intros t s. by rewrite lookup_empty.
  - intros t _ s (n & Hn & _). done.
  - intros t s. by rewrite lookup_empty.
  - intros s i. rewrite lookup_empty. split; [done|].
    intros (t & n & Ht & _). by rewrite lookup_empty in Ht.
  - done.
  - intros s t m. rewrite elem_of_nil, lookup_empty. naive_solver.
Qed.

Lemma scan_inv_step l st n st' :
  scan_inv arm mode l st →
  map_psa_bone arm mode st (length l) n = Ok st' →
  scan_inv arm mode (l ++ [n]) st'.
Proof.
  intros [HaS HaN Hc Hp Hnm Hd]. unfold map_psa_bone.
  destruct (L n) as [t0|] eqn:HL.
  - destruct (get_index_lookup _ _ HL) as [a0 Ha0].
    destruct (armature_to_psa_bone_indices st !! t0) as [m0|] eqn:Hclaim.
    + (* the target is already claimed: a duplicate *)
      simpl. unfold list_get. rewrite Ha0. simpl. intros [= <-].
      split; simpl.
      * intros t s Hts. apply earliest_snoc_old. by apply HaS.
      * intros t Ht s [Hacc|[-> HL']]%accepts_snoc; [by eapply HaN|].
        congruence.
      * done.
      * intros s i. rewrite Hp. split.
        -- intros (t & n' & Ht & Hn' & Hi). exists t, n'. split_and!; try done.
           by apply lookup_app_l_Some.
        -- intros (t & n' & Ht & Hn' & Hi). exists t, n'. split_and!; try done.
           apply HaS in Ht as [Hacc%accepts_lt _].
           by rewrite lookup_app_l in Hn'.
      * rewrite Hnm, fmap_app. simpl. do 2 f_equal.
        unfold mapped_name. by rewrite HL, Ha0.
      * intros s t m. rewrite elem_of_app, Hd, list_elem_of_singleton, accepts_snoc.
        split.
        -- intros [(Hacc & Ht & Hm)|[= -> -> ->]]; [by eauto|].
           split_and!; [by right|done|].
           apply HaS in Hclaim as [Hacc%accepts_lt _]. done.
        -- intros ([Hacc|[-> HL']] & Ht & Hm); [by left|].
           right. congruence.
    + (* first claim of the target *)
      destruct (list_index arm n) as [i0|e] eqn:Hidx; simpl; [|done].
      unfold list_get. rewrite Ha0. simpl. intros [= <-].
      split; simpl.
      * intros t s. rewrite lookup_insert. case_decide as Ht.
        -- subst t. intros [= <-]. apply earliest_snoc_new; [|done].
           by apply HaN.
        -- intros Hts. apply earliest_snoc_old. by apply HaS.
      * intros t. rewrite lookup_insert. case_decide as Ht; [done|].
        intros Hnone s [Hacc|[-> HL']]%accepts_snoc; [by eapply HaN|].
        congruence.
      * intros t s. rewrite !lookup_insert.
        case_decide as Ht; [intros [= <-]; by rewrite decide_True|].
        intros Hts. case_decide; [done|by eapply Hc].
      * intros s i. rewrite lookup_insert. case_decide as Hs.
        -- subst s. split.
           ++ intros [= <-]. exists t0, n. rewrite lookup_insert_eq.
              split_and!; [done| |done]. by rewrite list_lookup_middle.
           ++ intros (t & n' & Ht & Hn' & Hi).
              rewrite list_lookup_middle in Hn' by done. congruence.
        -- rewrite Hp. split.
           ++ intros (t & n' & Ht & Hn' & Hi). exists t, n'.
              split_and!; [|by apply lookup_app_l_Some|done].
              rewrite lookup_insert_ne; [done|]. congruence.
           ++ intros (t & n' & Ht & Hn' & Hi).
              rewrite lookup_insert in Ht. case_decide; [congruence|].
              exists t, n'. split_and!; try done.
              apply HaS in Ht as [Hacc%accepts_lt _].
              by rewrite lookup_app_l in Hn'.
      * rewrite Hnm, fmap_app. simpl. do 2 f_equal.
        unfold mapped_name. by rewrite HL, Ha0.
      * intros s t m. rewrite Hd, accepts_snoc, lookup_insert. split.
        -- intros (Hacc & Ht & Hm). case_decide; [congruence|]. eauto.
        -- case_decide as Ht.
           ++ subst t. intros ([Hacc|[-> _]] & [= <-] & Hm).
              ** by apply HaN in Hacc.
              ** lia.
           ++ intros ([Hacc|[-> HL']] & Hm & Hlt); [done|congruence].
  - (* no target matches *)
    intros [= <-]. split; simpl.
    + intros t s Hts. apply earliest_snoc_old. by apply HaS.
    + intros t Ht s [Hacc|[-> HL']]%accepts_snoc; [by eapply HaN|].
      congruence.
    + done.
    + intros s i. rewrite Hp. split.
      * intros (t & n' & Ht & Hn' & Hi). exists t, n'. split_and!; try done.
        by apply lookup_app_l_Some.
      * intros (t & n' & Ht & Hn' & Hi). exists t, n'. split_and!; try done.
        apply HaS in Ht as [Hacc%accepts_lt _].
        by rewrite lookup_app_l in Hn'.
    + rewrite Hnm, fmap_app. simpl. do 2 f_equal.
      unfold mapped_name. by rewrite HL.
    + intros s t m. rewrite Hd, accepts_snoc. split; [naive_solver|].
      intros ([Hacc|[-> HL']] & Hm & Hlt); [done|congruence].
Qed.

Lemma map_psa_bones_snoc l n st' :
  map_psa_bones arm mode (l ++ [n]) = Ok st' ↔
  ∃ st, map_psa_bones arm mode l = Ok st ∧
        map_psa_bone arm mode st (length l) n = Ok st'.
Proof. unfold map_psa_bones. by rewrite for_enumerate_snoc, bind_Ok. Qed.

Lemma map_psa_bones_inv l : ∀ st,
  map_psa_bones arm mode l = Ok st → scan_inv arm mode l st.
Proof.
  induction l as [|n l IH] using rev_ind; intros st.
  - intros [= <-]. apply scan_inv_empty.
  - intros (st0 & Hst0 & Hstep)%map_psa_bones_snoc.
    eapply scan_inv_step; eauto.
Qed.
End ScanInvariant.
Section AsciiTransfer.
Context `{PyStr}.

Lemma get_index_from_ascii name names mode : ∀ start,
  is_ascii name = true → Forall (λ y, is_ascii y = true) names →
  _get_armature_bone_index_from name start names mode =
  _get_armature_bone_index_from (H := ascii_PyStr) name start names mode.
Proof.
  intros start Hn Hall. revert start.
  induction Hall as [|y l Hy Hl IH]; intros start; simpl; [done|].
  rewrite !str_lower_ascii by done. by rewrite IH.
Qed.

Lemma map_psa_bone_ascii arm mode st s n :
  is_ascii n = true → Forall (λ y, is_ascii y = true) arm →
  map_psa_bone arm mode st s n = map_psa_bone (H := ascii_PyStr) arm mode st s n.
Proof.
  intros Hn Harm. unfold map_psa_bone, _get_armature_bone_index_for_psa_bone.
  by rewrite get_index_from_ascii.
Qed.

Lemma map_psa_bones_ascii arm mode l :
  Forall (λ y, is_ascii y = true) l → Forall (λ y, is_ascii y = true) arm →
  map_psa_bones arm mode l = map_psa_bones (H := ascii_PyStr) arm mode l.
Proof.
  intros Hl Harm. unfold map_psa_bones. generalize empty_mapping, 0.
  induction Hl as [|n l Hn Hl IH]; intros st start; simpl; [done|].
  rewrite map_psa_bone_ascii by done.
  destruct (map_psa_bone _ _ _ _ _); simpl; [apply IH|done].
Qed.

Lemma bone_mapper_ascii armname arm mode l :
  Forall (λ y, is_ascii y = true) l → Forall (λ y, is_ascii y = true) arm →
  bone_mapper armname arm mode l = bone_mapper (H := ascii_PyStr) armname arm mode l.
Proof. intros Hl Harm. unfold bone_mapper. by rewrite map_psa_bones_ascii. Qed.
End AsciiTransfer.

Ltac ascii_names := repeat (constructor; [reflexivity|]); constructor.

Section MapperClaims.
Context `{PyStr}.

Lemma list_index_Ok (l : list string) x i :
  list_index l x = Ok i ↔ l !! i = Some x ∧ ∀ j, j < i → l !! j ≠ Some x.
Proof.
  unfold list_index. rewrite index_from_Ok. split.
  - intros (k & -> & ?). done.
  - intros ?. by exists i.
Qed.

Lemma list_index_elem_of (l : list string) x :
  x ∈ l → ∃ i, list_index l x = Ok i.
Proof.
  unfold list_index. generalize 0.
  induction l as [|y l IH]; intros start Hx; [by apply elem_of_nil in Hx|].
  simpl. case_decide as Hy; [eauto|].
  apply elem_of_cons in Hx as [->|Hx]; [done|]. by apply IH.
Qed.

Lemma first_match_exact mode names name i :
  mode ≠ "CASE_INSENSITIVE" →
  first_match mode names name i ↔
  names !! i = Some name ∧ ∀ j, j < i → names !! j ≠ Some name.
Proof.
  intros Hmode. unfold first_match, name_matches.
  destruct (decide (mode = "CASE_INSENSITIVE")) as [|_]; [done|]. split.
  - intros (arm & Harm & -> & Hmin). split; [done|].
    intros j Hj Hjn. by eapply Hmin.
  - intros [Hi Hmin]. exists name. split_and!; [done..|].
    intros j y Hy Hj ->. by eapply Hmin.
Qed.

(** [C10] For every [bone_mapping_mode] other than ['CASE_INSENSITIVE'],
    whether it is ['EXACT'] or a string the importer does not know,
    [_get_armature_bone_index_for_psa_bone] compares names for equality: it
    behaves as under ['EXACT'], returns the first position whose name equals
    the PSA name, and returns [None] exactly when no armature name equals
    it. The function has no raising path at all: its result is a position
    or [None]. *)
Theorem unknown_mode_compares_exactly mode name (names : list string) :
  mode ≠ "CASE_INSENSITIVE" →
  _get_armature_bone_index_for_psa_bone name names mode =
    _get_armature_bone_index_for_psa_bone name names "EXACT"
  ∧ (∀ i, _get_armature_bone_index_for_psa_bone name names mode = Some i ↔
          names !! i = Some name ∧ ∀ j, j < i → names !! j ≠ Some name)
  ∧ (_get_armature_bone_index_for_psa_bone name names mode = None ↔
       name ∉ names).
Proof.
  intros Hmode.
  assert (Hsome : ∀ m i, m ≠ "CASE_INSENSITIVE" →
    _get_armature_bone_index_for_psa_bone name names m = Some i ↔
    names !! i = Some name ∧ ∀ j, j < i → names !! j ≠ Some name).
  { intros m i Hm. by rewrite get_index_Some, first_match_exact. }
  split_and!.
  - destruct (_get_armature_bone_index_for_psa_bone name names "EXACT")
      as [i|] eqn:Hex.
    + apply Hsome; [done|]. by apply Hsome in Hex.
    + destruct (_get_armature_bone_index_for_psa_bone name names mode)
        as [i|] eqn:Hm; [|done].
      apply Hsome in Hm; [|done].
      apply (Hsome "EXACT" i) in Hm; [congruence|done].
  - intros i. by apply Hsome.
  - rewrite get_index_None. unfold name_matches.
    destruct (decide (mode = "CASE_INSENSITIVE")) as [|_]; [done|].
    split.
    + intros Hall Hin. by eapply Hall.
    + intros Hnot y Hy ->. done.
Qed.
End MapperClaims.

Lemma unknown_mode_compares_exactly_witness :
  "FUZZY" ≠ "CASE_INSENSITIVE" ∧
  _get_armature_bone_index_for_psa_bone "Spine" ["Pelvis"; "spine"; "Spine"]
    "FUZZY" = Some 2 ∧
  _get_armature_bone_index_for_psa_bone "SPINE" ["Pelvis"; "spine"; "Spine"]
    "FUZZY" = None.
Proof.
  assert (Hm : "FUZZY" ≠ "CASE_INSENSITIVE") by discriminate.
  destruct (unknown_mode_compares_exactly "FUZZY" "Spine"
              ["Pelvis"; "spine"; "Spine"] Hm) as (_ & Hsome & _).
  destruct (unknown_mode_compares_exactly "FUZZY" "SPINE"
              ["Pelvis"; "spine"; "Spine"] Hm) as (_ & _ & Hnone).
  split_and!; [done| |].
  - apply Hsome. split; [reflexivity|].
    intros [|[|j]] Hj; simpl; [discriminate..|lia].
  - apply Hnone. intros Hin. set_solver.
Defined.
Section MapperClaims2.
Context `{PyStr}.
Implicit Types (arm psa_names scanned rest : list string) (mode : string).

Lemma earliest_unique arm mode l t s s' :
  earliest arm mode l t s → earliest arm mode l t s' → s = s'.
Proof.
  intros [Ha Hmin] [Ha' Hmin'].
  destruct (Nat.lt_trichotomy s s') as [Hlt|[->|Hlt]]; [|done|].
  - by destruct (Hmin' s Hlt).
  - by destruct (Hmin s' Hlt).
Qed.

Lemma scan_inv_a2p arm mode l st t s :
  scan_inv arm mode l st →
  armature_to_psa_bone_indices st !! t = Some s ↔ earliest arm mode l t s.
Proof.
  intros Hinv. split; [apply Hinv|]. intros He.
  destruct (armature_to_psa_bone_indices st !! t) as [s'|] eqn:Ht.
  - f_equal. eapply earliest_unique; [|done]. by apply Hinv.
  - destruct He as [Hacc _]. by eapply (inv_a2p_None _ _ _ _ Hinv) in Hacc.
Qed.

Lemma scan_inv_injective arm mode l st s s' i :
  scan_inv arm mode l st →
  psa_to_armature_bone_indices st !! s = Some i →
  psa_to_armature_bone_indices st !! s' = Some i → s = s'.
Proof.
  intros Hinv (t & n & Ht & Hn & Hi)%(inv_p2a _ _ _ _ Hinv)
    (t' & n' & Ht' & Hn' & Hi')%(inv_p2a _ _ _ _ Hinv).
  apply list_index_Ok in Hi as [Hi _], Hi' as [Hi' _].
  assert (n = n') as <- by congruence.
  pose proof (inv_a2p_Some _ _ _ _ Hinv _ _ Ht) as [(m & Hm & HL) _].
  pose proof (inv_a2p_Some _ _ _ _ Hinv _ _ Ht') as [(m' & Hm' & HL') _].
  assert (t = t') as <- by congruence. congruence.
Qed.

Lemma map_psa_bone_extends arm mode l st n st' :
  scan_inv arm mode l st →
  map_psa_bone arm mode st (length l) n = Ok st' →
  armature_to_psa_bone_indices st ⊆ armature_to_psa_bone_indices st' ∧
  psa_to_armature_bone_indices st ⊆ psa_to_armature_bone_indices st' ∧
  duplicate_mappings st `prefix_of` duplicate_mappings st'.
Proof.
  intros Hinv. unfold map_psa_bone.
  destruct (_get_armature_bone_index_for_psa_bone n arm mode) as [t0|] eqn:HL.
  - destruct (get_index_lookup _ _ _ _ HL) as [a0 Ha0].
    unfold list_get. rewrite Ha0.
    destruct (armature_to_psa_bone_indices st !! t0) as [m0|] eqn:Hclaim.
    + simpl. intros [= <-]. simpl. split_and!; [done..|]. by apply prefix_app_r.
    + destruct (list_index arm n) as [i0|e]; simpl; [|done].
      intros [= <-]. simpl. split_and!; [| |done].
      * by apply insert_subseteq.
      * apply insert_subseteq.
        destruct (psa_to_armature_bone_indices st !! length l) as [i|] eqn:Hi;
          [|done].
        apply (inv_p2a _ _ _ _ Hinv) in Hi as (t & n' & _ & Hn' & _).
        apply lookup_lt_Some in Hn'. lia.
  - intros [= <-]. done.
Qed.

Lemma map_psa_bones_extends arm mode scanned rest : ∀ st st',
  map_psa_bones arm mode scanned = Ok st →
  map_psa_bones arm mode (scanned ++ rest) = Ok st' →
  armature_to_psa_bone_indices st ⊆ armature_to_psa_bone_indices st' ∧
  psa_to_armature_bone_indices st ⊆ psa_to_armature_bone_indices st' ∧
  duplicate_mappings st `prefix_of` duplicate_mappings st'.
Proof.
  induction rest as [|n rest IH] using rev_ind; intros st st' Hst.
  - rewrite app_nil_r, Hst. by intros [= <-].
  - rewrite app_assoc. intros (st1 & Hst1 & Hstep)%map_psa_bones_snoc.
    destruct (IH _ _ Hst Hst1) as (Ha & Hp & Hd).
    apply map_psa_bones_inv in Hst1.
    destruct (map_psa_bone_extends _ _ _ _ _ _ Hst1 Hstep) as (Ha' & Hp' & Hd').
    split_and!; by etrans.
Qed.

Lemma example_mapping :
  ∃ st ws,
    bone_mapper "Armature" ["Pelvis"; "Spine"] "CASE_INSENSITIVE"
      ["Pelvis"; "Spine"; "spine"] = Ok (st, ws) ∧
    psa_to_armature_bone_indices st !! 1 = Some 1 ∧
    psa_to_armature_bone_indices st !! 2 = None ∧
    duplicate_mappings st = [(2, 1, 1)] ∧
    ws = [DuplicateMapping 2 "Spine" 1 "Spine" 1 "Spine"] ∧
    missing_bone_names ["Pelvis"; "Spine"] st = ∅.
Proof.
  rewrite bone_mapper_ascii by ascii_names.
  eexists _, _. split; [vm_compute; reflexivity|].
  split_and!; reflexivity.
Qed.

(** [C4] At every point of the bone-mapping scan (after any prefix
    [scanned] of the PSA bones has been processed), each claimed target
    index is claimed by exactly the lowest source index accepted for it, no
    two source bones are mapped to the same target index, the mapped source
    bones are exactly the claimants, and the recorded duplicates are exactly
    the triples (later source index, target index, earlier claimant). The
    rest of the scan only extends the two dictionaries and the duplicate
    list: no claim is overwritten. On the source names Pelvis, Spine, spine
    and target names Pelvis, Spine under CASE_INSENSITIVE, Spine maps to
    target index 1 and spine gives the duplicate (2, 1, 1), whose prior
    claimant is the source index 1. *)
Theorem earliest_source_claims_target arm mode scanned rest st :
  map_psa_bones arm mode scanned = Ok st →
  (∀ t s, armature_to_psa_bone_indices st !! t = Some s ↔
          earliest arm mode scanned t s)
  ∧ (∀ s s' i, psa_to_armature_bone_indices st !! s = Some i →
               psa_to_armature_bone_indices st !! s' = Some i → s = s')
  ∧ (∀ s, is_Some (psa_to_armature_bone_indices st !! s) ↔
          ∃ t, armature_to_psa_bone_indices st !! t = Some s)
  ∧ (∀ s t m, (s, t, m) ∈ duplicate_mappings st ↔
              accepts arm mode scanned s t ∧
              earliest arm mode scanned t m ∧ m < s)
  ∧ (∀ st', map_psa_bones arm mode (scanned ++ rest) = Ok st' →
            armature_to_psa_bone_indices st ⊆ armature_to_psa_bone_indices st' ∧
            psa_to_armature_bone_indices st ⊆ psa_to_armature_bone_indices st' ∧
            duplicate_mappings st `prefix_of` duplicate_mappings st')
  ∧ (∃ st1 ws,
       bone_mapper "Armature" ["Pelvis"; "Spine"] "CASE_INSENSITIVE"
         ["Pelvis"; "Spine"; "spine"] = Ok (st1, ws) ∧
       psa_to_armature_bone_indices st1 !! 1 = Some 1 ∧
       psa_to_armature_bone_indices st1 !! 2 = None ∧
       duplicate_mappings st1 = [(2, 1, 1)] ∧
       ws = [DuplicateMapping 2 "Spine" 1 "Spine" 1 "Spine"] ∧
       missing_bone_names ["Pelvis"; "Spine"] st1 = ∅).
Proof.
  intros Hst. pose proof (map_psa_bones_inv _ _ _ _ Hst) as Hinv.
  split_and!.
  - intros t s. by apply scan_inv_a2p.
  - intros s s' i. by apply (scan_inv_injective _ _ _ _ _ _ _ Hinv).
  - intros s. split.
    + intros [i (t & n & Ht & _)%(inv_p2a _ _ _ _ Hinv)]. eauto.
    + intros [t Ht]. by eapply (inv_claimant _ _ _ _ Hinv).
  - intros s t m. rewrite (inv_dups _ _ _ _ Hinv).
    by rewrite (scan_inv_a2p _ _ _ _ _ _ Hinv).
  - intros st'. by apply map_psa_bones_extends.
  - apply example_mapping.
Qed.

(** [C3] (the code departs from the claim here) When a PSA bone is the
    first to be accepted for a target index, line 101 does not record the
    index that the lookup accepted: it records
    [armature_bone_names.index(psa_bone_name)], an exact search. Under
    CASE_INSENSITIVE, the PSA name spine is accepted for the target Spine at
    index 0, and the scan raises ValueError instead of recording 0; against
    the targets SPINE, spine the lookup accepts index 0 and the scan records
    index 1. *)
Theorem first_claim_records_exact_index :
  (_get_armature_bone_index_for_psa_bone "spine" ["Spine"]
     "CASE_INSENSITIVE" = Some 0
   ∧ map_psa_bones ["Spine"] "CASE_INSENSITIVE" ["spine"] =
       Raise (ValueError "is not in list"))
  ∧ (_get_armature_bone_index_for_psa_bone "spine" ["SPINE"; "spine"]
       "CASE_INSENSITIVE" = Some 0
     ∧ ∃ st, map_psa_bones ["SPINE"; "spine"] "CASE_INSENSITIVE" ["spine"]
               = Ok st
             ∧ armature_to_psa_bone_indices st !! 0 = Some 0
             ∧ psa_to_armature_bone_indices st !! 0 = Some 1).
Proof.
  unfold _get_armature_bone_index_for_psa_bone.
  split_and!.
  - by rewrite get_index_from_ascii by ascii_names.
  - by rewrite map_psa_bones_ascii by ascii_names.
  - by rewrite get_index_from_ascii by ascii_names.
  - rewrite map_psa_bones_ascii by ascii_names.
    eexists. split; [vm_compute; reflexivity|]. split; reflexivity.
Qed.

(** What line 101 records, in general: the first position of the armature
    names holding exactly the PSA name. It is the accepted index whenever
    the mode compares names for equality. *)
Lemma recorded_index_is_exact_index arm mode psa_names st s i :
  map_psa_bones arm mode psa_names = Ok st →
  psa_to_armature_bone_indices st !! s = Some i →
  ∃ n, psa_names !! s = Some n ∧ list_index arm n = Ok i.
Proof.
  intros Hinv%map_psa_bones_inv (t & n & _ & Hn & Hi)%(inv_p2a _ _ _ _ Hinv).
  eauto.
Qed.

Lemma recorded_index_exact_mode arm mode psa_names st s i :
  mode ≠ "CASE_INSENSITIVE" →
  map_psa_bones arm mode psa_names = Ok st →
  psa_to_armature_bone_indices st !! s = Some i →
  accepts arm mode psa_names s i.
Proof.
  intros Hmode Hst Hi.
  destruct (recorded_index_is_exact_index _ _ _ _ _ _ Hst Hi) as (n & Hn & Hidx).
  exists n. split; [done|].
  apply get_index_Some, first_match_exact; [done|]. by apply list_index_Ok.
Qed.
End MapperClaims2.
Section MissingBones.
Context `{PyStr}.
Implicit Types (arm psa_names : list string) (mode : string).

Lemma for_enumerate_succeeds {A St} (body : St → nat → A → Result St) l :
  (∀ st i x, x ∈ l → succeeds (body st i x)) →
  ∀ start st, succeeds (for_enumerate body start l st).
Proof.
  induction l as [|x l IH]; intros Hbody start st; simpl; [by eexists|].
  destruct (Hbody st start x) as [st1 ->]; [left|]. simpl.
  apply IH. intros st2 i y Hy. apply Hbody. by right.
Qed.

(** A bone that ends in a warning never stops the scan. *)
Lemma map_psa_bone_warning_succeeds arm mode st s n :
  (_get_armature_bone_index_for_psa_bone n arm mode = None
   ∨ ∃ t m, _get_armature_bone_index_for_psa_bone n arm mode = Some t
            ∧ armature_to_psa_bone_indices st !! t = Some m) →
  succeeds (map_psa_bone arm mode st s n).
Proof.
  unfold map_psa_bone. intros [->|(t & m & HL & Hm)]; [by eexists|].
  rewrite HL, Hm. destruct (get_index_lookup _ _ _ _ HL) as [a0 Ha0].
  unfold list_get. rewrite Ha0. by eexists.
Qed.

Lemma map_psa_bone_exact_succeeds arm mode st s n :
  mode ≠ "CASE_INSENSITIVE" → succeeds (map_psa_bone arm mode st s n).
Proof.
  intros Hmode.
  destruct (_get_armature_bone_index_for_psa_bone n arm mode) as [t|] eqn:HL.
  - destruct (armature_to_psa_bone_indices st !! t) as [m|] eqn:Hm.
    + apply map_psa_bone_warning_succeeds. right. eauto.
    + unfold map_psa_bone. rewrite HL, Hm.
      pose proof HL as [Hn _]%get_index_Some%first_match_exact; [|done].
      destruct (list_index_elem_of arm n) as [i ->].
      { by eapply list_elem_of_lookup_2. }
      unfold list_get. rewrite Hn. by eexists.
  - apply map_psa_bone_warning_succeeds. by left.
Qed.

Lemma duplicate_warnings_succeed arm st (ds : list (nat * nat * nat)) :
  (∀ s t m, (s, t, m) ∈ ds →
            s < length (psa_bone_names st) ∧ t < length arm ∧
            m < length (psa_bone_names st)) →
  ∃ ws, duplicate_warnings arm st ds = Ok ws ∧
        Forall2 (λ d w, ∃ n a n', w = DuplicateMapping d.1.1 n d.1.2 a d.2 n')
                ds ws.
Proof.
  induction ds as [|[[s t] m] ds IH]; intros Hvalid; simpl.
  - exists []. split; [done|constructor].
  - destruct (Hvalid s t m) as (Hs & Ht & Hm); [left|].
    apply lookup_lt_is_Some in Hs as [n Hn], Ht as [a Ha], Hm as [n' Hn'].
    unfold list_get. rewrite Hn, Ha, Hn'. simpl.
    destruct IH as (ws & -> & Hws).
    { intros s' t' m' Hin. apply Hvalid. by right. }
    simpl. eexists. split; [done|]. constructor; [|done]. simpl. eauto.
Qed.

Lemma scan_inv_missing arm mode l st x :
  scan_inv arm mode l st →
  x ∈ missing_bone_names arm st ↔
  x ∈ l ∧ ∀ y, y ∈ arm → ¬ name_matches mode y x.
Proof.
  intros Hinv. unfold missing_bone_names.
  rewrite elem_of_difference, !elem_of_list_to_set, (inv_names _ _ _ _ Hinv).
  rewrite list_elem_of_fmap. split.
  - intros [(n & -> & Hn) Hnot]. unfold mapped_name in *.
    destruct (_get_armature_bone_index_for_psa_bone n arm mode) as [t|] eqn:HL.
    + destruct (get_index_lookup _ _ _ _ HL) as [a0 Ha0].
      rewrite Ha0 in Hnot. simpl in Hnot.
      destruct Hnot. by eapply list_elem_of_lookup_2.
    + split; [done|]. by apply get_index_None.
  - intros [Hx Hnone]. split.
    + exists x. split; [|done]. unfold mapped_name.
      by apply get_index_None in Hnone as ->.
    + intros Hin. eapply Hnone; [done|]. apply name_matches_refl.
Qed.

(** [C5] Once the scan is over, the missing-bone set holds exactly the PSA
    names that no armature name matches under the mode. A single
    missing-bones warning is appended after the duplicate warnings (one per
    recorded duplicate) when that set is not empty, and none otherwise; it
    lists the set in strictly increasing order, hence without repetition. No
    armature bone name is ever listed. Warnings are not fatal: a PSA bone
    that no target matches, or whose target is already claimed, never stops
    the scan, the warning phase raises nothing, and under any mode that
    compares names for equality the mapper always returns its result. *)
Theorem missing_bones_warning armname arm mode psa_names st :
  map_psa_bones arm mode psa_names = Ok st →
  let missing := missing_bone_names arm st in
  (∀ x, x ∈ missing ↔
        x ∈ psa_names ∧ ∀ y, y ∈ arm → ¬ name_matches mode y x)
  ∧ (∃ dup_ws,
       bone_mapper armname arm mode psa_names =
         Ok (st, dup_ws ++
                 if decide (0 < size missing)
                 then [MissingBones armname (size missing) (sorted missing)]
                 else [])
       ∧ Forall2
           (λ d w, ∃ n a n', w = DuplicateMapping d.1.1 n d.1.2 a d.2 n')
           (duplicate_mappings st) dup_ws)
  ∧ StronglySorted str_lt (sorted missing)
  ∧ (∀ x, x ∈ sorted missing ↔ x ∈ missing)
  ∧ length (sorted missing) = size missing
  ∧ (∀ x, x ∈ arm → x ∉ sorted missing)
  ∧ (∀ st0 s n,
       (_get_armature_bone_index_for_psa_bone n arm mode = None
        ∨ ∃ t m, _get_armature_bone_index_for_psa_bone n arm mode = Some t
                 ∧ armature_to_psa_bone_indices st0 !! t = Some m) →
       succeeds (map_psa_bone arm mode st0 s n))
  ∧ (mode ≠ "CASE_INSENSITIVE" →
     ∀ names, succeeds (bone_mapper armname arm mode names)).
Proof.
  intros Hst missing. pose proof (map_psa_bones_inv _ _ _ _ Hst) as Hinv.
  assert (Hdups : ∃ ws, duplicate_warnings arm st (duplicate_mappings st) = Ok ws ∧
            Forall2 (λ d w, ∃ n a n', w = DuplicateMapping d.1.1 n d.1.2 a d.2 n')
              (duplicate_mappings st) ws).
  { apply duplicate_warnings_succeed. intros s t m Hin.
    apply (inv_dups _ _ _ _ Hinv) in Hin as (Hacc & Ht & Hm).
    rewrite (inv_names _ _ _ _ Hinv), length_fmap.
    pose proof (accepts_lt _ _ _ _ _ Hacc) as Hs.
    destruct Hacc as (n & _ & HL).
    destruct (get_index_lookup _ _ _ _ HL) as [a0 Ha0%lookup_lt_Some].
    lia. }
  split_and!.
  - intros x. by apply scan_inv_missing.
  - destruct Hdups as (ws & Hws & Hall). exists ws. split; [|done].
    unfold bone_mapper. rewrite Hst. simpl. rewrite Hws. done.
  - apply sorted_StronglySorted.
  - intros x. apply elem_of_sorted.
  - unfold sorted. by rewrite merge_sort_Permutation.
  - intros x Hx. rewrite elem_of_sorted. unfold missing, missing_bone_names.
    rewrite elem_of_difference, !elem_of_list_to_set. tauto.
  - intros st0 s n. apply map_psa_bone_warning_succeeds.
  - intros Hmode names. unfold bone_mapper.
    destruct (for_enumerate_succeeds (map_psa_bone arm mode) names
                (λ st0 i x _, map_psa_bone_exact_succeeds arm mode st0 i x Hmode)
                0 empty_mapping) as [st1 Hst1].
    unfold map_psa_bones. rewrite Hst1. simpl.
    pose proof (map_psa_bones_inv _ _ _ _ Hst1) as Hinv1.
    destruct (duplicate_warnings_succeed arm st1 (duplicate_mappings st1))
      as (ws & -> & _); [|by eexists].
    intros s t m Hin.
    apply (inv_dups _ _ _ _ Hinv1) in Hin as (Hacc & Ht & Hm).
    rewrite (inv_names _ _ _ _ Hinv1), length_fmap.
    pose proof (accepts_lt _ _ _ _ _ Hacc) as Hs.
    destruct Hacc as (n & _ & HL).
    destruct (get_index_lookup _ _ _ _ HL) as [a0 Ha0%lookup_lt_Some].
    lia.
Qed.
End MissingBones.

Lemma earliest_source_claims_target_witness :
  let arm := ["Pelvis"; "Spine"] in
  let scanned := ["Pelvis"; "Spine"; "spine"] in
  let st := mkBoneMapping (<[1:=1]> (<[0:=0]> ∅)) (<[1:=1]> (<[0:=0]> ∅))
              ["Pelvis"; "Spine"; "Spine"] [(2, 1, 1)] in
  map_psa_bones arm "CASE_INSENSITIVE" scanned = Ok st
  ∧ earliest arm "CASE_INSENSITIVE" scanned 1 1
  ∧ accepts arm "CASE_INSENSITIVE" scanned 2 1.
Proof.
  intros arm scanned st.
  assert (Hst : map_psa_bones arm "CASE_INSENSITIVE" scanned = Ok st)
    by (vm_compute; reflexivity).
  destruct (earliest_source_claims_target arm "CASE_INSENSITIVE" scanned [] st Hst)
    as (Hclaim & _ & _ & Hdup & _).
  split_and!; [done| |].
  - apply Hclaim. reflexivity.
  - apply (Hdup 2 1 1). left.
Defined.

Lemma missing_bones_warning_witness :
  let arm := ["Pelvis"; "Spine"] in
  let psa_names := ["zeta"; "Pelvis"; "Spine"; "spine"; "alpha"; "zeta"] in
  let st := mkBoneMapping (<[2:=1]> (<[1:=0]> ∅)) (<[1:=2]> (<[0:=1]> ∅))
              psa_names [] in
  map_psa_bones arm "EXACT" psa_names = Ok st
  ∧ bone_mapper "Armature" arm "EXACT" psa_names =
      Ok (st, [MissingBones "Armature" 3 ["alpha"; "spine"; "zeta"]])
  ∧ ∀ x, x ∈ ["alpha"; "spine"; "zeta"] ↔
         x ∈ psa_names ∧ ∀ y, y ∈ arm → ¬ name_matches "EXACT" y x.
Proof.
  intros arm psa_names st.
  assert (Hst : map_psa_bones arm "EXACT" psa_names = Ok st)
    by (vm_compute; reflexivity).
  destruct (missing_bones_warning "Armature" arm "EXACT" psa_names st Hst)
    as (Hmissing & (ws & Hmapper & Hws) & _ & Hsorted & _).
  apply Forall2_nil_inv_l in Hws as ->.
  split_and!; [done|exact Hmapper|].
  intros x. rewrite <- Hmissing, <- Hsorted. reflexivity.
Defined.

(** ** The store, the bind pose and the ImportBones *)

Section StoreRules.
Context {F : Type} `{Mathutils F}.

Lemma runs_bind {A B} (m : Py A) (k : A → Py B) h Q :
  runs m h (λ a h', runs (k a) h' Q) → runs (m ≫= k) h Q.
Proof.
  intros (a & h' & Hm & b & h'' & Hk & HQ). exists b, h''. split; [|done].
  unfold mbind, Py_bind. by rewrite Hm.
Qed.

Lemma runs_ret {A} (a : A) h (Q : A → list Obj → Prop) : Q a h → runs (mret a) h Q.
Proof. intros HQ. by exists a, h. Qed.

Lemma runs_mono {A} (m : Py A) h (Q Q' : A → list Obj → Prop) :
  runs m h Q → (∀ a h', Q a h' → Q' a h') → runs m h Q'.
Proof. intros (a & h' & Hm & HQ) HQQ. exists a, h'. eauto. Qed.

Lemma runs_new_obj o h (Q : nat → list Obj → Prop) :
  Q (length h) (h ++ [o]) → runs (new_obj o) h Q.
Proof. intros HQ. by eexists _, _. Qed.

Lemma runs_get_quat l q h (Q : Quaternion → list Obj → Prop) :
  h !! l = Some (OQuat q) → Q q h → runs (get_quat l) h Q.
Proof. intros Hl HQ. exists q, h. split; [|done]. unfold get_quat. by rewrite Hl. Qed.

Lemma runs_get_vec l v h (Q : Vector → list Obj → Prop) :
  h !! l = Some (OVec v) → Q v h → runs (get_vec l) h Q.
Proof. intros Hl HQ. exists v, h. split; [|done]. unfold get_vec. by rewrite Hl. Qed.

Lemma runs_set_obj l o h (Q : unit → list Obj → Prop) :
  Q tt (<[l := o]> h) → runs (set_obj l o) h Q.
Proof. intros HQ. by eexists _, _. Qed.

Lemma runs_Quaternion_copy l q h (Q : nat → list Obj → Prop) :
  h !! l = Some (OQuat q) → Q (length h) (h ++ [OQuat q]) →
  runs (Quaternion_copy l) h Q.
Proof.
  intros Hl HQ. apply runs_bind. eapply runs_get_quat; [done|].
  by apply runs_new_obj.
Qed.

Lemma runs_Quaternion_conjugated l q h (Q : nat → list Obj → Prop) :
  h !! l = Some (OQuat q) → Q (length h) (h ++ [OQuat (quat_conjugated q)]) →
  runs (Quaternion_conjugated l) h Q.
Proof.
  intros Hl HQ. apply runs_bind. eapply runs_get_quat; [done|].
  by apply runs_new_obj.
Qed.

Lemma runs_Quaternion_conjugate l q h (Q : unit → list Obj → Prop) :
  h !! l = Some (OQuat q) → Q tt (<[l := OQuat (quat_conjugated q)]> h) →
  runs (Quaternion_conjugate l) h Q.
Proof.
  intros Hl HQ. apply runs_bind. eapply runs_get_quat; [done|].
  by apply runs_set_obj.
Qed.

Lemma runs_Quaternion_rotate l other q o h (Q : unit → list Obj → Prop) :
  h !! l = Some (OQuat q) → h !! other = Some (OQuat o) →
  Q tt (<[l := OQuat (quat_rotated q o)]> h) →
  runs (Quaternion_rotate l other) h Q.
Proof.
  intros Hl Ho HQ. apply runs_bind. eapply runs_get_quat; [done|].
  apply runs_bind. eapply runs_get_quat; [done|]. by apply runs_set_obj.
Qed.

Lemma runs_Vector_copy l v h (Q : nat → list Obj → Prop) :
  h !! l = Some (OVec v) → Q (length h) (h ++ [OVec v]) →
  runs (Vector_copy l) h Q.
Proof.
  intros Hl HQ. apply runs_bind. eapply runs_get_vec; [done|].
  by apply runs_new_obj.
Qed.

Lemma runs_Vector_sub a b x y h (Q : nat → list Obj → Prop) :
  h !! a = Some (OVec x) → h !! b = Some (OVec y) →
  Q (length h) (h ++ [OVec (vec_sub x y)]) →
  runs (Vector_sub a b) h Q.
Proof.
  intros Ha Hb HQ. apply runs_bind. eapply runs_get_vec; [done|].
  apply runs_bind. eapply runs_get_vec; [done|]. by apply runs_new_obj.
Qed.

Lemma runs_Vector_rotate l other v o h (Q : unit → list Obj → Prop) :
  h !! l = Some (OVec v) → h !! other = Some (OQuat o) →
  Q tt (<[l := OVec (vec_rotated v o)]> h) →
  runs (Vector_rotate l other) h Q.
Proof.
  intros Hl Ho HQ. apply runs_bind. eapply runs_get_vec; [done|].
  apply runs_bind. eapply runs_get_quat; [done|]. by apply runs_set_obj.
Qed.

Lemma runs_start {A} (m : Py A) h Q : runs m (h ++ []) Q → runs m h Q.
Proof. by rewrite app_nil_r. Qed.

(** Stores are kept in the form [h ++ ts], [ts] being the objects
    created since [h]. *)
Lemma store_alloc (h ts : list Obj) o : (h ++ ts) ++ [o] = h ++ (ts ++ [o]).
Proof. by rewrite app_assoc. Qed.

Lemma store_insert (h ts : list Obj) j o :
  <[length h + j := o]> (h ++ ts) = h ++ <[j := o]> ts.
Proof. apply insert_app_r. Qed.

Lemma store_lookup_new (h ts : list Obj) j :
  (h ++ ts) !! (length h + j) = ts !! j.
Proof. rewrite lookup_app_r by lia. f_equal. lia. Qed.

Lemma store_lookup_old (h ts : list Obj) l o :
  h !! l = Some o → (h ++ ts) !! l = Some o.
Proof. apply lookup_app_l_Some. Qed.

End StoreRules.

Ltac store_norm :=
  repeat first
    [ rewrite store_alloc
    | rewrite store_insert
    | rewrite length_app ];
  simpl.

Ltac store_lookup :=
  first
    [ rewrite store_lookup_new; reflexivity
    | apply store_lookup_old; eassumption ].

Ltac run_step :=
  store_norm;
  lazymatch goal with
  | |- runs (_ ≫= _) _ _ => apply runs_bind
  | |- runs (mret _) _ _ => apply runs_ret
  | |- runs (new_obj _) _ _ => apply runs_new_obj
  | |- runs (Quaternion_ _) _ _ => apply runs_new_obj
  | |- runs (Vector_ _) _ _ => apply runs_new_obj
  | |- runs (Matrix_translation _) _ _ => apply runs_new_obj
  | |- runs (Matrix_to_quaternion _) _ _ => apply runs_new_obj
  | |- runs (get_quat _) _ _ => eapply runs_get_quat; [store_lookup|]
  | |- runs (get_vec _) _ _ => eapply runs_get_vec; [store_lookup|]
  | |- runs (Quaternion_copy _) _ _ =>
      eapply runs_Quaternion_copy; [store_lookup|]
  | |- runs (Quaternion_conjugated _) _ _ =>
      eapply runs_Quaternion_conjugated; [store_lookup|]
  | |- runs (Quaternion_conjugate _) _ _ =>
      eapply runs_Quaternion_conjugate; [store_lookup|]
  | |- runs (Quaternion_rotate _ _) _ _ =>
      eapply runs_Quaternion_rotate; [store_lookup|store_lookup|]
  | |- runs (Vector_copy _) _ _ => eapply runs_Vector_copy; [store_lookup|]
  | |- runs (Vector_sub _ _) _ _ =>
      eapply runs_Vector_sub; [store_lookup|store_lookup|]
  | |- runs (Vector_rotate _ _) _ _ =>
      eapply runs_Vector_rotate; [store_lookup|store_lookup|]
  end.

Section Conversion.
Context {F : Type} `{Mathutils F}.

Lemma calculate_fcurve_data_runs (import_bone : ImportBone) (h : list Obj)
    (post orig : Quaternion) (oloc : Vector) (k0 k1 k2 k3 k4 k5 k6 : F) :
  h !! post_rotation import_bone = Some (OQuat post) →
  h !! original_rotation import_bone = Some (OQuat orig) →
  h !! original_location import_bone = Some (OVec oloc) →
  let rot := Quaternion_new k0 k1 k2 k3 in
  let loc := Vector_new k4 k5 k6 in
  let q := quat_rotated post orig in
  let q2 := quat_rotated post
              (match parent import_bone with
               | None => quat_conjugated rot
               | Some _ => rot
               end) in
  let final_rotation := quat_rotated q (quat_conjugated q2) in
  let final_location := vec_rotated (vec_sub loc oloc) (quat_conjugated post) in
  ∃ h',
    _calculate_fcurve_data import_bone [k0; k1; k2; k3; k4; k5; k6] h =
      Ok ([quat_w final_rotation; quat_x final_rotation;
           quat_y final_rotation; quat_z final_rotation;
           vec_x final_location; vec_y final_location;
           vec_z final_location], h')
    ∧ h `prefix_of` h'.
Proof.
  intros Hpost Horig Holoc rot loc q q2 final_rotation final_location.
  cut (runs (_calculate_fcurve_data import_bone [k0; k1; k2; k3; k4; k5; k6]) h
         (λ r h', r = [quat_w final_rotation; quat_x final_rotation;
                       quat_y final_rotation; quat_z final_rotation;
                       vec_x final_location; vec_y final_location;
                       vec_z final_location] ∧ h `prefix_of` h')).
  { intros (r & h' & Hrun & -> & Hpre). eauto. }
  apply runs_start. unfold _calculate_fcurve_data. simpl take. simpl drop.
  repeat run_step.
  destruct (parent import_bone) as [j|]; repeat run_step.
  - split; [reflexivity|]. by eexists.
  - split; [reflexivity|]. by eexists.
Qed.
End Conversion.

Section BindPose.
Context {F : Type} `{Mathutils F}.
Implicit Types (h : list Obj) (ib : ImportBone).

Lemma holds_bind_pose_app h ts ib :
  holds_bind_pose h ib → holds_bind_pose (h ++ ts) ib.
Proof.
  intros (ol & or & Hol & Hor & Hpr & Hval). exists ol, or.
  split_and!; [by apply lookup_app_l_Some..|done].
Qed.

Lemma calculate_bind_pose_runs names dict ib h :
  parent ib = None →
  (∀ p, bone_parent (armature_bone ib) = Some p → bone_name p ∈ names →
        is_Some (dict !! bone_name p)) →
  runs (calculate_bind_pose names dict ib) h
    (λ ib' h', h `prefix_of` h' ∧
               psa_bone ib' = psa_bone ib ∧
               armature_bone ib' = armature_bone ib ∧
               parent ib' = parent_link names dict (armature_bone ib) ∧
               holds_bind_pose h' ib').
Proof.
  intros Hroot Hdict. apply runs_start.
  unfold calculate_bind_pose, parent_link.
  destruct (bone_parent (armature_bone ib)) as [p|] eqn:Hp.
  - destruct (decide (bone_name p ∈ names)) as [Hin|Hout].
    + destruct (Hdict p eq_refl Hin) as [j Hj]. rewrite Hj.
      repeat run_step.
      split_and!; [by eexists|done..|].
      eexists _, _. simpl. split_and!; try store_lookup.
      exists p. done.
    + repeat run_step. rewrite Hroot. repeat run_step.
      split_and!; [by eexists|done..|].
      eexists _, _. simpl. split_and!; first [store_lookup|done].
  - repeat run_step. rewrite Hroot. repeat run_step.
    split_and!; [by eexists|done..|].
    eexists _, _. simpl. split_and!; first [store_lookup|done].
Qed.
End BindPose.

Section Loops.
Context {F : Type} `{Mathutils F}.

Lemma py_for_enumerate_runs {A St} (body : St → nat → A → Py St)
    (l : list A) :
  ∀ (I : nat → St → list Obj → Prop) start st h,
    I 0 st h →
    (∀ k x st h, l !! k = Some x → I k st h →
                 runs (body st (start + k) x) h (I (S k))) →
    runs (py_for_enumerate body start l st) h (I (length l)).
Proof.
  induction l as [|x l IH]; intros I start st h HI Hbody; simpl.
  - by apply runs_ret.
  - apply runs_bind.
    eapply runs_mono.
    { specialize (Hbody 0 x st h eq_refl HI).
      rewrite Nat.add_0_r in Hbody. exact Hbody. }
    intros st' h' HI'. simpl.
    apply (IH (λ k, I (S k))); [done|].
    intros k y st1 h1 Hy HI1.
    specialize (Hbody (S k) y st1 h1 Hy HI1).
    by rewrite Nat.add_succ_r in Hbody.
Qed.

Lemma bones_by_name_Ok (bones : list ArmatureBone) name b :
  bones_by_name bones name = Ok b ↔
  ∃ i, bones !! i = Some b ∧ bone_name b = name ∧
       ∀ j b', bones !! j = Some b' → j < i → bone_name b' ≠ name.
Proof.
  induction bones as [|b0 bones IH]; simpl.
  - split; [done|]. by intros (i & ? & _).
  - destruct (decide (bone_name b0 = name)) as [He|Hne].
    + split.
      * intros [= <-]. exists 0. split_and!; [done..|lia].
      * intros (i & Hi & Hn & Hmin). destruct i as [|i]; [naive_solver|].
        destruct (Hmin 0 b0); [done|lia|done].
    + rewrite IH. split.
      * intros (i & Hi & Hn & Hmin). exists (S i). split_and!; [done..|].
        intros [|j] b' Hb' Hj; simpl in Hb'; [congruence|].
        eapply Hmin; [done|lia].
      * intros (i & Hi & Hn & Hmin). destruct i as [|i]; simpl in Hi; [congruence|].
        exists i. split_and!; [done..|].
        intros j b' Hb' Hj. apply (Hmin (S j) b'); [done|lia].
Qed.

Lemma bones_by_name_elem_of (bones : list ArmatureBone) name :
  name ∈ bone_name <$> bones → ∃ b, bones_by_name bones name = Ok b.
Proof.
  induction bones as [|b0 bones IH]; simpl; [by intros ?%elem_of_nil|].
  intros Hin. case_decide as Hb; [eauto|].
  apply elem_of_cons in Hin as [->|Hin]; [done|]. by apply IH.
Qed.
End Loops.

Section ImportBones.
Context {F : Type} `{Mathutils F}.
Implicit Types (h : list Obj) (ib : ImportBone)
  (ibs : list (option ImportBone)) (dict : gmap string nat).

Lemma make_import_bones_runs bones p2a (raws names : list string) h :
  length raws = length names →
  (∀ s name, is_Some (p2a !! s) → names !! s = Some name →
             name ∈ bone_name <$> bones) →
  runs (py_for_enumerate (make_import_bone bones p2a) 0 (zip raws names)
          ([], ∅)) h
    (λ st h', h `prefix_of` h' ∧
              import_bones_built bones p2a names st.1 st.2 (length names)).
Proof.
  intros Hlen Hfound.
  assert (Hzip : length (zip raws names) = length names).
  { rewrite length_zip. lia. }
  rewrite <- Hzip.
  apply (py_for_enumerate_runs _ _
           (λ k st h', h `prefix_of` h' ∧
                       import_bones_built bones p2a names st.1 st.2 k)).
  { split; [done|]. split_and!; [done|intros; lia|].
    intros name j. simpl. by rewrite lookup_empty. }
  intros k [raw name] [ibs dict] hk Hk [Hpre (Hl & Hslots & Hdict)]. simpl in *.
  apply lookup_zip_with_Some in Hk as (raw' & name' & [= <- <-] & Hraw & Hname).
  unfold make_import_bone. simpl.
  destruct (p2a !! k) as [t|] eqn:Hpk.
  - destruct (bones_by_name_elem_of bones name) as [b Hb].
    { eapply Hfound; [|done]. by rewrite Hpk. }
    apply runs_start. repeat run_step. rewrite Hb. apply runs_ret.
    store_norm.
    split.
    { etrans; [done|]. by eexists. }
    split_and!.
    + rewrite ?length_app. simpl. lia.
    + intros s Hs. destruct (decide (s = k)) as [->|Hne].
      * rewrite Hpk. eexists _, name. subst k.
        rewrite list_lookup_middle by done. split_and!; try done.
        by rewrite lookup_insert_eq.
      * specialize (Hslots s ltac:(lia)).
        destruct (p2a !! s); [|by rewrite lookup_app_l by lia].
        destruct Hslots as (ib & name0 & Hib & Hn0 & Hb0 & Hps & Hpar & Hd0).
        exists ib, name0. split_and!; try done.
        { by rewrite lookup_app_l by lia. }
        rewrite lookup_insert. case_decide; [by eexists|done].
    + intros name0 j. rewrite lookup_insert. case_decide as Hn.
      * intros [= <-]. subst name0. split_and!; [lia| |by subst k].
        subst k. by rewrite Hpk.
      * intros (Hj & Hpj & Hnj)%Hdict. split_and!; [lia|done..].
  - apply runs_ret. simpl. split; [done|]. split_and!.
    + rewrite ?length_app. simpl. lia.
    + intros s Hs. destruct (decide (s = k)) as [->|Hne].
      * rewrite Hpk. subst k. by rewrite list_lookup_middle.
      * specialize (Hslots s ltac:(lia)).
        destruct (p2a !! s); [|by rewrite lookup_app_l by lia].
        destruct Hslots as (ib & name0 & Hib & Hrest).
        exists ib, name0. split; [|done]. by rewrite lookup_app_l by lia.
    + intros name0 j (Hj & Hpj & Hnj)%Hdict. split_and!; [lia|done..].
Qed.

Lemma bind_pose_loop_runs names dict ibs0 h0 :
  (∀ i ib, ibs0 !! i = Some (Some ib) →
     parent ib = None ∧
     ∀ p, bone_parent (armature_bone ib) = Some p → bone_name p ∈ names →
          is_Some (dict !! bone_name p)) →
  runs (py_for_enumerate (bind_pose_step names dict) 0 ibs0 ibs0) h0
    (λ ibs h',
       h0 `prefix_of` h' ∧ length ibs = length ibs0 ∧
       ∀ i, match ibs0 !! i with
            | Some (Some ib) =>
                ∃ ib', ibs !! i = Some (Some ib') ∧
                       bind_pose_done names dict h' ib ib'
            | o => ibs !! i = o
            end).
Proof.
  intros Hpre.
  eapply runs_mono.
  { apply (py_for_enumerate_runs _ _
      (λ k ibs h',
         h0 `prefix_of` h' ∧ length ibs = length ibs0 ∧
         (∀ i, k ≤ i → ibs !! i = ibs0 !! i) ∧
         ∀ i, i < k →
              match ibs0 !! i with
              | Some (Some ib) =>
                  ∃ ib', ibs !! i = Some (Some ib') ∧
                         bind_pose_done names dict h' ib ib'
              | o => ibs !! i = o
              end)).
    { split_and!; [done..|intros; lia]. }
    intros k slot ibs hk Hslot (Hpf & Hlen & Hrest & Hdone). simpl.
    unfold bind_pose_step. rewrite Hrest by lia. rewrite Hslot.
    destruct slot as [ib|].
    - destruct (Hpre k ib Hslot) as [Hroot Hdict].
      apply runs_bind. eapply runs_mono.
      { by apply calculate_bind_pose_runs. }
      intros ib' h' (Hpf' & Hdone'). apply runs_ret. split_and!.
      + by etrans.
      + by rewrite length_insert.
      + intros i Hi. rewrite list_lookup_insert_ne by lia. apply Hrest. lia.
      + intros i Hi. destruct (decide (i = k)) as [->|Hne].
        * rewrite Hslot. exists ib'. split; [|done].
          apply list_lookup_insert_eq. rewrite Hlen.
          by eapply lookup_lt_Some.
        * specialize (Hdone i ltac:(lia)).
          rewrite list_lookup_insert_ne by done.
          destruct (ibs0 !! i) as [[ib0|]|]; [|done..].
          destruct Hdone as (ib0' & Hib0' & ? & ? & ? & Hpose).
          exists ib0'. split; [done|]. split_and!; [done..|].
          destruct Hpf' as [ts ->]. by apply holds_bind_pose_app.
    - apply runs_ret. split_and!; [done..| |].
      + intros i Hi. apply Hrest. lia.
      + intros i Hi. destruct (decide (i = k)) as [->|Hne].
        * rewrite Hslot, <- Hslot. apply Hrest. lia.
        * apply Hdone. lia. }
  intros ibs h' (Hpf & Hlen & Hrest & Hdone). split_and!; [done..|].
  intros i. destruct (decide (i < length ibs0)) as [Hi|Hi]; [by apply Hdone|].
  rewrite (lookup_ge_None_2 ibs0) by lia. apply lookup_ge_None_2. lia.
Qed.
End ImportBones.

Section MappedNames.
Context `{PyStr}.
Implicit Types (arm l : list string) (mode : string).

Lemma scan_inv_name_accepted arm mode l st s t :
  scan_inv arm mode l st → accepts arm mode l s t →
  ∃ a, arm !! t = Some a ∧ psa_bone_names st !! s = Some a.
Proof.
  intros Hinv (n & Hn & HL).
  destruct (get_index_lookup _ _ _ _ HL) as [a Ha]. exists a. split; [done|].
  rewrite (inv_names _ _ _ _ Hinv), list_lookup_fmap, Hn. simpl.
  unfold mapped_name. by rewrite HL, Ha.
Qed.

Lemma scan_inv_mapped_accepts arm mode l st s :
  scan_inv arm mode l st →
  is_Some (psa_to_armature_bone_indices st !! s) →
  ∃ t, accepts arm mode l s t ∧
       armature_to_psa_bone_indices st !! t = Some s.
Proof.
  intros Hinv [i (t & n & Ht & _)%(inv_p2a _ _ _ _ Hinv)].
  exists t. split; [|done]. by apply (inv_a2p_Some _ _ _ _ Hinv) in Ht as [? _].
Qed.

(** An armature name that occurs in [psa_bone_names] is the name of a
    mapped PSA bone. *)
Lemma scan_inv_name_mapped arm mode l st x :
  scan_inv arm mode l st →
  x ∈ psa_bone_names st → x ∈ arm →
  ∃ s, is_Some (psa_to_armature_bone_indices st !! s) ∧
       psa_bone_names st !! s = Some x.
Proof.
  intros Hinv Hx Harm.
  rewrite (inv_names _ _ _ _ Hinv) in Hx.
  apply list_elem_of_fmap in Hx as (n & -> & Hn).
  unfold mapped_name in *.
  destruct (_get_armature_bone_index_for_psa_bone n arm mode) as [t|] eqn:HL.
  - destruct (get_index_lookup _ _ _ _ HL) as [a Ha]. rewrite Ha in *. simpl in *.
    apply list_elem_of_lookup in Hn as [s0 Hs0].
    destruct (armature_to_psa_bone_indices st !! t) as [s1|] eqn:Ht.
    + exists s1. split; [by eapply (inv_claimant _ _ _ _ Hinv)|].
      apply (inv_a2p_Some _ _ _ _ Hinv) in Ht as [Hacc _].
      destruct (scan_inv_name_accepted _ _ _ _ _ _ Hinv Hacc) as (a' & Ha' & Hs1).
      congruence.
    + destruct (inv_a2p_None _ _ _ _ Hinv t Ht s0). by exists n.
  - exfalso. eapply get_index_None; [done..|]. apply name_matches_refl.
Qed.

(** The lookup accepts the first armature bone that carries the accepted
    name. *)
Lemma first_match_first_name mode arm n t i a :
  first_match mode arm n t → arm !! t = Some a → arm !! i = Some a →
  (∀ j, j < i → arm !! j ≠ Some a) → i = t.
Proof.
  intros (a' & Ha' & Hmatch & Hmin) Ht Hi Hfirst.
  assert (a' = a) as -> by congruence.
  destruct (Nat.lt_trichotomy i t) as [Hlt|[->|Hlt]]; [|done|].
  - by destruct (Hmin i a Hi Hlt).
  - by destruct (Hfirst t Hlt).
Qed.
End MappedNames.

Section Pipeline.
Context `{PyStr} {F : Type} `{Mathutils F}.
Implicit Types (h : list Obj) (ib : ImportBone)
  (ibs : list (option ImportBone)) (bones : list ArmatureBone).

Lemma build_import_bones_runs bones mode psa_names st h :
  map_psa_bones (bone_name <$> bones) mode psa_names = Ok st →
  armature_closed bones →
  runs (build_import_bones bones psa_names st) h
    (λ ibs h', h `prefix_of` h' ∧
               import_bones_ready bones mode psa_names st ibs h').
Proof.
  intros Hst Hclosed. pose proof (map_psa_bones_inv _ _ _ _ Hst) as Hinv.
  set (arm := bone_name <$> bones) in *.
  set (names := psa_bone_names st) in *.
  set (p2a := psa_to_armature_bone_indices st) in *.
  assert (Hlen : length psa_names = length names).
  { unfold names. by rewrite (inv_names _ _ _ _ Hinv), length_fmap. }
  assert (Hfound : ∀ s name, is_Some (p2a !! s) → names !! s = Some name →
                             name ∈ arm).
  { intros s name Hs Hname.
    destruct (scan_inv_mapped_accepts _ _ _ _ _ Hinv Hs) as (t & Hacc & _).
    destruct (scan_inv_name_accepted _ _ _ _ _ _ Hinv Hacc) as (a & Ha & Hsa).
    assert (a = name) as -> by (unfold names in *; congruence).
    by eapply list_elem_of_lookup_2. }
  unfold build_import_bones. apply runs_bind. eapply runs_mono.
  { by apply (make_import_bones_runs bones p2a psa_names names h). }
  intros [ibs0 dict] h0 (Hpf0 & Hl0 & Hslots & Hdict). simpl in *.
  (* the slots of the first loop *)
  assert (Hslot_some : ∀ s ib0, ibs0 !! s = Some (Some ib0) →
    is_Some (p2a !! s) ∧ psa_bone ib0 = s ∧ parent ib0 = None ∧
    ∃ name, names !! s = Some name ∧
            bones_by_name bones name = Ok (armature_bone ib0) ∧
            is_Some (dict !! name)).
  { intros s ib0 Hs. pose proof (lookup_lt_Some _ _ _ Hs) as Hlt.
    specialize (Hslots s ltac:(lia)).
    destruct (p2a !! s) as [i|]; [|congruence].
    destruct Hslots as (ib1 & name & Hib1 & Hname & Hb & Hps & Hpar & Hd).
    assert (ib1 = ib0) as -> by congruence. eauto 10. }
  assert (Hkey : ∀ s ib0 p, ibs0 !! s = Some (Some ib0) →
    bone_parent (armature_bone ib0) = Some p → bone_name p ∈ names →
    is_Some (dict !! bone_name p)).
  { intros s ib0 p Hs Hp Hin.
    destruct (Hslot_some s ib0 Hs) as (_ & _ & _ & name & _ & Hb & _).
    apply bones_by_name_Ok in Hb as (i & Hi & _).
    assert (Hparm : bone_name p ∈ arm).
    { eapply Hclosed; [|done]. by eapply list_elem_of_lookup_2. }
    destruct (scan_inv_name_mapped _ _ _ _ _ Hinv Hin Hparm) as (s1 & Hs1 & Hn1).
    pose proof (lookup_lt_Some _ _ _ Hn1) as Hlt1.
    specialize (Hslots s1 ltac:(unfold names; lia)).
    fold p2a in Hs1. destruct (p2a !! s1) as [i1|]; [|by destruct Hs1].
    destruct Hslots as (ib1 & name1 & _ & Hname1 & _ & _ & _ & Hd).
    unfold names in *. congruence. }
  eapply runs_mono.
  { apply bind_pose_loop_runs. intros i ib0 Hi.
    destruct (Hslot_some i ib0 Hi) as (_ & _ & Hroot & _). split; [done|].
    intros p. by apply (Hkey i). }
  intros ibs h' (Hpf & Hl & Hdone). split; [by etrans|].
  (* a final slot comes from the slot of the first loop *)
  assert (Hback : ∀ s ib, ibs !! s = Some (Some ib) →
    ∃ ib0, ibs0 !! s = Some (Some ib0) ∧
           bind_pose_done names dict h' ib0 ib).
  { intros s ib Hs. specialize (Hdone s).
    destruct (ibs0 !! s) as [[ib0|]|]; [|congruence..].
    destruct Hdone as (ib' & Hib' & Hd). exists ib0. split; [done|].
    assert (ib' = ib) as -> by congruence. done. }
  split_and!.
  - lia.
  - intros s. specialize (Hdone s). split.
    + intros Hs. pose proof (lookup_lt_Some _ _ _ Hs) as Hlt.
      split; [lia|]. specialize (Hslots s ltac:(lia)). fold p2a.
      destruct (p2a !! s) as [i|]; [|done].
      destruct Hslots as (ib1 & name & Hib1 & _). rewrite Hib1 in Hdone.
      destruct Hdone as (ib' & Hib' & _). congruence.
    + intros [Hlt Hnone]. specialize (Hslots s ltac:(lia)).
      fold p2a in Hnone. rewrite Hnone in Hslots. by rewrite Hslots in Hdone.
  - intros s ib Hs.
    destruct (Hback s ib Hs) as (ib0 & Hib0 & Hps & Hab & Hpar & Hpose).
    destruct (Hslot_some s ib0 Hib0) as (Hmapped & Hps0 & Hroot & name & Hname & Hb & Hd).
    split_and!; [done|congruence| |done| |].
    + destruct (scan_inv_mapped_accepts _ _ _ _ _ Hinv Hmapped) as (t & Hacc & _).
      exists t. split; [done|].
      destruct (scan_inv_name_accepted _ _ _ _ _ _ Hinv Hacc) as (a & Ha & Hsa).
      assert (a = name) as -> by (unfold names in *; congruence).
      apply bones_by_name_Ok in Hb as (i & Hi & Hni & Hmin).
      destruct Hacc as (n & Hn & HL). apply get_index_Some in HL.
      assert (i = t) as ->; [|congruence].
      eapply first_match_first_name; [done..| |].
      * unfold arm. by rewrite list_lookup_fmap, Hi, <- Hni.
      * intros j Hj. unfold arm. rewrite list_lookup_fmap.
        destruct (bones !! j) as [bj|] eqn:Hbj; [|done]. simpl.
        intros [= Hbjn]. by eapply Hmin.
    + intros j Hj. rewrite Hpar in Hj. unfold parent_link in Hj. rewrite Hab.
      destruct (bone_parent (armature_bone ib0)) as [p|]; [|done].
      case_decide as Hin; [|done].
      apply Hdict in Hj as (Hlt & Hpj & Hnj).
      specialize (Hslots j Hlt). destruct (p2a !! j) as [i|]; [|by destruct Hpj].
      destruct Hslots as (ibj & namej & Hibj & Hnamej & Hbj & _).
      assert (namej = bone_name p) as -> by congruence.
      specialize (Hdone j). rewrite Hibj in Hdone.
      destruct Hdone as (ibj' & Hibj' & _ & Habj & _).
      exists p, ibj'. split_and!; [done..|]. rewrite Habj.
      by apply bones_by_name_Ok in Hbj as (i' & _ & ? & _).
    + intros Hnone p Hp s' ib' Hs' Heq. rewrite Hab in Hp.
      destruct (Hback s' ib' Hs') as (ib0' & Hib0' & _ & Hab' & _).
      destruct (Hslot_some s' ib0' Hib0')
        as (_ & _ & _ & name' & Hname' & Hb' & _).
      apply bones_by_name_Ok in Hb' as (i' & _ & Hn' & _).
      assert (Hin : bone_name p ∈ names).
      { eapply list_elem_of_lookup_2. rewrite Hname'. congruence. }
      destruct (Hkey s ib0 p Hib0 Hp Hin) as [j Hj].
      rewrite Hpar in Hnone. unfold parent_link in Hnone.
      rewrite Hp in Hnone. rewrite decide_True in Hnone by done. congruence.
Qed.
End Pipeline.

(** ** Per-key conversion and bind pose: the claims *)

Section ConversionClaims.
Context {F : Type} `{Mathutils F}.

(** [C1] For every ImportBone whose three fields hold, in the store, the
    post-rotation [post], the original rotation [orig] and the original
    location [oloc], and for every raw key (rotation [rot], location
    [loc]), [_calculate_fcurve_data] returns the components of
    [q.rotate(q2.conjugated())], where [q] is [post] rotated by [orig] and
    [q2] is [post] rotated by [rot.conjugated()] for a bone without parent
    and by [rot] for a bone with a parent, followed by the components of
    [loc - oloc] rotated by [post.conjugated()]. All updates go to objects
    created by the call: the objects of the store, the fields of the bone
    among them, are left as they were. *)
Theorem per_key_conversion (import_bone : ImportBone) (h : list Obj)
    (post orig : Quaternion) (oloc : Vector) (k0 k1 k2 k3 k4 k5 k6 : F) :
  h !! post_rotation import_bone = Some (OQuat post) →
  h !! original_rotation import_bone = Some (OQuat orig) →
  h !! original_location import_bone = Some (OVec oloc) →
  let rot := Quaternion_new k0 k1 k2 k3 in
  let loc := Vector_new k4 k5 k6 in
  let q := quat_rotated post orig in
  let q2 := quat_rotated post
              (match parent import_bone with
               | None => quat_conjugated rot
               | Some _ => rot
               end) in
  let final_rotation := quat_rotated q (quat_conjugated q2) in
  let final_location := vec_rotated (vec_sub loc oloc) (quat_conjugated post) in
  ∃ h',
    _calculate_fcurve_data import_bone [k0; k1; k2; k3; k4; k5; k6] h =
      Ok ([quat_w final_rotation; quat_x final_rotation;
           quat_y final_rotation; quat_z final_rotation;
           vec_x final_location; vec_y final_location;
           vec_z final_location], h')
    ∧ h `prefix_of` h'.
Proof. apply calculate_fcurve_data_runs. Qed.

End ConversionClaims.

Section BindPoseClaims.
Context `{PyStr} {F : Type} `{Mathutils F}.
Implicit Types (h : list Obj) (ib : ImportBone)
  (ibs : list (option ImportBone)) (bones : list ArmatureBone).

Lemma build_import_bones_result bones mode psa_names st h :
  map_psa_bones (bone_name <$> bones) mode psa_names = Ok st →
  armature_closed bones →
  ∃ ibs h', build_import_bones bones psa_names st h = Ok (ibs, h') ∧
            import_bones_ready bones mode psa_names st ibs h'.
Proof.
  intros Hst Hclosed.
  destruct (build_import_bones_runs bones mode psa_names st h Hst Hclosed)
    as (ibs & h' & Hrun & _ & Hready).
  eauto.
Qed.

Lemma import_bones_ready_mapped bones mode psa_names st ibs h s :
  import_bones_ready bones mode psa_names st ibs h →
  is_Some (psa_to_armature_bone_indices st !! s) →
  s < length psa_names →
  ∃ ib, ibs !! s = Some (Some ib).
Proof.
  intros (Hlen & Hnone & _) [i Hi] Hs.
  destruct (ibs !! s) as [[ib|]|] eqn:Hib; [by eexists| |].
  - apply Hnone in Hib as [_ Hib]. congruence.
  - apply lookup_ge_None in Hib. lia.
Qed.

(** [C2] For every mapped bone, lines 143-157 leave in the three fields of
    its ImportBone: for a bone without parent link, the translation and the
    rotation of the bind matrix of its armature bone; for a bone with a
    parent link, the difference of its translation and its parent's, rotated
    by the conjugate (the inverse rotation) of the parent's rotation, and its
    rotation rotated by that conjugate, then conjugated; and in both cases a
    post-rotation that is the conjugate of the original rotation. For a bone
    without parent link whose bind rotation is the identity, the original
    location is the bind translation, the original rotation is the identity
    and the post-rotation is the conjugate of the identity, which [==] takes
    for the identity. *)
Theorem bind_pose_derivation bones mode psa_names st h :
  map_psa_bones (bone_name <$> bones) mode psa_names = Ok st →
  armature_closed bones →
  ∃ ibs h',
    build_import_bones bones psa_names st h = Ok (ibs, h') ∧
    (∀ s, is_Some (psa_to_armature_bone_indices st !! s) →
          s < length psa_names → ∃ ib, ibs !! s = Some (Some ib)) ∧
    ∀ s ib, ibs !! s = Some (Some ib) →
      ∃ ol or pr,
        h' !! original_location ib = Some (OVec ol) ∧
        h' !! original_rotation ib = Some (OQuat or) ∧
        h' !! post_rotation ib = Some (OQuat pr) ∧
        pr = quat_conjugated or ∧
        let m := bone_matrix_local (armature_bone ib) in
        match parent ib with
        | None =>
            ol = matrix_translation m ∧ or = matrix_to_quaternion m ∧
            (matrix_to_quaternion m = Quaternion_identity →
             ol = matrix_translation m ∧
             or = Quaternion_identity ∧
             pr = quat_conjugated Quaternion_identity ∧
             (quat_eq (quat_conjugated Quaternion_identity)
                Quaternion_identity = true →
              quat_eq pr Quaternion_identity = true))
        | Some _ =>
            ∃ p, bone_parent (armature_bone ib) = Some p ∧
                 let pm := bone_matrix_local p in
                 ol = vec_rotated
                        (vec_sub (matrix_translation m)
                           (matrix_translation pm))
                        (quat_conjugated (matrix_to_quaternion pm)) ∧
                 or = quat_conjugated
                        (quat_rotated (matrix_to_quaternion m)
                           (quat_conjugated (matrix_to_quaternion pm)))
        end.
Proof.
  intros Hst Hclosed.
  destruct (build_import_bones_result bones mode psa_names st h Hst Hclosed)
    as (ibs & h' & Hrun & Hready).
  exists ibs, h'. split_and!; [done| |].
  - intros s Hs Hlt. by eapply import_bones_ready_mapped.
  - intros s ib Hib.
    destruct Hready as (_ & _ & Hall).
    destruct (Hall s ib Hib) as (_ & _ & _ & (ol & or & Hol & Hor & Hpr & Hval) & _).
    exists ol, or, (quat_conjugated or). split_and!; [done..|].
    simpl in *. destruct (parent ib) as [j|]; [done|].
    destruct Hval as [-> ->]. split_and!; [done..|].
    intros Hid. rewrite Hid. done.
Qed.

(** [C6] For every mapped bone, the ImportBone stands for the armature
    bone that the lookup accepted, and its parent link is set if and only if
    that armature bone has a parent whose name is the name of the armature
    bone of one of the ImportBones; the link then points to such an
    ImportBone. A bone whose armature parent is not among them keeps no
    link and goes through the conversion as a root: its original location
    and rotation are the translation and rotation of its own bind matrix,
    and the per-key conversion rotates by the conjugated key rotation. *)
Theorem parent_link_within_mapped_bones bones mode psa_names st h :
  map_psa_bones (bone_name <$> bones) mode psa_names = Ok st →
  armature_closed bones →
  ∃ ibs h',
    build_import_bones bones psa_names st h = Ok (ibs, h') ∧
    ∀ s ib, ibs !! s = Some (Some ib) →
      let ab := armature_bone ib in
      let m := bone_matrix_local ab in
      (∃ t, accepts (bone_name <$> bones) mode psa_names s t ∧
            bones !! t = Some ab) ∧
      (is_Some (parent ib) ↔
       ∃ p, bone_parent ab = Some p ∧
            ∃ s' ib', ibs !! s' = Some (Some ib') ∧
                      bone_name (armature_bone ib') = bone_name p) ∧
      (∀ j, parent ib = Some j →
            ∃ p ibp, bone_parent ab = Some p ∧
                     ibs !! j = Some (Some ibp) ∧
                     bone_name (armature_bone ibp) = bone_name p) ∧
      (parent ib = None →
       h' !! original_location ib = Some (OVec (matrix_translation m)) ∧
       h' !! original_rotation ib = Some (OQuat (matrix_to_quaternion m)) ∧
       h' !! post_rotation ib =
         Some (OQuat (quat_conjugated (matrix_to_quaternion m))) ∧
       ∀ k0 k1 k2 k3 k4 k5 k6,
         let post := quat_conjugated (matrix_to_quaternion m) in
         let rot := Quaternion_new k0 k1 k2 k3 in
         let loc := Vector_new k4 k5 k6 in
         let q := quat_rotated post (matrix_to_quaternion m) in
         let q2 := quat_rotated post (quat_conjugated rot) in
         let final_rotation := quat_rotated q (quat_conjugated q2) in
         let final_location :=
           vec_rotated (vec_sub loc (matrix_translation m))
             (quat_conjugated post) in
         ∃ h'',
           _calculate_fcurve_data ib [k0; k1; k2; k3; k4; k5; k6] h' =
             Ok ([quat_w final_rotation; quat_x final_rotation;
                  quat_y final_rotation; quat_z final_rotation;
                  vec_x final_location; vec_y final_location;
                  vec_z final_location], h'')).
Proof.
  intros Hst Hclosed.
  destruct (build_import_bones_result bones mode psa_names st h Hst Hclosed)
    as (ibs & h' & Hrun & Hready).
  exists ibs, h'. split; [done|].
  intros s ib Hib ab m.
  destruct Hready as (_ & _ & Hall).
  destruct (Hall s ib Hib) as (_ & _ & Htarget & Hpose & Hlink & Hroot).
  split_and!.
  - done.
  - split.
    + intros [j Hj]. destruct (Hlink j Hj) as (p & ibp & Hp & Hibp & Hname).
      eauto 10.
    + intros (p & Hp & s' & ib' & Hib' & Hname).
      destruct (parent ib) as [j|] eqn:Hpar; [by eexists|].
      by destruct (Hroot eq_refl p Hp s' ib' Hib').
  - done.
  - intros Hnone.
    destruct Hpose as (ol & or & Hol & Hor & Hpr & Hval).
    simpl in Hval. rewrite Hnone in Hval. destruct Hval as [-> ->].
    split_and!; [done..|].
    intros k0 k1 k2 k3 k4 k5 k6.
    destruct (calculate_fcurve_data_runs ib h' _ _ _ k0 k1 k2 k3 k4 k5 k6
                Hpr Hor Hol) as (h'' & Hrun' & _).
    rewrite Hnone in Hrun'. eauto.
Qed.

End BindPoseClaims.
Lemma example_bones_closed : armature_closed example_bones.
Proof.
  intros b p Hb Hp. unfold example_bones in Hb.
  repeat (apply elem_of_cons in Hb as [->|Hb]); simpl in Hp;
    try discriminate; try (by apply elem_of_nil in Hb).
  - injection Hp as <-. simpl. set_solver.
  - injection Hp as <-. simpl. set_solver.
Qed.

Lemma per_key_conversion_witness :
  let ib := mkImportBone 0 None pelvis 0 1 2 in
  let h := [OVec (0, 0, 1)%Z; OQuat (0, 1, 0, 0)%Z; OQuat (0, -1, 0, 0)%Z] in
  h !! post_rotation ib = Some (OQuat (0, -1, 0, 0)%Z) ∧
  h !! original_rotation ib = Some (OQuat (0, 1, 0, 0)%Z) ∧
  h !! original_location ib = Some (OVec (0, 0, 1)%Z) ∧
  ∃ h', _calculate_fcurve_data ib [0; 0; 1; 0; 1; 2; 4]%Z h =
          Ok ([0; 0; 0; 1; 1; -2; -3]%Z, h') ∧ h `prefix_of` h'.
Proof.
  intros ib h. split_and!; [reflexivity..|].
  exact (per_key_conversion (F := Z) ib h (0, -1, 0, 0)%Z (0, 1, 0, 0)%Z
           (0, 0, 1)%Z 0%Z 0%Z 1%Z 0%Z 1%Z 2%Z 4%Z
           eq_refl eq_refl eq_refl).
Defined.

Lemma bind_pose_derivation_witness :
  map_psa_bones (bone_name <$> example_bones) "EXACT" ["Pelvis"; "Spine"]
    = Ok example_mapping_spine ∧
  armature_closed example_bones ∧
  ∃ ibs h' root child,
    build_import_bones example_bones ["Pelvis"; "Spine"]
      example_mapping_spine [] = Ok (ibs, h') ∧
    ibs = [Some root; Some child] ∧
    parent root = None ∧
    h' !! original_location root = Some (OVec (0, 0, 1)%Z) ∧
    h' !! original_rotation root = Some (OQuat (1, 0, 0, 0)%Z) ∧
    h' !! post_rotation root = Some (OQuat (1, 0, 0, 0)%Z) ∧
    parent child = Some 0 ∧
    h' !! original_location child = Some (OVec (0, 0, 1)%Z) ∧
    h' !! original_rotation child = Some (OQuat (0, -1, 0, 0)%Z) ∧
    h' !! post_rotation child = Some (OQuat (0, 1, 0, 0)%Z).
Proof.
  assert (Hst : map_psa_bones (bone_name <$> example_bones) "EXACT"
                  ["Pelvis"; "Spine"] = Ok example_mapping_spine)
    by reflexivity.
  split_and!; [exact Hst|exact example_bones_closed|].
  destruct (bind_pose_derivation example_bones "EXACT" ["Pelvis"; "Spine"]
              example_mapping_spine [] Hst example_bones_closed)
    as (ibs & h' & Hrun & _ & Hall).
  assert (Hc : build_import_bones example_bones ["Pelvis"; "Spine"]
                 example_mapping_spine [] = example_import_spine)
    by reflexivity.
  rewrite Hc in Hrun. injection Hrun as <- <-.
  eexists _, _, _, _. split; [exact Hc|]. split; [reflexivity|].
  destruct (Hall 0 _ eq_refl) as (ol & or & pr & Hol & Hor & Hpr & -> & Hval).
  destruct (Hall 1 _ eq_refl)
    as (ol' & or' & pr' & Hol' & Hor' & Hpr' & -> & Hval').
  simpl in Hval, Hval'.
  destruct Hval as (-> & -> & _).
  destruct Hval' as (p & [= <-] & -> & ->).
  split_and!; first [reflexivity|assumption].
Defined.

Lemma parent_link_within_mapped_bones_witness :
  map_psa_bones (bone_name <$> example_bones) "EXACT" ["Pelvis"; "Head"]
    = Ok example_mapping_head ∧
  armature_closed example_bones ∧
  ∃ ibs h' root orphan,
    build_import_bones example_bones ["Pelvis"; "Head"]
      example_mapping_head [] = Ok (ibs, h') ∧
    ibs = [Some root; Some orphan] ∧
    armature_bone orphan = head ∧
    bone_parent (armature_bone orphan) = Some spine ∧
    parent orphan = None ∧
    h' !! original_location orphan = Some (OVec (0, 1, 3)%Z) ∧
    h' !! original_rotation orphan = Some (OQuat (0, 0, 1, 0)%Z) ∧
    h' !! post_rotation orphan = Some (OQuat (0, 0, -1, 0)%Z) ∧
    ∃ h'', _calculate_fcurve_data orphan [0; 1; 0; 0; 1; 2; 4]%Z h' =
             Ok ([0; 0; 0; -1; -1; 1; -1]%Z, h'').
Proof.
  assert (Hst : map_psa_bones (bone_name <$> example_bones) "EXACT"
                  ["Pelvis"; "Head"] = Ok example_mapping_head)
    by reflexivity.
  split_and!; [exact Hst|exact example_bones_closed|].
  destruct (parent_link_within_mapped_bones example_bones "EXACT"
              ["Pelvis"; "Head"] example_mapping_head []
              Hst example_bones_closed) as (ibs & h' & Hrun & Hall).
  assert (Hc : build_import_bones example_bones ["Pelvis"; "Head"]
                 example_mapping_head [] = example_import_head)
    by reflexivity.
  rewrite Hc in Hrun. injection Hrun as <- <-.
  eexists _, _, _, _. split; [exact Hc|]. split; [reflexivity|].
  destruct (Hall 1 _ eq_refl) as (_ & _ & _ & Hroot).
  destruct (Hroot eq_refl) as (Hol & Hor & Hpr & Hkey).
  split_and!; [reflexivity..|exact Hol|exact Hor|exact Hpr|].
  exact (Hkey 0 1 0 0 1 2 4)%Z.
Defined.

(** ** Frame rate and keyframes *)

Lemma for_enumerate_inv {A St} (body : St → nat → A → Result St)
    (l : list A) :
  ∀ (I : nat → St → Prop) start st st',
    for_enumerate body start l st = Ok st' →
    I 0 st →
    (∀ k x s s', l !! k = Some x → I k s → body s (start + k) x = Ok s' →
                 I (S k) s') →
    I (length l) st'.
Proof.
  induction l as [|x l IH]; intros I start st st' Hrun HI Hstep; simpl in *.
  - by injection Hrun as <-.
  - apply bind_Ok in Hrun as (st1 & Hx & Hrest).
    apply (IH (λ k, I (S k)) (S start) st1 st' Hrest).
    + apply (Hstep 0 x st st1); [done..|]. by rewrite Nat.add_0_r.
    + intros k y s s' Hy Hs Hbody. apply (Hstep (S k) y s s'); [done..|].
      by rewrite Nat.add_succ_r.
Qed.

Lemma assign_odd_cons (d0 d1 v : float) (rest vs : list float) :
  assign_odd (d0 :: d1 :: rest) (v :: vs) = d0 :: v :: assign_odd rest vs.
Proof. by destruct rest. Qed.

Lemma co_pairs_assign_odd (vs : list float) : ∀ data,
  length data = 2 * length vs →
  co_pairs (assign_odd data vs) = zip (co_pairs data).*1 vs ∧
  length (assign_odd data vs) = length data.
Proof.
  induction vs as [|v vs IH]; intros data Hlen.
  - by destruct data.
  - destruct data as [|d0 [|d1 data]]; [done..|].
    rewrite assign_odd_cons. simpl in *.
    destruct (IH data) as [-> ->]; [lia|]. done.
Qed.

Lemma co_pairs_assign_even (ts : list float) : ∀ data,
  length data = 2 * length ts →
  co_pairs (assign_even data ts) = zip ts (co_pairs data).*2 ∧
  length (assign_even data ts) = length data.
Proof.
  induction ts as [|t ts IH]; intros data Hlen.
  - by destruct data.
  - destruct data as [|d0 [|d1 data]]; [done..|].
    simpl in *. destruct (IH data) as [-> ->]; [lia|]. done.
Qed.

Lemma length_co_pairs (data : list float) n :
  length data = 2 * n → length (co_pairs data) = n.
Proof.
  revert data. induction n as [|n IH]; intros data Hlen.
  - by destruct data.
  - destruct data as [|d0 [|d1 data]]; [simpl in Hlen; lia..|]. simpl in *.
    rewrite IH; [done|lia].
Qed.

Lemma numpy_assign_even (data ts : list float) :
  length data = 2 * length ts →
  numpy_assign 0 data ts = Ok (assign_even data ts).
Proof.
  intros Hlen. unfold numpy_assign. rewrite Hlen.
  replace ((2 * length ts + 1 - 0) / 2) with (length ts).
  - by rewrite decide_True.
  - apply Nat.div_unique with 1; lia.
Qed.

Lemma numpy_assign_odd (data vs : list float) :
  length data = 2 * length vs →
  numpy_assign 1 data vs = Ok (assign_odd data vs).
Proof.
  intros Hlen. unfold numpy_assign. rewrite Hlen.
  replace ((2 * length vs + 1 - 1) / 2) with (length vs).
  - by rewrite decide_True.
  - apply Nat.div_unique with 0; lia.
Qed.

Lemma matrix_column_Ok matrix b k col :
  matrix_column matrix b k = Ok col →
  length col = length matrix ∧
  ∀ i v, col !! i = Some v ↔
         ∃ frame key, matrix !! i = Some frame ∧ frame !! b = Some key ∧
                      key !! k = Some v.
Proof.
  revert col. induction matrix as [|frame matrix IH]; intros col; simpl.
  - intros [= <-]. split; [done|]. intros i v. split; [done|].
    by intros (? & ? & ? & _).
  - intros (key & Hkey%list_get_Ok & (v0 & Hv0%list_get_Ok &
              (col' & Hcol' & [= <-])%bind_Ok)%bind_Ok)%bind_Ok.
    destruct (IH col' Hcol') as [Hlen Hlookup]. split; [simpl; lia|].
    intros [|i] v; simpl.
    + split; [intros [= <-]; eauto|].
      intros (f & ky & [= <-] & Hky & Hv). congruence.
    + apply Hlookup.
Qed.

Lemma keyframe_times_lookup n d i :
  i < n →
  keyframe_times n d !! i =
    Some (PrimFloat.mul (float_of_Z (Z.of_nat i)) d).
Proof.
  intros Hi. unfold keyframe_times.
  by rewrite list_lookup_fmap, lookup_seq_lt.
Qed.

Lemma length_keyframe_times n d : length (keyframe_times n d) = n.
Proof. unfold keyframe_times. by rewrite length_fmap, length_seq. Qed.

Section KeyframeWrites.
Variables (matrix : list (list (list float))) (times : list float).
Hypothesis matrix_shape : length matrix = length times.

Lemma write_fcurve_inv b st k present st' :
  writes_inv matrix times st → write_fcurve matrix b st k present = Ok st' →
  writes_inv matrix times st' ∧
  (∀ e, e ∈ st.2 → e ∈ st'.2) ∧
  (present = true → ∃ co, (b, k, co) ∈ st'.2).
Proof.
  intros (Hlen & Htimes & Hwritten). unfold write_fcurve.
  destruct present; [|intros [= <-]; done].
  destruct st as [data written]. simpl in *.
  intros (col & Hcol & (data' & Hdata' & [= <-])%bind_Ok)%bind_Ok.
  destruct (matrix_column_Ok _ _ _ _ Hcol) as [Hcl _].
  rewrite numpy_assign_odd in Hdata' by lia. injection Hdata' as <-.
  destruct (co_pairs_assign_odd col data) as [Hco Hlen']; [lia|].
  simpl. split_and!.
  - split_and!; simpl.
    + lia.
    + rewrite Hco, Htimes. apply fst_zip. lia.
    + intros b' k' co [Hin|Hin%list_elem_of_singleton]%elem_of_app.
      * by apply Hwritten.
      * injection Hin as -> -> ->. exists col. split; [done|].
        by rewrite Hco, Htimes.
  - intros e He. apply elem_of_app. by left.
  - intros _. eexists. apply elem_of_app. right. by apply list_elem_of_singleton.
Qed.

Lemma write_bone_fcurves_inv st b slot st' :
  writes_inv matrix times st → write_bone_fcurves matrix st b slot = Ok st' →
  writes_inv matrix times st' ∧
  (∀ e, e ∈ st.2 → e ∈ st'.2) ∧
  (∀ flags k, slot = Some flags → flags !! k = Some true →
              ∃ co, (b, k, co) ∈ st'.2).
Proof.
  intros Hinv. destruct slot as [flags|]; simpl; [|intros [= <-]; done].
  intros Hrun.
  pose proof (for_enumerate_inv (write_fcurve matrix b) flags
    (λ n s, writes_inv matrix times s ∧ (∀ e, e ∈ st.2 → e ∈ s.2) ∧
            ∀ k, k < n → flags !! k = Some true → ∃ co, (b, k, co) ∈ s.2)
    0 st st' Hrun) as Hloop.
  destruct Hloop as (Hinv' & Hmono & Hall).
  - split_and!; [done..|intros; lia].
  - intros n present s s' Hn (Hs & Hsm & Hsall) Hstep. simpl in Hstep.
    destruct (write_fcurve_inv _ _ _ _ _ Hs Hstep) as (Hs' & Hmono' & Hnew).
    split_and!; [done|by auto|].
    intros k Hk Htrue. destruct (decide (k = n)) as [->|Hne].
    + apply Hnew. congruence.
    + destruct (Hsall k ltac:(lia) Htrue) as [co Hco]. eauto.
  - split_and!; [done..|].
    intros flags' k [= <-] Hk. apply Hall; [|done]. by eapply lookup_lt_Some.
Qed.

Lemma write_all_fcurves_inv fcurves st st' :
  writes_inv matrix times st →
  for_enumerate (write_bone_fcurves matrix) 0 fcurves st = Ok st' →
  writes_inv matrix times st' ∧
  ∀ b flags k, fcurves !! b = Some (Some flags) → flags !! k = Some true →
               ∃ co, (b, k, co) ∈ st'.2.
Proof.
  intros Hinv Hrun.
  pose proof (for_enumerate_inv (write_bone_fcurves matrix) fcurves
    (λ n s, writes_inv matrix times s ∧
            ∀ b flags k, b < n → fcurves !! b = Some (Some flags) →
                         flags !! k = Some true → ∃ co, (b, k, co) ∈ s.2)
    0 st st' Hrun) as Hloop.
  destruct Hloop as (Hinv' & Hall).
  - split; [done|intros; lia].
  - intros n slot s s' Hn (Hs & Hsall) Hstep. simpl in Hstep.
    destruct (write_bone_fcurves_inv _ _ _ _ Hs Hstep) as (Hs' & Hmono & Hnew).
    split; [done|].
    intros b flags k Hb Hflags Hk. destruct (decide (b = n)) as [->|Hne].
    + eapply Hnew; [|done]. congruence.
    + destruct (Hsall b flags k ltac:(lia) Hflags Hk) as [co Hco]. eauto.
  - split; [done|]. intros b flags k Hb Hk.
    eapply Hall; [|done..]. by eapply lookup_lt_Some.
Qed.
End KeyframeWrites.

(** [C7] The target frame rate is read off the configured source alone:
    the stored rate of the sequence for ['SEQUENCE'], the custom rate of the
    options for ['CUSTOM'], the rate of the scene for ['SCENE']. For every
    other source the computation raises [ValueError], whatever the rates are
    (the stored rate, assigned first at line 179, is no fallback), and the
    import of the sequence returns nothing. *)
Theorem target_fps_is_exact_lookup (options : PsaImportOptions)
    (scene_fps : Z) (sequence : Sequence) :
  (fps_source options = "SEQUENCE" →
   calculate_target_fps options scene_fps sequence =
     Ok (PyFloat (sequence_fps sequence)))
  ∧ (fps_source options = "CUSTOM" →
     calculate_target_fps options scene_fps sequence =
       Ok (PyFloat (fps_custom options)))
  ∧ (fps_source options = "SCENE" →
     calculate_target_fps options scene_fps sequence = Ok (PyInt scene_fps))
  ∧ (fps_source options ≠ "SEQUENCE" → fps_source options ≠ "CUSTOM" →
     fps_source options ≠ "SCENE" →
     calculate_target_fps options scene_fps sequence =
       Raise (ValueError ("Unknown FPS source: " +:+ fps_source options))
     ∧ ∀ fcurves matrix,
         import_sequence_keyframes options scene_fps sequence fcurves matrix =
           Raise (ValueError ("Unknown FPS source: " +:+ fps_source options))).
Proof.
  unfold import_sequence_keyframes, calculate_target_fps. split_and!.
  - intros ->. done.
  - intros ->. done.
  - intros ->. done.
  - intros H1 H2 H3. rewrite !decide_False by done. done.
Qed.

Lemma import_sequence_keyframes_Ok options scene_fps sequence fcurves matrix
    target written :
  import_sequence_keyframes options scene_fps sequence fcurves matrix =
    Ok (target, written) →
  calculate_target_fps options scene_fps sequence = Ok target ∧
  PrimFloat.eqb (sequence_fps sequence) 0 = false ∧
  let dilation := PrimFloat.div (py_to_float target) (sequence_fps sequence) in
  if should_write_keyframes options then
    ∃ data,
      for_enumerate (write_bone_fcurves matrix) 0 fcurves
        (assign_even (numpy_zeros (2 * frame_count sequence))
           (keyframe_times (frame_count sequence) dilation), [])
      = Ok (data, written)
  else written = [].
Proof.
  unfold import_sequence_keyframes.
  intros (target' & Htarget & (d & Hd & Hrest)%bind_Ok)%bind_Ok.
  unfold py_truediv in Hd.
  destruct (PrimFloat.eqb (sequence_fps sequence) 0) eqn:Hz; [done|].
  injection Hd as <-.
  destruct (should_write_keyframes options).
  - rewrite numpy_assign_even in Hrest.
    2:{ unfold numpy_zeros. rewrite length_replicate, length_keyframe_times. lia. }
    simpl in Hrest.
    apply bind_Ok in Hrest as ([data w] & Hloop & [= <- <-]).
    split_and!; [done..|]. by exists data.
  - injection Hrest as <- <-. done.
Qed.

(** [C8] Whenever the keyframes of a sequence are generated (the matrix
    holding one row per frame), the time dilation is the target rate divided
    by the stored rate of the sequence, every f-curve present on a bone
    receives keyframes, and the keyframe of frame [i] of any f-curve has the
    timestamp [i] times that dilation and, as its value, the entry of the
    matrix for that frame, bone and component: the values are the column of
    the matrix, whatever the rates are. With a stored rate of 30 and a
    ['CUSTOM'] target of 60 the dilation is 2.0 and frame 5 is keyed at
    10.0. *)
Theorem keyframe_times_are_dilated options scene_fps sequence fcurves matrix
    target written :
  import_sequence_keyframes options scene_fps sequence fcurves matrix =
    Ok (target, written) →
  length matrix = frame_count sequence →
  let dilation := PrimFloat.div (py_to_float target) (sequence_fps sequence) in
  calculate_target_fps options scene_fps sequence = Ok target
  ∧ py_truediv target (sequence_fps sequence) = Ok dilation
  ∧ (should_write_keyframes options = true →
     ∀ b flags k, fcurves !! b = Some (Some flags) → flags !! k = Some true →
                  ∃ co, (b, k, co) ∈ written)
  ∧ (∀ b k co, (b, k, co) ∈ written →
       matrix_column matrix b k = Ok co.*2
       ∧ length co = frame_count sequence
       ∧ ∀ i, i < frame_count sequence →
              ∃ frame key v,
                matrix !! i = Some frame ∧ frame !! b = Some key ∧
                key !! k = Some v ∧
                co !! i =
                  Some (PrimFloat.mul (float_of_Z (Z.of_nat i)) dilation, v))
  ∧ (∀ rate frames,
       calculate_target_fps (mkPsaImportOptions true "CUSTOM" 60) rate
         (mkSequence 30 frames) = Ok (PyFloat 60))
  ∧ py_truediv (PyFloat 60) 30 = Ok 2%float
  ∧ keyframe_times 6 2 !! 5 = Some 10%float.
Proof.
  intros Hrun Hshape dilation.
  destruct (import_sequence_keyframes_Ok _ _ _ _ _ _ _ Hrun)
    as (Htarget & Hz & Hwrites).
  fold dilation in Hwrites.
  set (times := keyframe_times (frame_count sequence) dilation) in *.
  assert (Hlt : length times = frame_count sequence)
    by apply length_keyframe_times.
  assert (Hinv0 : writes_inv matrix times
            (assign_even (numpy_zeros (2 * frame_count sequence)) times, [])).
  { destruct (co_pairs_assign_even times
                (numpy_zeros (2 * frame_count sequence))) as [Hco Hlen].
    { unfold numpy_zeros. rewrite length_replicate. lia. }
    split_and!; cbn [fst snd].
    - rewrite Hlen. unfold numpy_zeros. rewrite length_replicate. lia.
    - rewrite Hco. apply fst_zip. rewrite length_fmap.
      rewrite (length_co_pairs _ (frame_count sequence)); [lia|].
      unfold numpy_zeros. by rewrite length_replicate.
    - intros b k co Hin. by apply elem_of_nil in Hin. }
  split_and!.
  - done.
  - unfold py_truediv. by rewrite Hz.
  - intros Hw. rewrite Hw in Hwrites. destruct Hwrites as [data Hloop].
    destruct (write_all_fcurves_inv matrix times ltac:(lia) _ _ _ Hinv0 Hloop)
      as [_ Hall].
    done.
  - intros b k co Hin.
    assert (Hcol : ∃ col, matrix_column matrix b k = Ok col ∧ co = zip times col).
    { destruct (should_write_keyframes options).
      - destruct Hwrites as [data Hloop].
        destruct (write_all_fcurves_inv matrix times ltac:(lia) _ _ _ Hinv0 Hloop)
          as [(_ & _ & Hw) _].
        by apply Hw.
      - simpl in Hwrites. rewrite Hwrites in Hin. by apply elem_of_nil in Hin. }
    destruct Hcol as (col & Hcol & ->).
    destruct (matrix_column_Ok _ _ _ _ Hcol) as [Hcl Hlookup].
    split_and!.
    + rewrite snd_zip by lia. done.
    + rewrite length_zip. lia.
    + intros i Hi.
      destruct (lookup_lt_is_Some_2 col i) as [v Hv]; [lia|].
      pose proof Hv as (frame & key & Hf & Hk & Hkv)%Hlookup.
      exists frame, key, v. split_and!; [done..|].
      apply lookup_zip_with_Some. eexists _, _. split_and!; [done| |done].
      by apply keyframe_times_lookup.
  - intros rate frames. reflexivity.
  - reflexivity.
  - reflexivity.
Qed.

Lemma keyframe_times_are_dilated_witness :
  let options := mkPsaImportOptions true "CUSTOM" 60 in
  let sequence := mkSequence 30 6 in
  let fcurves := [Some [true; false; false; false; false; false; true]; None] in
  let matrix :=
    [ [[1; 2; 3; 4; 5; 6; 7]; [0; 0; 0; 0; 0; 0; 0]];
      [[1.5; 2; 3; 4; 5; 6; 7.5]; [0; 0; 0; 0; 0; 0; 0]];
      [[1; 2; 3; 4; 5; 6; 7]; [0; 0; 0; 0; 0; 0; 0]];
      [[1; 2; 3; 4; 5; 6; 7]; [0; 0; 0; 0; 0; 0; 0]];
      [[1; 2; 3; 4; 5; 6; 7]; [0; 0; 0; 0; 0; 0; 0]];
      [[1; 2; 3; 4; 5; 6; 8]; [0; 0; 0; 0; 0; 0; 0]] ]%float in
  let written :=
    [(0, 0, [(0, 1); (2, 1.5); (4, 1); (6, 1); (8, 1); (10, 1)]%float);
     (0, 6, [(0, 7); (2, 7.5); (4, 7); (6, 7); (8, 7); (10, 8)]%float)] in
  import_sequence_keyframes options 24 sequence fcurves matrix =
    Ok (PyFloat 60, written)
  ∧ length matrix = frame_count sequence
  ∧ py_truediv (PyFloat 60) 30 = Ok 2%float
  ∧ matrix_column matrix 0 6 = Ok [7; 7.5; 7; 7; 7; 8]%float.
Proof.
  intros options sequence fcurves matrix written.
  assert (Hrun : import_sequence_keyframes options 24 sequence fcurves matrix =
                   Ok (PyFloat 60, written)) by reflexivity.
  assert (Hshape : length matrix = frame_count sequence) by reflexivity.
  destruct (keyframe_times_are_dilated options 24 sequence fcurves matrix
              (PyFloat 60) written Hrun Hshape)
    as (_ & Hdil & _ & Hall & _).
  split_and!; [exact Hrun|exact Hshape|exact Hdil|].
  assert (Hin : (0, 6, [(0, 7); (2, 7.5); (4, 7); (6, 7); (8, 7);
                          (10, 8)]%float) ∈ written) by (right; left).
  exact (proj1 (Hall _ _ _ Hin)).
Defined.

(** ** The exporter *)

Lemma c_int32_id (z : Z) : (- 2 ^ 31 ≤ z < 2 ^ 31)%Z → c_int32 z = z.
Proof. intros Hz. unfold c_int32. rewrite Z.mod_small; lia. Qed.

Section ExporterClaims.
Context `{PsaData}.

Lemma write_section_typed (fp : list Written) name t (data : list Datum) :
  write_section fp name (Some t) (Some data) =
  fp ++ WSection (mkSection name (sizeof t) (c_int32 (Z.of_nat (length data))))
     :: (WDatum <$> data).
Proof.
  unfold write_section. simpl.
  rewrite (c_int32_id (sizeof t)) by (pose proof (sizeof_range t); lia).
  by rewrite <- app_assoc.
Qed.

(** [C9] (as amended) [export] writes four sections, in this order: the
    marker section, a header with zero element size and zero element count
    and no record after it; the bone-name section; the sequence-info
    section; the key section. Every section that [write_section] writes
    with a record type and a list of fewer than 2^31 records is the header
    declaring the size of the record type and the length of the list,
    followed by exactly the records of the list, in order. *)
Theorem export_writes_four_sections (psa : Psa) :
  (Z.of_nat (length (psa_bones psa)) < 2 ^ 31)%Z →
  (Z.of_nat (length (psa_sequences psa)) < 2 ^ 31)%Z →
  (Z.of_nat (length (psa_keys psa)) < 2 ^ 31)%Z →
  export psa =
    [WSection (mkSection "ANIMHEAD" 0 0)]
    ++ WSection (mkSection "BONENAMES" (sizeof Psa_Bone)
                   (Z.of_nat (length (psa_bones psa))))
       :: (WDatum ∘ DBone <$> psa_bones psa)
    ++ WSection (mkSection "ANIMINFO" (sizeof Psa_Sequence)
                   (Z.of_nat (length (psa_sequences psa))))
       :: (WDatum ∘ DSequence <$> (psa_sequences psa).*2)
    ++ WSection (mkSection "ANIMKEYS" (sizeof Psa_Key)
                   (Z.of_nat (length (psa_keys psa))))
       :: (WDatum ∘ DKey <$> psa_keys psa)
  ∧ (∀ fp name, write_section fp name None None =
                fp ++ [WSection (mkSection name 0 0)])
  ∧ (∀ fp name t (data : list Datum),
       (Z.of_nat (length data) < 2 ^ 31)%Z →
       write_section fp name (Some t) (Some data) =
       fp ++ WSection (mkSection name (sizeof t) (Z.of_nat (length data)))
          :: (WDatum <$> data)).
Proof.
  intros Hb Hs Hk.
  assert (Hsmall : ∀ n : nat, (Z.of_nat n < 2 ^ 31)%Z →
                     c_int32 (Z.of_nat n) = Z.of_nat n).
  { intros n Hn. apply c_int32_id. lia. }
  split_and!.
  - unfold export. rewrite !write_section_typed. rewrite !length_fmap.
    rewrite !Hsmall by done.
    unfold write_section. simpl. rewrite <- !list_fmap_compose.
    by rewrite <- !app_assoc.
  - done.
  - intros fp name t data Hd. rewrite write_section_typed.
    by rewrite Hsmall.
Qed.
End ExporterClaims.

Lemma export_writes_four_sections_witness :
  let psa := mkPsa [tt; tt] [("Idle", tt)] [tt; tt; tt; tt] in
  (Z.of_nat (length (psa_bones psa)) < 2 ^ 31)%Z ∧
  (Z.of_nat (length (psa_sequences psa)) < 2 ^ 31)%Z ∧
  (Z.of_nat (length (psa_keys psa)) < 2 ^ 31)%Z ∧
  export psa =
    [WSection (mkSection "ANIMHEAD" 0 0);
     WSection (mkSection "BONENAMES" 120 2);
     WDatum (DBone tt); WDatum (DBone tt);
     WSection (mkSection "ANIMINFO" 100 1);
     WDatum (DSequence tt);
     WSection (mkSection "ANIMKEYS" 32 4);
     WDatum (DKey tt); WDatum (DKey tt); WDatum (DKey tt); WDatum (DKey tt)].
Proof.
  intros psa.
  assert (Hb : (Z.of_nat (length (psa_bones psa)) < 2 ^ 31)%Z) by (simpl; lia).
  assert (Hs : (Z.of_nat (length (psa_sequences psa)) < 2 ^ 31)%Z)
    by (simpl; lia).
  assert (Hk : (Z.of_nat (length (psa_keys psa)) < 2 ^ 31)%Z) by (simpl; lia).
  split_and!; [exact Hb|exact Hs|exact Hk|].
  exact (proj1 (export_writes_four_sections psa Hb Hs Hk)).
Defined.

(** A list of 2^31 keys: the element count of the header is the length
    of the list reduced to 32 bits. *)
Lemma export_count_wraps :
  let data := replicate (Z.to_nat (2 ^ 31)) (DKey (tt : PsaKey)) in
  write_section [] "ANIMKEYS" (Some Psa_Key) (Some data) !! 0 =
    Some (WSection (mkSection "ANIMKEYS" 32 (- 2147483648)))
  ∧ Z.of_nat (length data) = 2147483648%Z.
Proof.
  intros data. unfold data.
  rewrite write_section_typed, length_replicate, Z2Nat.id by lia.
  split; reflexivity.
Qed.

(** ** Further properties of the bone mapper *)

Section MapperExtras.
Context `{PyStr}.
Implicit Types (arm psa_names l : list string) (mode : string).






(** [X3] Whatever the ['EXACT'] lookup finds, the ['CASE_INSENSITIVE'] lookup
    finds too, at the same position or at an earlier one. *)
Theorem case_insensitive_covers_exact name (names : list string) i :
  _get_armature_bone_index_for_psa_bone name names "EXACT" = Some i →
  ∃ j, _get_armature_bone_index_for_psa_bone name names "CASE_INSENSITIVE"
         = Some j ∧ j ≤ i.
Proof.
  intros (Hi & _)%get_index_Some%first_match_exact; [|done].
  destruct (_get_armature_bone_index_for_psa_bone name names "CASE_INSENSITIVE")
    as [j|] eqn:Hci.
  - exists j. split; [done|].
    apply get_index_Some in Hci as (a & Ha & Hm & Hmin).
    destruct (decide (j ≤ i)) as [|Hgt]; [done|].
    destruct (Hmin i name Hi ltac:(lia)). apply name_matches_refl.
  - exfalso. eapply get_index_None; [done| |apply name_matches_refl].
    by eapply list_elem_of_lookup_2.
Qed.
End MapperExtras.

Lemma case_insensitive_covers_exact_witness :
  _get_armature_bone_index_for_psa_bone "spine" ["Pelvis"; "SPINE"; "spine"]
    "EXACT" = Some 2
  ∧ ∃ j, _get_armature_bone_index_for_psa_bone "spine"
           ["Pelvis"; "SPINE"; "spine"] "CASE_INSENSITIVE" = Some j ∧ j ≤ 2.
Proof.
  assert (He : _get_armature_bone_index_for_psa_bone "spine"
                 ["Pelvis"; "SPINE"; "spine"] "EXACT" = Some 2) by reflexivity.
  split; [exact He|].
  exact (case_insensitive_covers_exact "spine" ["Pelvis"; "SPINE"; "spine"] 2 He).
Defined.


Section WarningExtras.
Context `{PyStr}.
Implicit Types (arm psa_names l : list string) (mode : string).

Lemma duplicate_warnings_Ok arm st (ds : list (nat * nat * nat)) ws :
  duplicate_warnings arm st ds = Ok ws →
  Forall2 (λ d w, ∃ n a n',
             psa_bone_names st !! d.1.1 = Some n ∧ arm !! d.1.2 = Some a ∧
             psa_bone_names st !! d.2 = Some n' ∧
             w = DuplicateMapping d.1.1 n d.1.2 a d.2 n') ds ws.
Proof.
  revert ws. induction ds as [|[[s t] m] ds IH]; intros ws; simpl.
  - intros [= <-]. constructor.
  - intros (w & Hw & (ws' & Hws' & [= <-])%bind_Ok)%bind_Ok.
    constructor; [|by apply IH].
    unfold duplicate_warning in Hw.
    apply bind_Ok in Hw as (n & Hn%list_get_Ok & Hw).
    apply bind_Ok in Hw as (a & Ha%list_get_Ok & Hw).
    apply bind_Ok in Hw as (n' & Hn'%list_get_Ok & [= <-]).
    simpl. eauto 10.
Qed.

(** [X4] Every duplicate-mapping warning of the mapper stands for a recorded
    duplicate: a PSA bone accepted for a target that an earlier PSA bone
    claims. The three names it carries are one and the same, the name of
    the armature bone: the name of the rejected PSA bone itself does not
    appear in the warning. *)
Theorem duplicate_warning_carries_armature_name armname arm mode psa_names
    st ws s n t a m n' :
  bone_mapper armname arm mode psa_names = Ok (st, ws) →
  DuplicateMapping s n t a m n' ∈ ws →
  arm !! t = Some a ∧ n = a ∧ n' = a ∧
  accepts arm mode psa_names s t ∧
  earliest arm mode psa_names t m ∧ m < s.
Proof.
  unfold bone_mapper.
  intros (st0 & Hst & (dws & Hdws & [= <- <-])%bind_Ok)%bind_Ok Hin.
  pose proof (map_psa_bones_inv _ _ _ _ Hst) as Hinv.
  apply elem_of_app in Hin as [Hin|Hin].
  - apply duplicate_warnings_Ok in Hdws.
    apply list_elem_of_lookup in Hin as [i Hi].
    destruct (Forall2_lookup_r _ _ _ _ _ Hdws Hi)
      as ([[s0 t0] m0] & Hd & n1 & a1 & n1' & Hn1 & Ha1 & Hn1' & Heq).
    simpl in *. injection Heq as -> -> -> -> -> ->.
    apply list_elem_of_lookup_2 in Hd.
    apply (inv_dups _ _ _ _ Hinv) in Hd as (Hacc & Hclaim & Hlt).
    apply (inv_a2p_Some _ _ _ _ Hinv) in Hclaim as Hearly.
    destruct (scan_inv_name_accepted _ _ _ _ _ _ Hinv Hacc) as (a2 & Ha2 & Hs2).
    destruct Hearly as [Hacc' Hmin].
    destruct (scan_inv_name_accepted _ _ _ _ _ _ Hinv Hacc') as (a3 & Ha3 & Hs3).
    split_and!; [done|congruence|congruence|done|by split|done].
  - unfold missing_warning in Hin. case_decide.
    + by apply list_elem_of_singleton in Hin.
    + by apply elem_of_nil in Hin.
Qed.
End WarningExtras.

Lemma duplicate_warning_carries_armature_name_witness :
  let st := mkBoneMapping (<[1:=1]> (<[0:=0]> ∅)) (<[1:=1]> (<[0:=0]> ∅))
              ["Pelvis"; "Spine"; "Spine"] [(2, 1, 1)] in
  let ws := [DuplicateMapping 2 "Spine" 1 "Spine" 1 "Spine"] in
  bone_mapper "Armature" ["Pelvis"; "Spine"] "CASE_INSENSITIVE"
    ["Pelvis"; "Spine"; "spine"] = Ok (st, ws)
  ∧ DuplicateMapping 2 "Spine" 1 "Spine" 1 "Spine" ∈ ws
  ∧ ["Pelvis"; "Spine"; "spine"] !! 2 = Some "spine"
  ∧ accepts ["Pelvis"; "Spine"] "CASE_INSENSITIVE"
      ["Pelvis"; "Spine"; "spine"] 2 1.
Proof.
  intros st ws.
  assert (Hrun : bone_mapper "Armature" ["Pelvis"; "Spine"] "CASE_INSENSITIVE"
                   ["Pelvis"; "Spine"; "spine"] = Ok (st, ws)) by reflexivity.
  assert (Hin : DuplicateMapping 2 "Spine" 1 "Spine" 1 "Spine" ∈ ws) by left.
  split_and!; [exact Hrun|exact Hin|reflexivity|].
  exact (proj1 (proj2 (proj2 (proj2
    (duplicate_warning_carries_armature_name _ _ _ _ _ _ _ _ _ _ _ _
       Hrun Hin))))).
Defined.

Section PlaceholderExtras.
Context `{PyStr} {F : Type} `{Mathutils F}.
Implicit Types (h : list Obj) (bones : list ArmatureBone).

Lemma scan_inv_unmapped arm mode (l : list string) st s n :
  scan_inv arm mode l st → l !! s = Some n →
  psa_to_armature_bone_indices st !! s = None ↔
  _get_armature_bone_index_for_psa_bone n arm mode = None
  ∨ ∃ t m, accepts arm mode l s t ∧ earliest arm mode l t m ∧ m < s.
Proof.
  intros Hinv Hn. split.
  - intros Hnone.
    destruct (_get_armature_bone_index_for_psa_bone n arm mode) as [t|] eqn:HL;
      [|by left].
    right. assert (Hacc : accepts arm mode l s t) by by exists n.
    destruct (armature_to_psa_bone_indices st !! t) as [m|] eqn:Ht.
    + exists t, m. pose proof (inv_a2p_Some _ _ _ _ Hinv _ _ Ht) as Hearly.
      split_and!; [done..|].
      destruct (Nat.lt_trichotomy m s) as [?|[->|Hgt]]; [done| |].
      * destruct (inv_claimant _ _ _ _ Hinv _ _ Ht). congruence.
      * destruct Hearly as [_ Hmin]. by destruct (Hmin s Hgt).
    + by destruct (inv_a2p_None _ _ _ _ Hinv t Ht s).
  - intros Hcase.
    destruct (psa_to_armature_bone_indices st !! s) as [i|] eqn:Hs; [|done].
    exfalso.
    destruct (scan_inv_mapped_accepts _ _ _ _ _ Hinv ltac:(by eexists))
      as (t & (n1 & Hn1 & HL1) & Ht).
    assert (n1 = n) as -> by congruence.
    destruct Hcase as [Hnone|(t' & m & (n2 & Hn2 & HL2) & Hearly & Hlt)];
      [congruence|].
    assert (n2 = n) as -> by congruence.
    assert (t' = t) as -> by congruence.
    apply (scan_inv_a2p _ _ _ _ _ _ Hinv) in Hearly. 
    assert (m = s) by congruence. lia.
Qed.

(** [X5] [import_bones] has one slot per PSA bone. The slot of a PSA bone holds
    [None] exactly when the bone is not mapped, which happens exactly when no
    armature name matches its name or when its target is claimed by an
    earlier PSA bone; every other slot holds an ImportBone that records the
    position of its PSA bone. The objects that were in the store before are
    left as they were. *)
Theorem import_bones_has_placeholders bones mode psa_names st h :
  map_psa_bones (bone_name <$> bones) mode psa_names = Ok st →
  armature_closed bones →
  ∃ ibs h',
    build_import_bones bones psa_names st h = Ok (ibs, h') ∧
    h `prefix_of` h' ∧
    length ibs = length psa_names ∧
    ∀ s n, psa_names !! s = Some n →
      (ibs !! s = Some None ↔
       _get_armature_bone_index_for_psa_bone n (bone_name <$> bones) mode
         = None
       ∨ ∃ t m, accepts (bone_name <$> bones) mode psa_names s t ∧
                earliest (bone_name <$> bones) mode psa_names t m ∧ m < s)
      ∧ (ibs !! s ≠ Some None →
         ∃ ib, ibs !! s = Some (Some ib) ∧ psa_bone ib = s).
Proof.
  intros Hst Hclosed. pose proof (map_psa_bones_inv _ _ _ _ Hst) as Hinv.
  destruct (build_import_bones_runs bones mode psa_names st h Hst Hclosed)
    as (ibs & h' & Hrun & Hpre & Hlen & Hnone & Hsome).
  exists ibs, h'. split_and!; [done..|].
  intros s n Hn. pose proof (lookup_lt_Some _ _ _ Hn) as Hlt. split.
  - rewrite Hnone, <- (scan_inv_unmapped _ _ _ _ _ _ Hinv Hn). naive_solver.
  - intros Hnot. destruct (ibs !! s) as [[ib|]|] eqn:Hib; [|done|].
    + exists ib. split; [done|]. by destruct (Hsome s ib Hib) as (_ & ? & _).
    + apply lookup_ge_None in Hib. lia.
Qed.
End PlaceholderExtras.

Lemma import_bones_has_placeholders_witness :
  let names := ["Pelvis"; "Tail"; "Head"] in
  let st := mkBoneMapping (<[2:=2]> (<[0:=0]> ∅)) (<[2:=2]> (<[0:=0]> ∅))
              names [] in
  map_psa_bones (bone_name <$> example_bones) "EXACT" names = Ok st
  ∧ armature_closed example_bones
  ∧ ∃ ibs h',
      build_import_bones example_bones names st
        [@OVec Z Z_Mathutils (1, 1, 1)%Z] = Ok (ibs, h')
      ∧ [@OVec Z Z_Mathutils (1, 1, 1)%Z] `prefix_of` h'
      ∧ length ibs = 3
      ∧ ibs !! 1 = Some None.
Proof.
  intros names st.
  assert (Hst : map_psa_bones (bone_name <$> example_bones) "EXACT" names
                = Ok st) by reflexivity.
  split_and!; [exact Hst|exact example_bones_closed|].
  destruct (import_bones_has_placeholders example_bones "EXACT" names st
              [@OVec Z Z_Mathutils (1, 1, 1)%Z]
              Hst example_bones_closed)
    as (ibs & h' & Hrun & Hpre & Hlen & Hslots).
  exists ibs, h'. split_and!; [exact Hrun|exact Hpre|exact Hlen|].
  apply (Hslots 1 "Tail" eq_refl). left. reflexivity.
Defined.

(** ** Further properties of the frame rate and the keyframes *)

(** [X6] A stored frame rate of zero, of either sign, stops the import of the
    sequence with [ZeroDivisionError] as soon as the frame-rate source is a
    known one, whether keyframes are to be written or not; an unknown
    source is reported first. *)
Theorem zero_stored_rate_raises options scene_fps sequence fcurves matrix :
  PrimFloat.eqb (sequence_fps sequence) 0 = true →
  import_sequence_keyframes options scene_fps sequence fcurves matrix =
    match calculate_target_fps options scene_fps sequence with
    | Ok _ => Raise ZeroDivisionError
    | Raise e => Raise e
    end.
Proof.
  intros Hz. unfold import_sequence_keyframes.
  destruct (calculate_target_fps options scene_fps sequence) as [t|e]; [|done].
  simpl. unfold py_truediv. by rewrite Hz.
Qed.

Lemma zero_stored_rate_raises_witness :
  PrimFloat.eqb (sequence_fps (mkSequence (-0)%float 3)) 0 = true
  ∧ import_sequence_keyframes (mkPsaImportOptions false "SCENE" 30) 24
      (mkSequence (-0)%float 3) [] [] = Raise ZeroDivisionError
  ∧ import_sequence_keyframes (mkPsaImportOptions true "FILE" 30) 24
      (mkSequence (-0)%float 3) [] [] =
      Raise (ValueError "Unknown FPS source: FILE").
Proof.
  assert (Hz : PrimFloat.eqb (sequence_fps (mkSequence (-0)%float 3)) 0 = true)
    by reflexivity.
  split_and!; [exact Hz| |].
  - exact (zero_stored_rate_raises (mkPsaImportOptions false "SCENE" 30) 24
             (mkSequence (-0)%float 3) [] [] Hz).
  - exact (zero_stored_rate_raises (mkPsaImportOptions true "FILE" 30) 24
             (mkSequence (-0)%float 3) [] [] Hz).
Defined.

Lemma for_enumerate_total {A St} (body : St → nat → A → Result St)
    (l : list A) :
  ∀ (I : nat → St → Prop) start st,
    I 0 st →
    (∀ k x s, l !! k = Some x → I k s →
              ∃ s', body s (start + k) x = Ok s' ∧ I (S k) s') →
    ∃ st', for_enumerate body start l st = Ok st' ∧ I (length l) st'.
Proof.
  induction l as [|x l IH]; intros I start st HI Hstep; simpl.
  - by exists st.
  - destruct (Hstep 0 x st eq_refl HI) as (s1 & Hx & HI1).
    rewrite Nat.add_0_r in Hx. rewrite Hx. simpl.
    apply (IH (λ k, I (S k)) (S start) s1 HI1).
    intros k y s Hy Hs. destruct (Hstep (S k) y s Hy Hs) as (s' & Hb & HI').
    exists s'. by rewrite Nat.add_succ_r in Hb.
Qed.

Lemma matrix_column_total (matrix : list (list (list float))) b k :
  (∀ frame, frame ∈ matrix →
            ∃ key, frame !! b = Some key ∧ is_Some (key !! k)) →
  ∃ col, matrix_column matrix b k = Ok col.
Proof.
  induction matrix as [|frame matrix IH]; intros Hall; simpl; [by eexists|].
  destruct (Hall frame) as (key & Hkey & [v Hv]); [left|].
  unfold list_get. rewrite Hkey. simpl. rewrite Hv. simpl.
  destruct IH as [col ->]; [|by eexists].
  intros f Hf. apply Hall. by right.
Qed.

Lemma present_slots_snoc b flags present :
  present_slots b (flags ++ [present]) =
  present_slots b flags ++ (if present then [(b, length flags)] else []).
Proof.
  unfold present_slots. rewrite imap_app, omap_app. simpl.
  rewrite Nat.add_0_r. by destruct present.
Qed.

Lemma present_fcurves_snoc fcurves slot :
  present_fcurves (fcurves ++ [slot]) =
  present_fcurves fcurves ++
    match slot with
    | Some flags => present_slots (length fcurves) flags
    | None => []
    end.
Proof.
  unfold present_fcurves. rewrite imap_app, join_app. simpl.
  rewrite Nat.add_0_r. by rewrite app_nil_r.
Qed.

Section KeyframeOrder.
Variables (matrix : list (list (list float))) (times : list float).
Hypothesis matrix_shape : length matrix = length times.

Lemma write_fcurve_total b st k present :
  writes_inv matrix times st →
  (present = true → ∃ col, matrix_column matrix b k = Ok col) →
  ∃ st', write_fcurve matrix b st k present = Ok st' ∧
         writes_inv matrix times st' ∧
         st'.2.*1 = st.2.*1 ++ (if present then [(b, k)] else []).
Proof.
  intros Hinv Hcol. destruct present.
  - destruct Hcol as [col Hcol]; [done|].
    destruct (matrix_column_Ok _ _ _ _ Hcol) as [Hcl _].
    destruct Hinv as (Hlen & Htimes & Hwritten).
    assert (Hrun : write_fcurve matrix b st k true =
              Ok (assign_odd st.1 col,
                  st.2 ++ [(b, k, co_pairs (assign_odd st.1 col))])).
    { destruct st as [data written]. simpl in *. rewrite Hcol. simpl.
      rewrite numpy_assign_odd by lia. done. }
    eexists. split; [exact Hrun|].
    destruct (write_fcurve_inv matrix times matrix_shape b st k true _
                (conj Hlen (conj Htimes Hwritten)) Hrun) as (Hinv' & _).
    split; [done|]. simpl. by rewrite fmap_app.
  - exists st. split; [by destruct st|]. split; [done|]. by rewrite app_nil_r.
Qed.

Lemma write_bone_fcurves_total b st slot :
  writes_inv matrix times st →
  (∀ flags k, slot = Some flags → flags !! k = Some true →
              ∃ col, matrix_column matrix b k = Ok col) →
  ∃ st', write_bone_fcurves matrix st b slot = Ok st' ∧
         writes_inv matrix times st' ∧
         st'.2.*1 = st.2.*1 ++
           match slot with
           | Some flags => present_slots b flags
           | None => []
           end.
Proof.
  intros Hinv Hcol. destruct slot as [flags|]; simpl.
  - destruct (for_enumerate_total (write_fcurve matrix b) flags
      (λ n s, writes_inv matrix times s ∧
              s.2.*1 = st.2.*1 ++ present_slots b (take n flags)) 0 st)
      as (st' & Hrun & Hinv' & Hw).
    + split; [done|]. rewrite take_0. by rewrite app_nil_r.
    + intros n present s Hn [Hs Hsw]. simpl.
      destruct (write_fcurve_total b s n present Hs) as (s' & Hrun & Hs' & Hw).
      { intros ->. by eapply Hcol. }
      exists s'. split_and!; [done..|].
      rewrite Hw, Hsw, (take_S_r _ _ _ Hn), present_slots_snoc, <-app_assoc.
      rewrite length_take_le; [done|].
      apply lookup_lt_Some in Hn. lia.
    + exists st'. split_and!; [done..|]. by rewrite Hw, firstn_all.
  - exists st. split_and!; [done..|]. by rewrite app_nil_r.
Qed.

Lemma write_all_fcurves_total fcurves st :
  writes_inv matrix times st →
  (∀ b flags k, fcurves !! b = Some (Some flags) → flags !! k = Some true →
                ∃ col, matrix_column matrix b k = Ok col) →
  ∃ st', for_enumerate (write_bone_fcurves matrix) 0 fcurves st = Ok st' ∧
         writes_inv matrix times st' ∧
         st'.2.*1 = st.2.*1 ++ present_fcurves fcurves.
Proof.
  intros Hinv Hcol.
  destruct (for_enumerate_total (write_bone_fcurves matrix) fcurves
    (λ n s, writes_inv matrix times s ∧
            s.2.*1 = st.2.*1 ++ present_fcurves (take n fcurves)) 0 st)
    as (st' & Hrun & Hinv' & Hw).
  - split; [done|]. rewrite take_0. by rewrite app_nil_r.
  - intros n slot s Hn [Hs Hsw]. simpl.
    destruct (write_bone_fcurves_total n s slot Hs) as (s' & Hrun & Hs' & Hw).
    { intros flags k -> Hk. by eapply Hcol. }
    exists s'. split_and!; [done..|].
    rewrite Hw, Hsw, (take_S_r _ _ _ Hn), present_fcurves_snoc, <-app_assoc.
    rewrite length_take_le; [done|].
    apply lookup_lt_Some in Hn. lia.
  - exists st'. split_and!; [done..|]. by rewrite Hw, firstn_all.
Qed.
End KeyframeOrder.

Lemma write_keyframes_total (frame_count : nat) (dilation : float)
    (fcurves : list (option (list bool))) (matrix : list (list (list float))) :
  length matrix = frame_count →
  (∀ frame b flags k,
     frame ∈ matrix → fcurves !! b = Some (Some flags) →
     flags !! k = Some true →
     ∃ key, frame !! b = Some key ∧ is_Some (key !! k)) →
  let times := keyframe_times frame_count dilation in
  ∃ data data' written,
    numpy_assign 0 (numpy_zeros (2 * frame_count)) times = Ok data
    ∧ for_enumerate (write_bone_fcurves matrix) 0 fcurves (data, [])
      = Ok (data', written)
    ∧ written.*1 = present_fcurves fcurves
    ∧ ∀ b k co, (b, k, co) ∈ written →
        ∃ col, matrix_column matrix b k = Ok col ∧ co = zip times col.
Proof.
  intros Hshape Hkeys times.
  assert (Hlt : length times = frame_count) by apply length_keyframe_times.
  set (data := assign_even (numpy_zeros (2 * frame_count)) times).
  assert (Hzeros : length (numpy_zeros (2 * frame_count)) = 2 * length times).
  { unfold numpy_zeros. rewrite length_replicate. lia. }
  destruct (co_pairs_assign_even times _ Hzeros) as [Hco Hlen].
  assert (Hinv : writes_inv matrix times (data, [])).
  { split_and!; simpl.
    - unfold data. lia.
    - unfold data. rewrite Hco. apply fst_zip.
      rewrite length_fmap, (length_co_pairs _ (length times)); [lia|done].
    - intros b k co Hin. by apply elem_of_nil in Hin. }
  destruct (write_all_fcurves_total matrix times ltac:(lia) fcurves (data, [])
              Hinv) as ([data' written] & Hrun & Hinv' & Hw).
  { intros b flags k Hb Hk. apply matrix_column_total.
    intros frame Hframe. by eapply Hkeys. }
  exists data, data', written. split_and!.
  - by apply numpy_assign_even.
  - exact Hrun.
  - exact Hw.
  - by destruct Hinv' as (_ & _ & Hwritten).
Qed.

(** [X7] With a known frame-rate source, a stored rate other than zero and a
    data matrix of [frame_count] frames that holds a key for every existing
    f-curve, the import of a sequence succeeds, and it writes exactly one
    list of keyframes per existing f-curve, in the order of the bones of
    [import_bones] and, within a bone, of its f-curves: nothing is written
    for a [None] slot, and no f-curve is written twice. Each list pairs the
    dilated timestamps with the column of the matrix of its f-curve. *)
Theorem keyframes_follow_fcurve_order options scene_fps sequence fcurves
    matrix target :
  calculate_target_fps options scene_fps sequence = Ok target →
  PrimFloat.eqb (sequence_fps sequence) 0 = false →
  should_write_keyframes options = true →
  length matrix = frame_count sequence →
  (∀ frame b flags k,
     frame ∈ matrix → fcurves !! b = Some (Some flags) →
     flags !! k = Some true →
     ∃ key, frame !! b = Some key ∧ is_Some (key !! k)) →
  ∃ written,
    import_sequence_keyframes options scene_fps sequence fcurves matrix =
      Ok (target, written)
    ∧ written.*1 = present_fcurves fcurves
    ∧ ∀ b k co, (b, k, co) ∈ written →
        ∃ col, matrix_column matrix b k = Ok col ∧
               co = zip (keyframe_times (frame_count sequence)
                           (PrimFloat.div (py_to_float target)
                              (sequence_fps sequence))) col.
Proof.
  intros Htarget Hfps Hwrite Hshape Hkeys.
  destruct (write_keyframes_total (frame_count sequence)
              (PrimFloat.div (py_to_float target) (sequence_fps sequence))
              fcurves matrix Hshape Hkeys)
    as (data & data' & written & Hdata & Hrun & Horder & Hwritten).
  exists written. unfold import_sequence_keyframes.
  rewrite Htarget. simpl. unfold py_truediv. rewrite Hfps. simpl.
  rewrite Hwrite.
  change (frame_count sequence + (frame_count sequence + 0))
    with (2 * frame_count sequence).
  rewrite Hdata. simpl. rewrite Hrun. simpl.
  done.
Qed.

Lemma keyframes_follow_fcurve_order_witness :
  let options := mkPsaImportOptions true "CUSTOM" 60 in
  let sequence := mkSequence 30 2 in
  let fcurves := [Some [true; false; false; false; false; false; true]; None;
                  Some [false; true; false; false; false; false; false]] in
  let matrix :=
    [ [[1; 2; 3; 4; 5; 6; 7]; [0; 0; 0; 0; 0; 0; 0]; [1; 0; 0; 0; 0; 0; 0]];
      [[1.5; 2; 3; 4; 5; 6; 7.5]; [0; 0; 0; 0; 0; 0; 0];
       [1; 0.5; 0; 0; 0; 0; 0]] ]%float in
  ∃ written,
    import_sequence_keyframes options 24 sequence fcurves matrix =
      Ok (PyFloat 60, written)
    ∧ written.*1 = [(0, 0); (0, 6); (2, 1)].
Proof.
  intros options sequence fcurves matrix.
  destruct (keyframes_follow_fcurve_order options 24 sequence fcurves matrix
              (PyFloat 60)) as (written & Hrun & Horder & _).
  - reflexivity.
  - reflexivity.
  - reflexivity.
  - reflexivity.
  - intros frame b flags k Hframe Hb Hk.
    assert (Hbk : (b = 0 ∧ (k = 0 ∨ k = 6)) ∨ (b = 2 ∧ k = 1)).
    { destruct b as [|[|[|b]]]; simpl in Hb; [| done | | done].
      - injection Hb as <-. left. split; [done|].
        destruct k as [|[|[|[|[|[|[|k]]]]]]]; simpl in Hk; try done; auto.
      - injection Hb as <-. right. split; [done|].
        destruct k as [|[|k]]; simpl in Hk; try done.
        destruct k as [|[|[|[|[|k]]]]]; simpl in Hk; done. }
    unfold matrix in Hframe. apply list_elem_of_In in Hframe.
    destruct Hframe as [<-|[<-|[]]];
      destruct Hbk as [[-> [->| ->]]|[-> ->]]; simpl; eauto.
  - exists written. split; [exact Hrun|exact Horder].
Defined.

(** ** The f-curves of a sequence *)

Section FCurveProofs.
Variables (REMOVE_TRACK_LOCATION REMOVE_TRACK_ROTATION : Z).
Local Abbreviation new_fcurves' :=
  (new_fcurves REMOVE_TRACK_LOCATION REMOVE_TRACK_ROTATION).

Lemma new_fcurves_no_flags : new_fcurves' 0%Z = replicate 7 true.
Proof. unfold new_fcurves. by rewrite !Z.land_0_l. Qed.

Lemma create_fcurves_spec (p2a : gmap nat nat) (items : list (nat * nat))
    (flags : gmap nat Z) (fcurves : list (option (list bool))) :
  items_of p2a items →
  (∀ s, is_Some (p2a !! s) → ∃ old, fcurves !! s = Some (Some old)) →
  ∃ fcurves',
    create_fcurves REMOVE_TRACK_LOCATION REMOVE_TRACK_ROTATION items flags
      fcurves = Ok fcurves'
    ∧ length fcurves' = length fcurves
    ∧ ∀ s, fcurves' !! s =
           match p2a !! s with
           | Some _ => Some (Some (new_fcurves' (default 0%Z (flags !! s))))
           | None => fcurves !! s
           end.
Proof.
  intros Hitems Hslots. unfold create_fcurves.
  destruct (for_enumerate_total
    (create_bone_fcurves REMOVE_TRACK_LOCATION REMOVE_TRACK_ROTATION flags)
    items
    (λ k fc, length fc = length fcurves ∧
             ∀ s, fc !! s =
                  if decide (s ∈ (take k items).*1)
                  then Some (Some (new_fcurves' (default 0%Z (flags !! s))))
                  else fcurves !! s) 0 fcurves) as (fc & Hrun & Hlen & Hfc).
  - split; [done|]. intros s. rewrite take_0. simpl.
    destruct (decide (s ∈ [])) as [Hin|_]; [|done].
    by apply elem_of_nil in Hin.
  - intros k [s t] fc Hk [Hlen Hfc]. simpl.
    assert (Hst : p2a !! s = Some t).
    { apply Hitems. by eapply list_elem_of_lookup_2. }
    destruct (Hslots s) as [old Hold]; [by eexists|].
    assert (Hs : s < length fc).
    { rewrite Hlen. by eapply lookup_lt_Some. }
    destruct (lookup_lt_is_Some_2 fc s Hs) as [slot Hslot].
    assert (∃ cur, slot = Some cur) as [cur ->].
    { rewrite Hfc in Hslot. destruct (decide _); [|rewrite Hold in Hslot];
        injection Hslot as <-; by eexists. }
    unfold create_bone_fcurves, list_get. simpl. rewrite Hslot. simpl.
    eexists. split; [done|]. split; [by rewrite length_insert|].
    intros s'. rewrite (take_S_r _ _ _ Hk), fmap_app. simpl.
    destruct (decide (s' = s)) as [->|Hne].
    + rewrite list_lookup_insert_eq by done.
      rewrite decide_True; [done|]. apply elem_of_app. right.
      by apply list_elem_of_singleton.
    + rewrite list_lookup_insert_ne by done. rewrite Hfc.
      destruct (decide (s' ∈ (take k items).*1)) as [Hin|Hnin].
      * rewrite decide_True; [done|]. apply elem_of_app. by left.
      * rewrite decide_False; [done|].
        intros [Hin|Hin%list_elem_of_singleton]%elem_of_app; done.
  - exists fc. split; [done|]. split; [done|]. intros s. rewrite Hfc.
    rewrite firstn_all.
    destruct (decide (s ∈ items.*1)) as [Hin|Hnin].
    + apply list_elem_of_fmap in Hin as ([s' t] & -> & Hin).
      apply Hitems in Hin. simpl. by rewrite Hin.
    + destruct (p2a !! s) as [t|] eqn:Hst; [|done].
      exfalso. apply Hnin. apply list_elem_of_fmap. exists (s, t).
      split; [done|]. by apply Hitems.
Qed.

End FCurveProofs.

Section FCurvePipeline.
Context `{PyStr} {F : Type} `{Mathutils F}.
Variables (REMOVE_TRACK_LOCATION REMOVE_TRACK_ROTATION : Z).

Lemma create_fcurves_ready bones mode psa_names st ibs h items
    (flags : gmap nat Z) :
  items_of (psa_to_armature_bone_indices st) items →
  scan_inv (bone_name <$> bones) mode psa_names st →
  import_bones_ready bones mode psa_names st ibs h →
  ∃ fcurves,
    create_fcurves REMOVE_TRACK_LOCATION REMOVE_TRACK_ROTATION items flags
      (initial_fcurves ibs)
    = Ok fcurves
    ∧ length fcurves = length psa_names
    ∧ ∀ s, s < length psa_names →
        fcurves !! s =
        Some (match psa_to_armature_bone_indices st !! s with
              | Some _ =>
                  Some (new_fcurves REMOVE_TRACK_LOCATION
                          REMOVE_TRACK_ROTATION (default 0%Z (flags !! s)))
              | None => None
              end).
Proof.
  intros Hitems Hinv Hready. pose proof Hready as (Hlen & Hnone & _).
  assert (Hrange : ∀ s, is_Some (psa_to_armature_bone_indices st !! s) →
                        s < length psa_names).
  { intros s [i (t & n & _ & Hn & _)%(inv_p2a _ _ _ _ Hinv)].
    by eapply lookup_lt_Some. }
  destruct (create_fcurves_spec REMOVE_TRACK_LOCATION REMOVE_TRACK_ROTATION
              (psa_to_armature_bone_indices st) items flags
              (initial_fcurves ibs) Hitems)
    as (fcurves & Hcreate & Hflen & Hslots).
  { intros s Hs.
    destruct (import_bones_ready_mapped _ _ _ _ _ _ s Hready Hs (Hrange s Hs))
      as [ib Hib].
    exists []. unfold initial_fcurves. by rewrite list_lookup_fmap, Hib. }
  exists fcurves. split_and!; [done| |].
  - rewrite Hflen. unfold initial_fcurves. by rewrite length_fmap.
  - intros s Hs. rewrite Hslots.
    destruct (psa_to_armature_bone_indices st !! s) as [i|] eqn:Hi; [done|].
    unfold initial_fcurves. rewrite list_lookup_fmap.
    by rewrite (proj2 (Hnone s) (conj Hs Hi)).
Qed.

(** [X8] After a scan that completes, on ImportBones that lines 128-157 have
    just built, the creation of the f-curves of a sequence never fails, in
    whatever order the dictionary of the mapping yields its items. It
    gives seven slots to every mapped PSA bone and leaves the [None]
    placeholders alone; the rotation slots 0-3 hold f-curves unless the
    flags of the bone have a bit of [REMOVE_TRACK_ROTATION], the location
    slots 4-6 unless they have a bit of [REMOVE_TRACK_LOCATION]. A bone
    without flags, and every bone of a sequence that the configuration does
    not list, gets all seven f-curves, whatever the two constants are. *)
Theorem fcurves_created_for_mapped_bones bones mode psa_names st h items
    (sequence_bone_flags : gmap string (gmap nat Z)) sequence_name :
  map_psa_bones (bone_name <$> bones) mode psa_names = Ok st →
  armature_closed bones →
  items_of (psa_to_armature_bone_indices st) items →
  let flags :=
    get_sequence_bone_track_flags sequence_bone_flags sequence_name in
  ∃ ibs h' fcurves,
    build_import_bones bones psa_names st h = Ok (ibs, h')
    ∧ create_fcurves REMOVE_TRACK_LOCATION REMOVE_TRACK_ROTATION items
        flags (initial_fcurves ibs)
      = Ok fcurves
    ∧ length fcurves = length psa_names
    ∧ (∀ s, s < length psa_names →
         fcurves !! s =
         Some (match psa_to_armature_bone_indices st !! s with
               | Some _ =>
                   let rotation :=
                     bool_decide
                       (Z.land (default 0%Z (flags !! s))
                          REMOVE_TRACK_ROTATION = 0%Z) in
                   let location :=
                     bool_decide
                       (Z.land (default 0%Z (flags !! s))
                          REMOVE_TRACK_LOCATION = 0%Z) in
                   Some (replicate 4 rotation ++ replicate 3 location)
               | None => None
               end))
    ∧ (∀ s, is_Some (psa_to_armature_bone_indices st !! s) →
            flags !! s = None →
            fcurves !! s = Some (Some (replicate 7 true)))
    ∧ (sequence_bone_flags !! sequence_name = None →
       ∀ s, is_Some (psa_to_armature_bone_indices st !! s) →
            fcurves !! s = Some (Some (replicate 7 true))).
Proof.
  intros Hst Hclosed Hitems flags.
  pose proof (map_psa_bones_inv _ _ _ _ Hst) as Hinv.
  destruct (build_import_bones_result bones mode psa_names st h Hst Hclosed)
    as (ibs & h' & Hrun & Hready).
  destruct (create_fcurves_ready bones mode psa_names st ibs h' items flags
              Hitems Hinv Hready) as (fcurves & Hcreate & Hflen & Hslots).
  assert (Hrange : ∀ s, is_Some (psa_to_armature_bone_indices st !! s) →
                        s < length psa_names).
  { intros s [i (t & n & _ & Hn & _)%(inv_p2a _ _ _ _ Hinv)].
    by eapply lookup_lt_Some. }
  assert (Hdefault : ∀ s, is_Some (psa_to_armature_bone_indices st !! s) →
            flags !! s = None →
            fcurves !! s = Some (Some (replicate 7 true))).
  { intros s [i Hi] Hflag.
    rewrite (Hslots s (Hrange s (mk_is_Some _ _ Hi))), Hi, Hflag. simpl.
    by rewrite new_fcurves_no_flags. }
  exists ibs, h', fcurves. split_and!; [done..| |done|].
  - intros s Hs. rewrite (Hslots s Hs).
    by destruct (psa_to_armature_bone_indices st !! s).
  - intros Hseq s Hs. apply Hdefault; [done|].
    unfold flags, get_sequence_bone_track_flags. by rewrite Hseq.
Qed.

End FCurvePipeline.

Lemma example_items :
  items_of (<[2:=2]> (<[0:=0]> (∅ : gmap nat nat))) [(0, 0); (2, 2)].
Proof.
  intros k v. rewrite !elem_of_cons, elem_of_nil.
  rewrite !lookup_insert_Some, lookup_empty. naive_solver.
Qed.

Lemma fcurves_created_for_mapped_bones_witness :
  let names := ["Pelvis"; "Tail"; "Head"] in
  let st := mkBoneMapping (<[2:=2]> (<[0:=0]> ∅)) (<[2:=2]> (<[0:=0]> ∅))
              names [] in
  let config : gmap string (gmap nat Z) :=
    {[ "Run" := {[ 2 := 2%Z ]} ]} in
  map_psa_bones (bone_name <$> example_bones) "EXACT" names = Ok st
  ∧ armature_closed example_bones
  ∧ items_of (psa_to_armature_bone_indices st) [(0, 0); (2, 2)]
  ∧ ∃ ibs h' fcurves,
      build_import_bones example_bones names st [] = Ok (ibs, h')
      ∧ create_fcurves 1 2 [(0, 0); (2, 2)]
          (get_sequence_bone_track_flags config "Run") (initial_fcurves ibs)
        = Ok fcurves
      ∧ fcurves =
        [Some [true; true; true; true; true; true; true]; None;
         Some [false; false; false; false; true; true; true]].
Proof.
  intros names st config.
  assert (Hst : map_psa_bones (bone_name <$> example_bones) "EXACT" names
                = Ok st) by reflexivity.
  assert (Hitems : items_of (psa_to_armature_bone_indices st)
                      [(0, 0); (2, 2)]) by apply example_items.
  split_and!; [exact Hst|exact example_bones_closed|exact Hitems|].
  destruct (fcurves_created_for_mapped_bones 1 2 example_bones "EXACT" names
              st [] [(0, 0); (2, 2)] config "Run" Hst example_bones_closed
              Hitems)
    as (ibs & h' & fcurves & Hrun & Hcreate & Hlen & Hslots & _).
  exists ibs, h', fcurves. split_and!; [exact Hrun|exact Hcreate|].
  pose proof (Hslots 0 ltac:(simpl; lia)) as H0.
  pose proof (Hslots 1 ltac:(simpl; lia)) as H1.
  pose proof (Hslots 2 ltac:(simpl; lia)) as H2.
  destruct fcurves as [|f0 [|f1 [|f2 [|]]]]; try discriminate Hlen.
  simpl in H0, H1, H2.
  injection H0 as ->. injection H1 as ->. injection H2 as ->.
  reflexivity.
Defined.

(** ** The conversion of the sequence data *)

Section ConversionLoop.
Context {F : Type} `{Mathutils F}.
Implicit Types (h : list Obj) (ib : ImportBone)
  (ibs : list (option ImportBone)) (m : list (list (list F))).

Lemma local_key_prefix h h1 ib key new :
  local_key h ib key = Some new → h `prefix_of` h1 →
  local_key h1 ib key = Some new.
Proof.
  unfold local_key. intros Hkey Hpre.
  destruct (h !! post_rotation ib) as [[post|]|] eqn:Hpost; try done.
  destruct (h !! original_rotation ib) as [[orig|]|] eqn:Horig; try done.
  destruct (h !! original_location ib) as [[|oloc]|] eqn:Holoc; try done.
  by rewrite (prefix_lookup_Some _ _ _ _ Hpost Hpre),
    (prefix_lookup_Some _ _ _ _ Horig Hpre),
    (prefix_lookup_Some _ _ _ _ Holoc Hpre).
Qed.

Lemma calculate_local_key h ib key new :
  local_key h ib key = Some new →
  runs (_calculate_fcurve_data ib key) h (λ r h', r = new ∧ h `prefix_of` h').
Proof.
  unfold local_key. intros Hkey.
  destruct (h !! post_rotation ib) as [[post|]|] eqn:Hpost; try done.
  destruct (h !! original_rotation ib) as [[orig|]|] eqn:Horig; try done.
  destruct (h !! original_location ib) as [[|oloc]|] eqn:Holoc; try done.
  destruct key as [|k0 [|k1 [|k2 [|k3 [|k4 [|k5 [|k6 [|]]]]]]]]; try done.
  injection Hkey as <-.
  destruct (calculate_fcurve_data_runs ib h post orig oloc k0 k1 k2 k3 k4 k5 k6
              Hpost Horig Holoc) as (h' & Hrun & Hpre).
  eexists _, h'. split; [exact Hrun|]. done.
Qed.

Lemma converted_where_ext h ibs (P Q : nat → nat → bool) m :
  (∀ f b, f < length m → P f b = Q f b) →
  converted_where h ibs P m = converted_where h ibs Q m.
Proof.
  intros HPQ. unfold converted_where. apply imap_ext. intros f frame Hf.
  apply imap_ext. intros b key Hb. simpl.
  rewrite HPQ; [done|]. by eapply lookup_lt_Some.
Qed.

Lemma converted_where_lookup h ibs P m f frame :
  m !! f = Some frame →
  converted_where h ibs P m !! f =
    Some (imap (λ b key, if P f b then converted_key h ibs b key else key)
            frame).
Proof.
  intros Hf. unfold converted_where. by rewrite list_lookup_imap, Hf.
Qed.

Lemma converted_where_get h ibs P m f b frame key :
  m !! f = Some frame → frame !! b = Some key →
  matrix_get (converted_where h ibs P m) f b =
    Ok (if P f b then converted_key h ibs b key else key).
Proof.
  intros Hf Hb. unfold matrix_get, list_get.
  rewrite (converted_where_lookup _ _ _ _ _ _ Hf). simpl.
  by rewrite list_lookup_imap, Hb.
Qed.

Lemma converted_where_set h ibs P m f b frame key :
  m !! f = Some frame → frame !! b = Some key →
  matrix_set (converted_where h ibs P m) f b (converted_key h ibs b key) =
  converted_where h ibs (λ f' b', P f' b' || (f' =? f) && (b' =? b)) m.
Proof.
  intros Hf Hb. unfold matrix_set.
  rewrite (converted_where_lookup _ _ _ _ _ _ Hf).
  apply list_eq. intros f'. destruct (decide (f' = f)) as [->|Hne].
  - rewrite list_lookup_insert_eq.
    2:{ unfold converted_where. rewrite length_imap. by eapply lookup_lt_Some. }
    rewrite (converted_where_lookup _ _ _ _ _ _ Hf). f_equal.
    apply list_eq. intros b'. destruct (decide (b' = b)) as [->|Hneb].
    + rewrite list_lookup_insert_eq.
      2:{ rewrite length_imap. by eapply lookup_lt_Some. }
      rewrite list_lookup_imap, Hb. simpl.
      by rewrite !Nat.eqb_refl, orb_true_r.
    + rewrite list_lookup_insert_ne by done. rewrite !list_lookup_imap.
      destruct (frame !! b') as [key'|]; [|done]. simpl.
      rewrite Nat.eqb_refl. simpl.
      by rewrite (proj2 (Nat.eqb_neq b' b) Hneb), orb_false_r.
  - rewrite list_lookup_insert_ne by done.
    unfold converted_where. rewrite !list_lookup_imap.
    destruct (m !! f') as [frame'|]; [|done]. simpl. f_equal.
    apply imap_ext. intros b' key' _. simpl.
    by rewrite (proj2 (Nat.eqb_neq f' f) Hne), orb_false_r.
Qed.

Lemma convert_bone_runs h ibs m b ib h1 :
  ibs !! b = Some (Some ib) →
  (∀ frame, frame ∈ m →
            ∃ key, frame !! b = Some key ∧ is_Some (local_key h ib key)) →
  h `prefix_of` h1 →
  runs (convert_bone (length m) (converted_where h ibs (λ _ b', b' <? b) m)
          b (Some ib)) h1
    (λ m' h2, h `prefix_of` h2 ∧
              m' = converted_where h ibs (λ _ b', b' <? S b) m).
Proof.
  intros Hib Hkeys Hpre. simpl.
  eapply runs_mono.
  { apply (py_for_enumerate_runs (convert_key ib b) (seq 0 (length m))
      (λ k m' h2, h `prefix_of` h2 ∧
         m' = converted_where h ibs
                (λ f b', (b' <? b) || (b' =? b) && (f <? k)) m)).
    - split; [done|]. apply converted_where_ext. intros f b' _.
      by rewrite andb_false_r, orb_false_r.
    - intros k x m' h2 Hx [Hpre2 ->]. simpl.
      apply lookup_seq in Hx as [-> Hk]. simpl in *.
      destruct (lookup_lt_is_Some_2 m k Hk) as [frame Hframe].
      destruct (Hkeys frame) as (key & Hkey & [new Hnew]).
      { by eapply list_elem_of_lookup_2. }
      unfold convert_key.
      rewrite (converted_where_get _ _ _ _ _ _ _ _ Hframe Hkey).
      rewrite !Nat.ltb_irrefl, andb_false_r. simpl.
      apply runs_bind. eapply runs_mono.
      { apply calculate_local_key.
        exact (local_key_prefix _ _ _ _ _ Hnew Hpre2). }
      intros r h3 [-> Hpre3]. apply runs_ret.
      split; [by etrans|].
      assert (Hconv : new = converted_key h ibs b key).
      { unfold converted_key. by rewrite Hib, Hnew. }
      rewrite Hconv, (converted_where_set _ _ _ _ _ _ _ _ Hframe Hkey).
      apply converted_where_ext. intros f b' _.
      destruct (Nat.eqb_spec b' b), (Nat.eqb_spec f k), (Nat.ltb_spec b' b),
        (Nat.ltb_spec f k), (Nat.ltb_spec f (S k)); simpl; try done; lia. }
  intros m' h2 [Hpre2 ->]. split; [done|].
  rewrite length_seq. apply converted_where_ext. intros f b' Hf.
  rewrite (proj2 (Nat.ltb_lt f (length m)) Hf), andb_true_r.
  destruct (Nat.ltb_spec b' b), (Nat.eqb_spec b' b), (Nat.ltb_spec b' (S b));
    simpl; try done; lia.
Qed.

Lemma convert_sequence_data_runs h ibs m :
  (∀ frame b ib, frame ∈ m → ibs !! b = Some (Some ib) →
     ∃ key, frame !! b = Some key ∧ is_Some (local_key h ib key)) →
  runs (convert_sequence_data ibs (length m) m) h
    (λ m' h', h `prefix_of` h' ∧ m' = imap (converted_key h ibs) <$> m).
Proof.
  intros Hkeys. unfold convert_sequence_data. eapply runs_mono.
  { apply (py_for_enumerate_runs (convert_bone (length m)) ibs
      (λ n m' h2, h `prefix_of` h2 ∧
                  m' = converted_where h ibs (λ _ b', b' <? n) m)).
    - split; [done|]. unfold converted_where.
      apply list_eq. intros f. rewrite list_lookup_imap.
      destruct (m !! f) as [frame|]; [|done]. simpl. f_equal.
      apply list_eq. intros b. rewrite list_lookup_imap.
      by destruct (frame !! b).
    - intros n slot m' h2 Hn [Hpre2 ->]. simpl.
      destruct slot as [ib|].
      + apply convert_bone_runs; [done| |done].
        intros frame Hframe. by eapply Hkeys.
      + apply runs_ret. split; [done|].
        apply list_eq. intros f. unfold converted_where.
        rewrite !list_lookup_imap.
        destruct (m !! f) as [frame|]; [|done]. simpl. f_equal.
        apply imap_ext. intros b key _. simpl.
        destruct (Nat.ltb_spec b n), (Nat.ltb_spec b (S n)); try done; try lia.
        assert (b = n) as -> by lia.
        unfold converted_key. by rewrite Hn. }
  intros m' h' [Hpre ->]. split; [done|].
  apply list_eq. intros f. unfold converted_where.
  rewrite list_lookup_imap, list_lookup_fmap.
  destruct (m !! f) as [frame|]; [|done]. simpl. f_equal.
  apply imap_ext. intros b key _. simpl.
  destruct (Nat.ltb_spec b (length ibs)) as [Hlt|Hge]; [done|].
  unfold converted_key. by rewrite (lookup_ge_None_2 _ _ Hge).
Qed.

(** [X9] On a matrix of [frame_count] frames that holds, for every ImportBone
    of [import_bones], a key of seven numbers in each frame, the conversion
    loop succeeds. It replaces every key of a bone that has an ImportBone
    by the result of [_calculate_fcurve_data] on the key as it was read,
    and leaves every other key as it was: the keys at the [None]
    placeholders and those of the bones beyond [import_bones]. The shape of
    the matrix is kept, and the objects of the store, the fields of the
    ImportBones among them, are left as they were. *)
Theorem conversion_rewrites_mapped_keys h ibs frame_count m :
  frame_count = length m →
  (∀ frame b ib, frame ∈ m → ibs !! b = Some (Some ib) →
     ∃ key, frame !! b = Some key ∧ is_Some (local_key h ib key)) →
  ∃ m' h',
    convert_sequence_data ibs frame_count m h = Ok (m', h')
    ∧ h `prefix_of` h'
    ∧ m' = imap (converted_key h ibs) <$> m
    ∧ length m' = length m
    ∧ ∀ f frame, m !! f = Some frame →
        ∃ frame', m' !! f = Some frame' ∧ length frame' = length frame ∧
          ∀ b key, frame !! b = Some key →
            (∀ ib, ibs !! b = Some (Some ib) →
                   Some <$> frame' !! b = Some (local_key h ib key)) ∧
            (ibs !! b = Some None ∨ ibs !! b = None →
             frame' !! b = Some key).
Proof.
  intros -> Hkeys.
  destruct (convert_sequence_data_runs h ibs m Hkeys)
    as (m' & h' & Hrun & Hpre & ->).
  exists (imap (converted_key h ibs) <$> m), h'.
  split_and!; [done..|by rewrite length_fmap|].
  intros f frame Hf. exists (imap (converted_key h ibs) frame).
  split_and!; [by rewrite list_lookup_fmap, Hf|by rewrite length_imap|].
  intros b key Hb. rewrite list_lookup_imap, Hb. simpl.
  unfold converted_key. split.
  - intros ib Hib. rewrite Hib.
    destruct (Hkeys frame b ib) as (key' & Hkey' & [new Hnew]); [|done|].
    { by eapply list_elem_of_lookup_2. }
    assert (key' = key) as -> by congruence. by rewrite Hnew.
  - by intros [-> | ->].
Qed.

End ConversionLoop.

Lemma conversion_rewrites_mapped_keys_witness :
  let ib := mkImportBone 0 None pelvis 0 1 2 in
  let h := [OVec (0, 0, 1)%Z; OQuat (0, 1, 0, 0)%Z; OQuat (0, -1, 0, 0)%Z] in
  let m := [ [[0; 0; 1; 0; 1; 2; 4]; [9; 9; 9; 9; 9; 9; 9]];
             [[1; 0; 0; 0; 0; 0; 1]; [8; 8; 8; 8; 8; 8; 8]] ]%Z in
  ∃ m' h',
    convert_sequence_data [Some ib; None] 2 m h = Ok (m', h')
    ∧ h `prefix_of` h'
    ∧ m' = [ [[0; 0; 0; 1; 1; -2; -3]; [9; 9; 9; 9; 9; 9; 9]];
             [[0; 1; 0; 0; 0; 0; 0]; [8; 8; 8; 8; 8; 8; 8]] ]%Z.
Proof.
  intros ib h m.
  destruct (conversion_rewrites_mapped_keys h [Some ib; None] 2 m)
    as (m' & h' & Hrun & Hpre & Hm' & _).
  - reflexivity.
  - intros frame b ib' Hframe Hb.
    destruct b as [|[|b]]; simpl in Hb; try done. injection Hb as <-.
    unfold m in Hframe. apply list_elem_of_In in Hframe.
    destruct Hframe as [<-|[<-|[]]]; simpl; eexists; (split; [done|]);
      by eexists.
  - exists m', h'. split_and!; [exact Hrun|exact Hpre|].
    rewrite Hm'. reflexivity.
Defined.

Section ConversionPipeline.
Context `{PyStr} {F : Type} `{Mathutils F}.
Implicit Types (h : list Obj) (ib : ImportBone)
  (ibs : list (option ImportBone)) (m : list (list (list F))).

Lemma holds_bind_pose_local_key h ib (key : list F) :
  holds_bind_pose h ib → length key = 7 →
  ∃ new, local_key h ib key = Some new ∧ length new = 7.
Proof.
  intros (ol & or & Hol & Hor & Hpr & _) Hlen.
  destruct key as [|k0 [|k1 [|k2 [|k3 [|k4 [|k5 [|k6 [|]]]]]]]]; try done.
  unfold local_key. rewrite Hol, Hor, Hpr. by eexists.
Qed.

Lemma ready_local_keys bones mode psa_names st ibs h m :
  import_bones_ready bones mode psa_names st ibs h →
  (∀ frame, frame ∈ m →
     length psa_names ≤ length frame ∧
     ∀ key, key ∈ frame → length key = 7) →
  ∀ frame b ib, frame ∈ m → ibs !! b = Some (Some ib) →
    ∃ key, frame !! b = Some key ∧ is_Some (local_key h ib key).
Proof.
  intros (Hlen & Hnone & Hsome) Hshape frame b ib Hframe Hib.
  destruct (Hshape frame Hframe) as [Hbones Hseven].
  destruct (lookup_lt_is_Some_2 frame b) as [key Hkey].
  { apply lookup_lt_Some in Hib. lia. }
  exists key. split; [done|].
  destruct (Hsome b ib Hib) as (_ & _ & _ & Hpose & _).
  destruct (holds_bind_pose_local_key h ib key Hpose) as (new & -> & _);
    [|by eexists].
  apply Hseven. by eapply list_elem_of_lookup_2.
Qed.

Lemma converted_key_length bones mode psa_names st ibs h b (key : list F) :
  import_bones_ready bones mode psa_names st ibs h →
  length key = 7 → length (converted_key h ibs b key) = 7.
Proof.
  intros (_ & _ & Hsome) Hk7. unfold converted_key.
  destruct (ibs !! b) as [[ib|]|] eqn:Hib; [|done..].
  destruct (Hsome b ib Hib) as (_ & _ & _ & Hpose & _).
  by destruct (holds_bind_pose_local_key h ib key Hpose Hk7)
    as (new & -> & Hnew).
Qed.

(** [X10] After a scan that completes, the ImportBones that lines 128-157 build
    make the conversion loop succeed on every matrix that holds a key of
    seven numbers for each PSA bone in each of its frames. The converted
    matrix has the shape of the matrix read; the keys of the PSA bones that
    are not mapped are the keys read, and so are the keys beyond the PSA
    bones. The objects that were in the store before the import are left as
    they were. *)
Theorem conversion_succeeds_after_scan bones mode psa_names st h m :
  map_psa_bones (bone_name <$> bones) mode psa_names = Ok st →
  armature_closed bones →
  (∀ frame, frame ∈ m →
     length psa_names ≤ length frame ∧
     ∀ key, key ∈ frame → length key = 7) →
  ∃ ibs h1 m' h2,
    build_import_bones bones psa_names st h = Ok (ibs, h1)
    ∧ convert_sequence_data ibs (length m) m h1 = Ok (m', h2)
    ∧ h `prefix_of` h2
    ∧ length m' = length m
    ∧ ∀ f frame, m !! f = Some frame →
        ∃ frame', m' !! f = Some frame'
          ∧ length frame' = length frame
          ∧ (∀ key, key ∈ frame' → length key = 7)
          ∧ ∀ s, psa_to_armature_bone_indices st !! s = None →
                 frame' !! s = frame !! s.
Proof.
  intros Hst Hclosed Hshape.
  destruct (build_import_bones_runs bones mode psa_names st h Hst Hclosed)
    as (ibs & h1 & Hbuild & Hpre & Hready).
  pose proof Hready as (Hlen & Hnone & Hsome).
  pose proof (ready_local_keys _ _ _ _ _ _ _ Hready Hshape) as Hkeys.
  destruct (convert_sequence_data_runs h1 ibs m Hkeys)
    as (m' & h2 & Hrun & Hpre2 & ->).
  exists ibs, h1, (imap (converted_key h1 ibs) <$> m), h2.
  split_and!; [done|done|by etrans|by rewrite length_fmap|].
  intros f frame Hf. exists (imap (converted_key h1 ibs) frame).
  assert (Hframe : frame ∈ m) by by eapply list_elem_of_lookup_2.
  destruct (Hshape frame Hframe) as [Hbones Hseven].
  split_and!.
  - by rewrite list_lookup_fmap, Hf.
  - by rewrite length_imap.
  - intros key' (b & Hb)%list_elem_of_lookup_1.
    rewrite list_lookup_imap in Hb.
    destruct (frame !! b) as [key|] eqn:Hkey; [|done].
    injection Hb as <-.
    eapply converted_key_length; [done|].
    apply Hseven. by eapply list_elem_of_lookup_2.
  - intros s Hs. rewrite list_lookup_imap.
    destruct (frame !! s) as [key|] eqn:Hkey; [|done]. simpl. f_equal.
    unfold converted_key. destruct (ibs !! s) as [[ib|]|] eqn:Hib; [|done..].
    destruct (Hsome s ib Hib) as ([i Hi] & _). congruence.
Qed.

End ConversionPipeline.

Lemma conversion_succeeds_after_scan_witness :
  let names := ["Pelvis"; "Tail"; "Head"] in
  let st := mkBoneMapping (<[2:=2]> (<[0:=0]> ∅)) (<[2:=2]> (<[0:=0]> ∅))
              names [] in
  let m := [ [[1; 0; 0; 0; 0; 0; 1]; [5; 5; 5; 5; 5; 5; 5];
              [0; 0; 1; 0; 0; 1; 3]] ]%Z in
  map_psa_bones (bone_name <$> example_bones) "EXACT" names = Ok st
  ∧ armature_closed example_bones
  ∧ ∃ ibs h1 m' h2 frame',
      build_import_bones example_bones names st [] = Ok (ibs, h1)
      ∧ convert_sequence_data ibs 1 m h1 = Ok (m', h2)
      ∧ m' !! 0 = Some frame'
      ∧ length frame' = 3
      ∧ frame' !! 1 = Some [5; 5; 5; 5; 5; 5; 5]%Z.
Proof.
  intros names st m.
  assert (Hst : map_psa_bones (bone_name <$> example_bones) "EXACT" names
                = Ok st) by reflexivity.
  split_and!; [exact Hst|exact example_bones_closed|].
  destruct (conversion_succeeds_after_scan example_bones "EXACT" names st []
              m Hst example_bones_closed)
    as (ibs & h1 & m' & h2 & Hbuild & Hrun & _ & _ & Hframes).
  - intros frame Hframe. unfold m in Hframe.
    apply list_elem_of_In in Hframe. destruct Hframe as [<-|[]].
    split; [simpl; lia|]. intros key Hkey.
    apply list_elem_of_In in Hkey. by destruct Hkey as [<-|[<-|[<-|[]]]].
  - destruct (Hframes 0 _ eq_refl) as (frame' & Hf & Hlen & _ & Hsame).
    exists ibs, h1, m', h2, frame'.
    split_and!; [exact Hbuild|exact Hrun|exact Hf|exact Hlen|].
    exact (Hsame 1 eq_refl).
Defined.

(** ** One sequence, from the scan to the keyframes *)

Lemma present_slots_all b :
  present_slots b (replicate 7 true) = (λ k, (b, k)) <$> seq 0 7.
Proof. reflexivity. Qed.

Lemma present_fcurves_closed_form (fcurves : list (option (list bool)))
    (slots : nat → option (list bool)) :
  (∀ s, s < length fcurves → fcurves !! s = Some (slots s)) →
  present_fcurves fcurves =
  flat_map (λ s, match slots s with
                 | Some flags => present_slots s flags
                 | None => []
                 end) (seq 0 (length fcurves)).
Proof.
  induction fcurves as [|slot fcurves IH] using rev_ind; intros Hslots.
  - reflexivity.
  - rewrite present_fcurves_snoc, length_app. simpl.
    rewrite Nat.add_1_r, seq_S, flat_map_app. simpl. rewrite app_nil_r.
    rewrite IH.
    + f_equal. specialize (Hslots (length fcurves)).
      rewrite lookup_app_r, Nat.sub_diag in Hslots by lia. simpl in Hslots.
      rewrite length_app in Hslots. simpl in Hslots.
      by injection (Hslots ltac:(lia)) as ->.
    + intros s Hs. rewrite <- (Hslots s).
      * by rewrite lookup_app_l.
      * rewrite length_app. simpl. lia.
Qed.

Lemma elem_of_present_fcurves (fcurves : list (option (list bool))) b k :
  (b, k) ∈ present_fcurves fcurves ↔
  ∃ slots, fcurves !! b = Some (Some slots) ∧ slots !! k = Some true.
Proof.
  unfold present_fcurves, present_slots. split.
  - intros (l & Hbk & (b' & Hl)%list_elem_of_lookup_1)%list_elem_of_join.
    rewrite list_lookup_imap in Hl.
    destruct (fcurves !! b') as [[slots|]|] eqn:Hb'; simpl in Hl;
      try done; injection Hl as <-; [|by apply elem_of_nil in Hbk].
    apply list_elem_of_omap in Hbk
      as (o & (k' & Ho)%list_elem_of_lookup_1 & Hbk).
    rewrite list_lookup_imap in Ho.
    destruct (slots !! k') as [[|]|] eqn:Hk'; simpl in Ho; try done;
      injection Ho as <-; [|done].
    injection Hbk as <- <-. by exists slots.
  - intros (slots & Hb & Hk). apply list_elem_of_join.
    exists (omap id (imap (λ k' (p : bool), if p then Some (b, k') else None)
                       slots)).
    split.
    + apply list_elem_of_omap. exists (Some (b, k)). split; [|done].
      apply list_elem_of_lookup. exists k.
      by rewrite list_lookup_imap, Hk.
    + apply list_elem_of_lookup. exists b. by rewrite list_lookup_imap, Hb.
Qed.

Section SequencePipeline.
Context `{PyStr} `{Mathutils float}.
Variables (REMOVE_TRACK_LOCATION REMOVE_TRACK_ROTATION : Z).

Lemma runs_lift {A} (r : Result A) (a : A) h (Q : A → list Obj → Prop) :
  r = Ok a → Q a h → runs (lift r) h Q.
Proof. intros -> HQ. by exists a, h. Qed.

(** [X11] After a scan that completes, with a known frame-rate source, a stored
    rate other than zero and a data matrix of [frame_count] frames that
    holds a key of seven numbers for each PSA bone, the import of a
    sequence on the ImportBones just built goes through all of its steps
    without an exception. The keyframes it writes are one list per existing
    f-curve, in the order of the PSA bones and, within a bone, of its
    f-curves; every list belongs to a mapped PSA bone and pairs the
    dilated timestamps with the column of the converted matrix. For a
    sequence that the configuration does not list these are the seven
    f-curves of every mapped PSA bone. The objects that were in the store
    before the import are left as they were. *)
Theorem sequence_import_covers_mapped_bones bones mode psa_names st h
    items options scene_fps sequence_bone_flags sequence_name sequence
    matrix target :
  map_psa_bones (bone_name <$> bones) mode psa_names = Ok st →
  armature_closed bones →
  items_of (psa_to_armature_bone_indices st) items →
  calculate_target_fps options scene_fps sequence = Ok target →
  PrimFloat.eqb (sequence_fps sequence) 0 = false →
  should_write_keyframes options = true →
  length matrix = frame_count sequence →
  (∀ frame, frame ∈ matrix →
     length psa_names ≤ length frame ∧
     ∀ key, key ∈ frame → length key = 7) →
  let times :=
    keyframe_times (frame_count sequence)
      (PrimFloat.div (py_to_float target) (sequence_fps sequence)) in
  ∃ ibs h1 fcurves written h2,
    build_import_bones bones psa_names st h = Ok (ibs, h1)
    ∧ import_sequence REMOVE_TRACK_LOCATION REMOVE_TRACK_ROTATION options
        scene_fps sequence_bone_flags items ibs (initial_fcurves ibs)
        sequence_name sequence matrix h1
      = Ok ((target, fcurves, written), h2)
    ∧ h `prefix_of` h2
    ∧ written.*1 = present_fcurves fcurves
    ∧ (∀ b k co, (b, k, co) ∈ written →
         is_Some (psa_to_armature_bone_indices st !! b) ∧ k < 7 ∧
         ∃ col, matrix_column (imap (converted_key h1 ibs) <$> matrix) b k
                  = Ok col ∧
                co = zip times col)
    ∧ (sequence_bone_flags !! sequence_name = None →
       written.*1 =
       flat_map (λ s, match psa_to_armature_bone_indices st !! s with
                      | Some _ => (λ k, (s, k)) <$> seq 0 7
                      | None => []
                      end) (seq 0 (length psa_names))).
Proof.
  intros Hst Hclosed Hitems Htarget Hfps Hwrite Hframes Hshape times.
  pose proof (map_psa_bones_inv _ _ _ _ Hst) as Hinv.
  destruct (build_import_bones_runs bones mode psa_names st h Hst Hclosed)
    as (ibs & h1 & Hbuild & Hpre & Hready).
  set (flags := get_sequence_bone_track_flags sequence_bone_flags
                  sequence_name).
  destruct (create_fcurves_ready REMOVE_TRACK_LOCATION REMOVE_TRACK_ROTATION
              bones mode psa_names st ibs h1 items flags Hitems Hinv Hready)
    as (fcurves & Hcreate & Hflen & Hslots).
  pose proof (ready_local_keys _ _ _ _ _ _ _ Hready Hshape) as Hkeys.
  destruct (convert_sequence_data_runs h1 ibs matrix Hkeys)
    as (m' & h2 & Hconv & Hpre2 & ->).
  set (m' := imap (converted_key h1 ibs) <$> matrix) in *.
  assert (Hpresent : ∀ b slots k, fcurves !! b = Some (Some slots) →
            slots !! k = Some true →
            is_Some (psa_to_armature_bone_indices st !! b) ∧
            b < length psa_names ∧ k < 7).
  { intros b slots k Hb Hk.
    assert (Hlt : b < length psa_names).
    { rewrite <- Hflen. by eapply lookup_lt_Some. }
    rewrite (Hslots b Hlt) in Hb.
    destruct (psa_to_armature_bone_indices st !! b) as [i|]; [|done].
    injection Hb as <-. split; [by eexists|]. split; [done|].
    apply lookup_lt_Some in Hk. exact Hk. }
  destruct (write_keyframes_total (frame_count sequence)
              (PrimFloat.div (py_to_float target) (sequence_fps sequence))
              fcurves m')
    as (data & data' & written & Hdata & Hrun & Horder & Hwritten).
  { unfold m'. by rewrite length_fmap. }
  { intros frame' b slots k Hframe' Hb Hk.
    destruct (Hpresent b slots k Hb Hk) as (_ & Hlt & Hk7).
    unfold m' in Hframe'.
    apply list_elem_of_fmap in Hframe' as (frame & -> & Hframe).
    destruct (Hshape frame Hframe) as [Hbones Hseven].
    destruct (lookup_lt_is_Some_2 frame b) as [key Hkey]; [lia|].
    exists (converted_key h1 ibs b key).
    split; [by rewrite list_lookup_imap, Hkey|].
    apply lookup_lt_is_Some_2.
    rewrite (converted_key_length _ _ _ _ _ _ _ _ Hready); [done|].
    apply Hseven. by eapply list_elem_of_lookup_2. }
  exists ibs, h1, fcurves, written, h2.
  split_and!; [done| |by etrans|done| |].
  - unfold import_sequence, mbind, Py_bind, lift.
    rewrite Htarget. unfold py_truediv. rewrite Hfps, Hwrite.
    fold flags. rewrite Hcreate, <- Hframes, Hconv, Hframes. fold m'.
    rewrite Hdata, Hrun. done.
  - intros b k co Hin.
    assert (Hbk : (b, k) ∈ present_fcurves fcurves).
    { rewrite <- Horder. apply list_elem_of_fmap. by exists (b, k, co). }
    apply elem_of_present_fcurves in Hbk as (slots & Hb & Hk).
    destruct (Hpresent b slots k Hb Hk) as (Hmapped & _ & Hk7).
    split_and!; [done..|]. by apply Hwritten.
  - intros Hseq. rewrite Horder.
    rewrite (present_fcurves_closed_form fcurves
               (λ s, match psa_to_armature_bone_indices st !! s with
                     | Some _ => Some (replicate 7 true)
                     | None => None
                     end)).
    + rewrite Hflen. apply flat_map_ext. intros s.
      by destruct (psa_to_armature_bone_indices st !! s).
    + intros s Hs. rewrite Hflen in Hs. rewrite (Hslots s Hs).
      destruct (psa_to_armature_bone_indices st !! s); [|done].
      unfold flags, get_sequence_bone_track_flags. rewrite Hseq. simpl.
      rewrite lookup_empty. simpl. by rewrite new_fcurves_no_flags.
Qed.

End SequencePipeline.

Lemma float_bones_closed : armature_closed float_bones.
Proof.
  intros b p Hb Hp. unfold float_bones in Hb.
  repeat (apply elem_of_cons in Hb as [->|Hb]); simpl in Hp;
    try discriminate; try (by apply elem_of_nil in Hb).
  - injection Hp as <-. simpl. set_solver.
  - injection Hp as <-. simpl. set_solver.
Qed.

Lemma sequence_import_covers_mapped_bones_witness :
  let names := ["Pelvis"; "Tail"; "Head"] in
  let st := mkBoneMapping (<[2:=2]> (<[0:=0]> ∅)) (<[2:=2]> (<[0:=0]> ∅))
              names [] in
  let options := mkPsaImportOptions true "CUSTOM" 60 in
  let sequence := mkSequence 30 2 in
  let matrix :=
    [ [[1; 0; 0; 0; 0; 0; 1]; [5; 5; 5; 5; 5; 5; 5]; [0; 0; 1; 0; 0; 1; 3]];
      [[1; 0; 0; 0; 0; 0; 2]; [5; 5; 5; 5; 5; 5; 5]; [0; 0; 1; 0; 0; 1; 4]]
    ]%float in
  map_psa_bones (bone_name <$> float_bones) "EXACT" names = Ok st
  ∧ armature_closed float_bones
  ∧ items_of (psa_to_armature_bone_indices st) [(0, 0); (2, 2)]
  ∧ ∃ ibs h1 fcurves written h2,
      build_import_bones float_bones names st [] = Ok (ibs, h1)
      ∧ import_sequence (H := float_Mathutils) 1 2 options 24 ∅
          [(0, 0); (2, 2)] ibs (initial_fcurves ibs)
          "Run" sequence matrix h1
        = Ok ((PyFloat 60, fcurves, written), h2)
      ∧ written.*1 =
        [(0, 0); (0, 1); (0, 2); (0, 3); (0, 4); (0, 5); (0, 6);
         (2, 0); (2, 1); (2, 2); (2, 3); (2, 4); (2, 5); (2, 6)].
Proof.
  intros names st options sequence matrix.
  assert (Hst : map_psa_bones (bone_name <$> float_bones) "EXACT" names
                = Ok st) by reflexivity.
  assert (Hitems : items_of (psa_to_armature_bone_indices st)
                      [(0, 0); (2, 2)]) by apply example_items.
  split_and!; [exact Hst|exact float_bones_closed|exact Hitems|].
  destruct (sequence_import_covers_mapped_bones (H0 := float_Mathutils) 1 2
              float_bones "EXACT" names st [] [(0, 0); (2, 2)] options 24 ∅
              "Run" sequence matrix (PyFloat 60) Hst float_bones_closed
              Hitems)
    as (ibs & h1 & fcurves & written & h2 & Hbuild & Hrun & _ & _ & _ & Hall).
  - reflexivity.
  - reflexivity.
  - reflexivity.
  - reflexivity.
  - intros frame Hframe. unfold matrix in Hframe.
    apply list_elem_of_In in Hframe. destruct Hframe as [<-|[<-|[]]];
      (split; [simpl; lia|]); intros key Hkey;
      apply list_elem_of_In in Hkey; by destruct Hkey as [<-|[<-|[<-|[]]]].
  - exists ibs, h1, fcurves, written, h2.
    split_and!; [exact Hbuild|exact Hrun|].
    exact (Hall eq_refl).
Defined.

(** ** Several sequences *)

Lemma written_determined (times : list float)
    (matrix : list (list (list float))) (fcurves : list (option (list bool)))
    (written : list (nat * nat * list (float * float))) :
  written.*1 = present_fcurves fcurves →
  (∀ b k co, (b, k, co) ∈ written →
     ∃ col, matrix_column matrix b k = Ok col ∧ co = zip times col) →
  written = sequence_written times matrix fcurves.
Proof.
  unfold sequence_written. generalize (present_fcurves fcurves).
  induction written as [|[[b k] co] written IH]; intros l Hl Hall.
  - by destruct l.
  - destruct l as [|bk l]; [done|]. simpl in Hl. injection Hl as <- Hl.
    destruct (Hall b k co) as (col & Hcol & ->); [left|].
    simpl. rewrite Hcol. f_equal. apply IH; [done|].
    intros b' k' co' Hin. apply Hall. by right.
Qed.

Section SequencesProofs.
Context `{PyStr} `{Mathutils float}.
Variables (REMOVE_TRACK_LOCATION REMOVE_TRACK_ROTATION : Z).
Implicit Types (h : list Obj) (ibs : list (option ImportBone))
  (fcurves : list (option (list bool))).

Local Abbreviation sequence_fcurves' :=
  (sequence_fcurves REMOVE_TRACK_LOCATION REMOVE_TRACK_ROTATION).

Lemma slots_fit_initial bones mode psa_names st ibs h :
  scan_inv (bone_name <$> bones) mode psa_names st →
  import_bones_ready bones mode psa_names st ibs h →
  slots_fit (psa_to_armature_bone_indices st) (length psa_names)
    (initial_fcurves ibs).
Proof.
  intros Hinv Hready. pose proof Hready as (Hlen & Hnone & _).
  split; [unfold initial_fcurves; by rewrite length_fmap|].
  intros s Hs. unfold initial_fcurves. rewrite list_lookup_fmap.
  destruct (psa_to_armature_bone_indices st !! s) as [i|] eqn:Hi.
  - destruct (import_bones_ready_mapped _ _ _ _ _ _ s Hready
                (mk_is_Some _ _ Hi) Hs) as [ib ->].
    by eexists.
  - by rewrite (proj2 (Hnone s) (conj Hs Hi)).
Qed.

Lemma slots_fit_sequence_fcurves p2a flags n :
  slots_fit p2a n (sequence_fcurves' p2a flags n).
Proof.
  unfold sequence_fcurves. split; [by rewrite length_fmap, length_seq|].
  intros s Hs. rewrite list_lookup_fmap, lookup_seq_lt by done. simpl.
  destruct (p2a !! s); [by eexists|done].
Qed.

Lemma create_fcurves_fit p2a items flags n fcurves :
  items_of p2a items →
  (∀ s, is_Some (p2a !! s) → s < n) →
  slots_fit p2a n fcurves →
  create_fcurves REMOVE_TRACK_LOCATION REMOVE_TRACK_ROTATION items flags
    fcurves = Ok (sequence_fcurves' p2a flags n).
Proof.
  intros Hitems Hrange [Hlen Hfit].
  destruct (create_fcurves_spec REMOVE_TRACK_LOCATION REMOVE_TRACK_ROTATION
              p2a items flags fcurves Hitems)
    as (fcurves' & Hcreate & Hflen & Hslots).
  { intros s Hs. specialize (Hfit s (Hrange s Hs)).
    destruct Hs as [i Hi]. by rewrite Hi in Hfit. }
  rewrite Hcreate. f_equal. apply list_eq. intros s.
  unfold sequence_fcurves. rewrite list_lookup_fmap, Hslots.
  destruct (decide (s < n)) as [Hs|Hs].
  - rewrite lookup_seq_lt by done. simpl.
    specialize (Hfit s Hs). by destruct (p2a !! s).
  - rewrite lookup_seq_ge by lia. simpl.
    destruct (p2a !! s) as [i|] eqn:Hi.
    + exfalso. apply Hs, Hrange. by eexists.
    + apply lookup_ge_None. lia.
Qed.

Lemma converted_key_prefix bones mode psa_names st ibs h1 h b
    (key : list float) :
  import_bones_ready bones mode psa_names st ibs h1 →
  h1 `prefix_of` h → length key = 7 →
  converted_key h ibs b key = converted_key h1 ibs b key.
Proof.
  intros (_ & _ & Hsome) Hpre Hk7. unfold converted_key.
  destruct (ibs !! b) as [[ib|]|] eqn:Hib; [|done..].
  destruct (Hsome b ib Hib) as (_ & _ & _ & Hpose & _).
  destruct (holds_bind_pose_local_key h1 ib key Hpose Hk7)
    as (new & Hnew & _).
  by rewrite Hnew, (local_key_prefix _ _ _ _ _ Hnew Hpre).
Qed.

(** The value of one sequence does not depend on the [fcurves] attributes
    it starts from, nor on what the store has grown by. *)
Lemma import_sequence_value bones mode psa_names st items ibs h1 h fcurves
    options scene_fps sequence_bone_flags sequence_name sequence matrix
    target :
  scan_inv (bone_name <$> bones) mode psa_names st →
  items_of (psa_to_armature_bone_indices st) items →
  import_bones_ready bones mode psa_names st ibs h1 →
  h1 `prefix_of` h →
  slots_fit (psa_to_armature_bone_indices st) (length psa_names) fcurves →
  calculate_target_fps options scene_fps sequence = Ok target →
  well_formed_sequence (length psa_names) sequence matrix →
  let flags :=
    get_sequence_bone_track_flags sequence_bone_flags sequence_name in
  let times :=
    keyframe_times (frame_count sequence)
      (PrimFloat.div (py_to_float target) (sequence_fps sequence)) in
  let created :=
    sequence_fcurves' (psa_to_armature_bone_indices st) flags
      (length psa_names) in
  ∃ h',
    import_sequence REMOVE_TRACK_LOCATION REMOVE_TRACK_ROTATION options
      scene_fps sequence_bone_flags items ibs fcurves sequence_name sequence
      matrix h
    = Ok ((target,
           (if should_write_keyframes options then created else fcurves),
           (if should_write_keyframes options
            then sequence_written times
                   (imap (converted_key h1 ibs) <$> matrix) created
            else [])), h')
    ∧ h `prefix_of` h'.
Proof.
  intros Hinv Hitems Hready Hpre Hfit Htarget (Hfps & Hframes & Hshape)
    flags times created.
  unfold import_sequence, mbind, Py_bind, lift.
  rewrite Htarget. unfold py_truediv. rewrite Hfps.
  destruct (should_write_keyframes options) eqn:Hwrite; [|by exists h].
  assert (Hrange : ∀ s, is_Some (psa_to_armature_bone_indices st !! s) →
                        s < length psa_names).
  { intros s [i (t & n & _ & Hn & _)%(inv_p2a _ _ _ _ Hinv)].
    by eapply lookup_lt_Some. }
  fold flags.
  rewrite (create_fcurves_fit _ _ flags _ _ Hitems Hrange Hfit).
  fold created.
  assert (Hkeys : ∀ frame b ib, frame ∈ matrix → ibs !! b = Some (Some ib) →
            ∃ key, frame !! b = Some key ∧ is_Some (local_key h ib key)).
  { intros frame b ib Hframe Hib.
    destruct (ready_local_keys _ _ _ _ _ _ _ Hready Hshape frame b ib
                Hframe Hib) as (key & Hkey & [new Hnew]).
    exists key. split; [done|]. exists new.
    by eapply local_key_prefix. }
  destruct (convert_sequence_data_runs h ibs matrix Hkeys)
    as (m' & h2 & Hconv & Hpre2 & ->).
  assert (Hsame : imap (converted_key h ibs) <$> matrix =
                  imap (converted_key h1 ibs) <$> matrix).
  { apply list_fmap_ext. intros f frame Hframe. apply imap_ext.
    intros b key Hkey. simpl.
    eapply converted_key_prefix; [done..|].
    apply (Hshape frame); by eapply list_elem_of_lookup_2. }
  rewrite Hsame in Hconv. clear Hsame.
  set (m' := imap (converted_key h1 ibs) <$> matrix) in *.
  destruct (write_keyframes_total (frame_count sequence)
              (PrimFloat.div (py_to_float target) (sequence_fps sequence))
              created m')
    as (data & data' & written & Hdata & Hrun & Horder & Hwritten).
  { unfold m'. by rewrite length_fmap. }
  { intros frame' b slots k Hframe' Hb Hk.
    assert (Hlt : b < length psa_names).
    { apply lookup_lt_Some in Hb. unfold created, sequence_fcurves in Hb.
      by rewrite length_fmap, length_seq in Hb. }
    assert (Hk7 : k < 7).
    { unfold created, sequence_fcurves in Hb.
      rewrite list_lookup_fmap, lookup_seq_lt in Hb by done. simpl in Hb.
      destruct (psa_to_armature_bone_indices st !! b); [|done].
      injection Hb as <-. apply lookup_lt_Some in Hk. exact Hk. }
    unfold m' in Hframe'.
    apply list_elem_of_fmap in Hframe' as (frame & -> & Hframe).
    destruct (Hshape frame Hframe) as [Hbones Hseven].
    destruct (lookup_lt_is_Some_2 frame b) as [key Hkey]; [lia|].
    exists (converted_key h1 ibs b key).
    split; [by rewrite list_lookup_imap, Hkey|].
    apply lookup_lt_is_Some_2.
    rewrite (converted_key_length _ _ _ _ _ _ _ _ Hready); [done|].
    apply Hseven. by eapply list_elem_of_lookup_2. }
  exists h2. split; [|done].
  rewrite <- Hframes, Hconv, Hframes. fold m'. rewrite Hdata, Hrun.
  by rewrite (written_determined times m' created written Horder Hwritten).
Qed.

Lemma import_sequence_target options scene_fps sequence_bone_flags items
    ibs fcurves sequence_name sequence matrix h target fcurves' written h' :
  import_sequence REMOVE_TRACK_LOCATION REMOVE_TRACK_ROTATION options
    scene_fps sequence_bone_flags items ibs fcurves sequence_name sequence
    matrix h
  = Ok ((target, fcurves', written), h') →
  calculate_target_fps options scene_fps sequence = Ok target.
Proof.
  unfold import_sequence, mbind, Py_bind, lift.
  destruct (calculate_target_fps options scene_fps sequence) as [t|];
    [|done].
  destruct (py_truediv t (sequence_fps sequence)); [|done].
  destruct (should_write_keyframes options); [|by intros [= -> _ _ _]].
  destruct (create_fcurves _ _ _ _ _); [|done].
  destruct (convert_sequence_data _ _ _ _) as [[? ?]|]; [|done].
  destruct (numpy_assign _ _ _); [|done].
  destruct (for_enumerate _ _ _ _) as [[? ?]|]; [|done].
  by intros [= -> _ _ _].
Qed.

(** [X18] Every sequence of a batch gets what importing it alone gives. After a
    scan that completes, with a frame-rate source that is known and
    sequences that are well formed, the loop over the requested sequences
    raises nothing and returns one result per sequence, in the order of the
    request; the target frame rate and the keyframes of a sequence are the
    ones that the import of this sequence alone, right after the
    ImportBones have been built, would give. The f-curves that an earlier
    sequence has left on the ImportBones and the objects that it has left
    in the store change nothing. *)
Theorem sequences_are_imported_independently bones mode psa_names st h
    items options scene_fps sequence_bone_flags
    (sequences : list (string * Sequence * list (list (list float)))) :
  map_psa_bones (bone_name <$> bones) mode psa_names = Ok st →
  armature_closed bones →
  items_of (psa_to_armature_bone_indices st) items →
  (∀ name sequence matrix, (name, sequence, matrix) ∈ sequences →
     succeeds (calculate_target_fps options scene_fps sequence) ∧
     well_formed_sequence (length psa_names) sequence matrix) →
  ∃ ibs h1 actions h2,
    build_import_bones bones psa_names st h = Ok (ibs, h1)
    ∧ import_sequences REMOVE_TRACK_LOCATION REMOVE_TRACK_ROTATION options
        scene_fps sequence_bone_flags items ibs sequences h1
      = Ok (actions, h2)
    ∧ h `prefix_of` h2
    ∧ length actions = length sequences
    ∧ ∀ k name sequence matrix,
        sequences !! k = Some (name, sequence, matrix) →
        ∃ target fcurves written h',
          import_sequence REMOVE_TRACK_LOCATION REMOVE_TRACK_ROTATION
            options scene_fps sequence_bone_flags items ibs
            (initial_fcurves ibs) name sequence matrix h1
          = Ok ((target, fcurves, written), h')
          ∧ actions !! k = Some (target, written).
Proof.
  intros Hst Hclosed Hitems Hseqs.
  pose proof (map_psa_bones_inv _ _ _ _ Hst) as Hinv.
  destruct (build_import_bones_runs bones mode psa_names st h Hst Hclosed)
    as (ibs & h1 & Hbuild & Hpre & Hready).
  pose proof (slots_fit_initial _ _ _ _ _ _ Hinv Hready) as Hfit0.
  set (alone := λ (x : string * Sequence * list (list (list float)))
                  (a : PyNum * list (nat * nat * list (float * float))),
         ∃ fcurves h',
           import_sequence REMOVE_TRACK_LOCATION REMOVE_TRACK_ROTATION
             options scene_fps sequence_bone_flags items ibs
             (initial_fcurves ibs) x.1.1 x.1.2 x.2 h1
           = Ok ((a.1, fcurves, a.2), h')).
  cut (runs
         (import_sequences REMOVE_TRACK_LOCATION REMOVE_TRACK_ROTATION options
            scene_fps sequence_bone_flags items ibs sequences) h1
         (λ actions h2, h1 `prefix_of` h2 ∧ Forall2 alone sequences actions)).
  { intros (actions & h2 & Hrun & Hpre2 & Hall).
    exists ibs, h1, actions, h2. split_and!; [done|done|by etrans| |].
    - symmetry. by eapply Forall2_length.
    - intros k name sequence matrix Hk.
      destruct (Forall2_lookup_l _ _ _ _ _ Hall Hk)
        as ([target written] & Hact & fcurves & h' & Halone).
      by exists target, fcurves, written, h'. }
  unfold import_sequences. apply runs_bind. eapply runs_mono.
  { apply (py_for_enumerate_runs _ sequences
      (λ k s h2, h1 `prefix_of` h2 ∧
         slots_fit (psa_to_armature_bone_indices st) (length psa_names) s.1 ∧
         Forall2 alone (take k sequences) s.2)).
    - split_and!; [done|done|]. rewrite take_0. constructor.
    - intros k [[name sequence] matrix] [fc acts] h2 Hk (Hpre2 & Hfit & Hall).
      simpl in *.
      destruct (Hseqs name sequence matrix) as ([target Htarget] & Hwf).
      { by eapply list_elem_of_lookup_2. }
      destruct (import_sequence_value bones mode psa_names st items ibs h1 h2
                  fc options scene_fps sequence_bone_flags name sequence
                  matrix target Hinv Hitems Hready Hpre2 Hfit Htarget Hwf)
        as (h3 & Hrun & Hpre3).
      destruct (import_sequence_value bones mode psa_names st items ibs h1 h1
                  (initial_fcurves ibs) options scene_fps sequence_bone_flags
                  name sequence matrix target Hinv Hitems Hready
                  ltac:(done) Hfit0 Htarget Hwf)
        as (h4 & Halone & _).
      apply runs_bind. eexists _, h3. split; [exact Hrun|].
      apply runs_ret. simpl. split_and!.
      + by etrans.
      + destruct (should_write_keyframes options); [|done].
        apply slots_fit_sequence_fcurves.
      + rewrite (take_S_r _ _ _ Hk). apply Forall2_app; [done|].
        constructor; [|constructor]. unfold alone. simpl.
        eexists _, h4. exact Halone. }
  intros [fc actions] h2 (Hpre2 & _ & Hall). apply runs_ret.
  rewrite firstn_all in Hall. by split.
Qed.

End SequencesProofs.

Lemma sequences_are_imported_independently_witness :
  let names := ["Pelvis"; "Tail"; "Head"] in
  let st := mkBoneMapping (<[2:=2]> (<[0:=0]> ∅)) (<[2:=2]> (<[0:=0]> ∅))
              names [] in
  let options := mkPsaImportOptions true "SEQUENCE" 60 in
  let run :=
    ("Run", mkSequence 30 1,
     [ [[1; 0; 0; 0; 0; 0; 1]; [5; 5; 5; 5; 5; 5; 5];
        [0; 0; 1; 0; 0; 1; 3]] ]%float) in
  let idle :=
    ("Idle", mkSequence 15 1,
     [ [[1; 0; 0; 0; 0; 0; 2]; [5; 5; 5; 5; 5; 5; 5];
        [0; 0; 1; 0; 0; 1; 4]] ]%float) in
  let config : gmap string (gmap nat Z) := {[ "Run" := {[ 2 := 2%Z ]} ]} in
  map_psa_bones (bone_name <$> float_bones) "EXACT" names = Ok st
  ∧ armature_closed float_bones
  ∧ items_of (psa_to_armature_bone_indices st) [(0, 0); (2, 2)]
  ∧ ∃ ibs h1 actions h2 run_written idle_written,
      build_import_bones float_bones names st [] = Ok (ibs, h1)
      ∧ import_sequences (H := float_Mathutils) 1 2 options 24 config
          [(0, 0); (2, 2)] ibs [run; idle] h1
        = Ok (actions, h2)
      ∧ actions = [(PyFloat 30, run_written); (PyFloat 15, idle_written)]
      ∧ ∃ fcurves h',
          import_sequence (H := float_Mathutils) 1 2 options 24 config
            [(0, 0); (2, 2)] ibs (initial_fcurves ibs) "Idle"
            (mkSequence 15 1) idle.2 h1
          = Ok ((PyFloat 15, fcurves, idle_written), h').
Proof.
  intros names st options run idle config.
  assert (Hst : map_psa_bones (bone_name <$> float_bones) "EXACT" names
                = Ok st) by reflexivity.
  assert (Hitems : items_of (psa_to_armature_bone_indices st)
                      [(0, 0); (2, 2)]) by apply example_items.
  split_and!; [exact Hst|exact float_bones_closed|exact Hitems|].
  destruct (sequences_are_imported_independently (H0 := float_Mathutils) 1 2
              float_bones "EXACT" names st [] [(0, 0); (2, 2)] options 24
              config [run; idle] Hst float_bones_closed Hitems)
    as (ibs & h1 & actions & h2 & Hbuild & Hrun & _ & Hlen & Hall).
  - intros name sequence matrix Hin.
    apply list_elem_of_In in Hin.
    destruct Hin as [[= <- <- <-]|[[= <- <- <-]|[]]].
    + split; [by eexists|]. split_and!; [reflexivity..|].
      intros frame Hframe. apply list_elem_of_In in Hframe.
      destruct Hframe as [<-|[]]. split; [simpl; lia|].
      intros key Hkey. apply list_elem_of_In in Hkey.
      by destruct Hkey as [<-|[<-|[<-|[]]]].
    + split; [by eexists|]. split_and!; [reflexivity..|].
      intros frame Hframe. apply list_elem_of_In in Hframe.
      destruct Hframe as [<-|[]]. split; [simpl; lia|].
      intros key Hkey. apply list_elem_of_In in Hkey.
      by destruct Hkey as [<-|[<-|[<-|[]]]].
  - destruct (Hall 0 _ _ _ eq_refl)
      as (t0 & fc0 & w0 & h0' & Hrun0 & Hact0).
    destruct (Hall 1 _ _ _ eq_refl)
      as (t1 & fc1 & w1 & h1' & Hrun1 & Hact1).
    pose proof (import_sequence_target (H0 := float_Mathutils) _ _ _ _ _ _ _
                  _ _ _ _ _ _ _ _ _ Hrun0) as Ht0.
    pose proof (import_sequence_target (H0 := float_Mathutils) _ _ _ _ _ _ _
                  _ _ _ _ _ _ _ _ _ Hrun1) as Ht1.
    assert (t0 = PyFloat 30) by (by injection Ht0).
    assert (t1 = PyFloat 15) by (by injection Ht1).
    subst t0 t1.
    exists ibs, h1, actions, h2, w0, w1.
    split_and!; [exact Hbuild|exact Hrun| |by exists fc1, h1'].
    destruct actions as [|a0 [|a1 [|]]]; try discriminate Hlen.
    simpl in Hact0, Hact1. by injection Hact0 as ->; injection Hact1 as ->.
Defined.

(** ** The export dialog *)

Lemma for_enumerate_alter {A B} (body : list B → nat → A → Result (list B))
    (g : A → B → B) (l : list A) :
  (∀ x st i, x ∈ l → body st i x = Ok (alter (g x) i st)) →
  ∀ pre st, length st = length l →
    for_enumerate body (length pre) l (pre ++ st) =
    Ok (pre ++ zip_with g l st).
Proof.
  induction l as [|x l IH]; intros Hbody pre st Hlen.
  - destruct st; [|done]. done.
  - destruct st as [|b st]; [done|]. simpl.
    rewrite Hbody by left. simpl.
    rewrite alter_app_r_alt by lia. rewrite Nat.sub_diag. simpl.
    rewrite (cons_middle (g x b) pre st), app_assoc.
    replace (S (length pre)) with (length (pre ++ [g x b]))
      by (rewrite length_app; simpl; lia).
    rewrite IH.
    + by rewrite <- app_assoc.
    + intros y st' i Hy. apply Hbody. by right.
    + simpl in Hlen. lia.
Qed.

Lemma for_enumerate_pointwise {A B}
    (body : list B → nat → A → Result (list B)) (g : A → B → B)
    (f : A → B) (l : list A) :
  (∀ x st i, x ∈ l → body st i x = Ok (alter (g x) i st)) →
  for_enumerate body 0 l (f <$> l) = Ok ((λ x, g x (f x)) <$> l).
Proof.
  intros Hbody.
  pose proof (for_enumerate_alter body g l Hbody [] (f <$> l)) as Hrun.
  simpl in Hrun. rewrite Hrun by by rewrite length_fmap.
  f_equal. rewrite zip_with_fmap_r, zip_with_diag. done.
Qed.

Section ExportDialogProofs.
Variable fnmatch : string → string → bool.
Implicit Types (pg : PsaExportPropertyGroup) (l : list ListItem).

Local Abbreviation clear_flag :=
  (λ flag : Z, Z.land flag (Z.lnot bitflag_filter_item)).

Lemma filter_by_asset_raises l :
  forallb (λ item, match item_action item with
                   | ActionUnset => false
                   | _ => true
                   end) l = false →
  ∀ start st, for_enumerate filter_by_asset start l st = Raise AttributeError.
Proof.
  induction l as [|x l IH]; intros Hall start st; [done|].
  cbn [for_enumerate forallb] in *.
  destruct (filter_by_asset st start x) as [st'|e] eqn:Hstep;
    unfold filter_by_asset in Hstep;
    destruct (item_action x) as [| |[|]]; simpl in *; try done;
    try (by apply IH); by injection Hstep as <-.
Qed.

Lemma filter_by_asset_alter l :
  forallb (λ item, match item_action item with
                   | ActionUnset => false
                   | _ => true
                   end) l = true →
  ∀ x st i, x ∈ l →
    filter_by_asset st i x =
    Ok (alter (λ flag, if is_asset x then clear_flag flag else flag) i st).
Proof.
  intros Hall x st i Hx.
  rewrite forallb_forall in Hall. apply list_elem_of_In in Hx.
  specialize (Hall x Hx). unfold filter_by_asset, is_asset.
  destruct (item_action x) as [| |[|]]; try done;
    by rewrite list_alter_id by done.
Qed.

Lemma flag_of_shown pg item :
  let named := fnmatch (item_name item)
                 ("*" +:+ sequence_filter_name pg +:+ "*") in
  let flag1 := if negb named then clear_flag bitflag_filter_item
               else bitflag_filter_item in
  let flag2 := if negb (sequence_filter_asset pg) && is_asset item
               then clear_flag flag1 else flag1 in
  (if sequence_use_filter_invert pg
   then Z.lxor flag2 bitflag_filter_item else flag2) =
  if shown fnmatch pg item then bitflag_filter_item else 0%Z.
Proof.
  unfold shown. simpl.
  by destruct (fnmatch _ _), (sequence_filter_asset pg), (is_asset item),
    (sequence_use_filter_invert pg).
Qed.

Lemma filter_sequences_spec pg l :
  filter_sequences fnmatch pg (Some l) =
  if actions_readable pg l
  then Ok ((λ item, if shown fnmatch pg item
                    then bitflag_filter_item else 0%Z) <$> l)
  else Raise AttributeError.
Proof.
  unfold filter_sequences, actions_readable.
  rewrite <- (const_fmap (λ _, bitflag_filter_item) l bitflag_filter_item)
    by done.
  rewrite (for_enumerate_pointwise (filter_by_name fnmatch pg)
             (λ x flag, if negb (fnmatch (item_name x)
                                   ("*" +:+ sequence_filter_name pg +:+ "*"))
                        then clear_flag flag else flag)).
  2:{ intros x st i _. unfold filter_by_name.
      destruct (negb _); [done|by rewrite list_alter_id by done]. }
  simpl.
  destruct (sequence_filter_asset pg) eqn:Hasset; simpl.
  - destruct (sequence_use_filter_invert pg) eqn:Hinvert; simpl.
    + rewrite (for_enumerate_pointwise filter_invert
                 (λ _ flag, Z.lxor flag bitflag_filter_item)) by done.
      simpl. f_equal. apply list_fmap_ext. intros i x _.
      rewrite <- flag_of_shown. by rewrite Hasset, Hinvert.
    + f_equal. apply list_fmap_ext. intros i x _.
      rewrite <- flag_of_shown. by rewrite Hasset, Hinvert.
  - destruct (forallb _ l) eqn:Hall.
    2:{ by rewrite filter_by_asset_raises. }
    rewrite (for_enumerate_pointwise filter_by_asset
               (λ x flag, if is_asset x then clear_flag flag else flag))
      by by apply filter_by_asset_alter.
    simpl. destruct (sequence_use_filter_invert pg) eqn:Hinvert; simpl.
    + rewrite (for_enumerate_pointwise filter_invert
                 (λ _ flag, Z.lxor flag bitflag_filter_item)) by done.
      simpl. f_equal. apply list_fmap_ext. intros i x _.
      rewrite <- flag_of_shown. by rewrite Hasset, Hinvert.
    + f_equal. apply list_fmap_ext. intros i x _.
      rewrite <- flag_of_shown. by rewrite Hasset, Hinvert.
Qed.

Lemma shown_positions_snoc pg l x :
  shown_positions fnmatch pg (l ++ [x]) =
  shown_positions fnmatch pg l ++
    (if shown fnmatch pg x then [length l] else []).
Proof.
  unfold shown_positions. rewrite imap_app, omap_app. simpl.
  rewrite Nat.add_0_r. by destruct (shown fnmatch pg x).
Qed.

Lemma visible_loop pg (all : list ListItem) : ∀ l rest,
  all = l ++ rest →
  for_enumerate
    (λ visible_sequences i flag,
       if bool_decide (Z.land flag (Z.shiftl 1 30) ≠ 0%Z)
       then _ ← list_get all i; Ok (visible_sequences ++ [i])
       else Ok visible_sequences)
    0 ((λ item, if shown fnmatch pg item
                then bitflag_filter_item else 0%Z) <$> l) [] =
  Ok (shown_positions fnmatch pg l).
Proof.
  induction l as [|x l IH] using rev_ind; intros rest Hall; [done|].
  rewrite fmap_app. cbn [fmap list_fmap]. rewrite for_enumerate_snoc.
  rewrite (IH ([x] ++ rest)) by by rewrite Hall, <- app_assoc.
  simpl. rewrite length_fmap, shown_positions_snoc.
  destruct (shown fnmatch pg x); simpl.
  - unfold list_get. rewrite Hall, <- app_assoc.
    change ([x] ++ rest) with (x :: rest).
    by rewrite list_lookup_middle.
  - by rewrite app_nil_r.
Qed.

Lemma get_visible_sequences_spec pg l :
  get_visible_sequences fnmatch pg (Some l) =
  if actions_readable pg l then Ok (shown_positions fnmatch pg l)
  else Raise AttributeError.
Proof.
  unfold get_visible_sequences. rewrite filter_sequences_spec.
  destruct (actions_readable pg l); [|done]. simpl.
  by apply (visible_loop pg l l []), eq_sym, app_nil_r.
Qed.

Lemma elem_of_shown_positions pg l i :
  i ∈ shown_positions fnmatch pg l ↔
  ∃ item, l !! i = Some item ∧ shown fnmatch pg item = true.
Proof.
  unfold shown_positions. rewrite list_elem_of_omap. split.
  - intros (o & (j & Ho)%list_elem_of_lookup_1 & Hi).
    rewrite list_lookup_imap in Ho.
    destruct (l !! j) as [item|] eqn:Hj; [|done]. simpl in Ho.
    destruct (shown fnmatch pg item) eqn:Hshown; injection Ho as <-;
      [|done].
    injection Hi as <-. by exists item.
  - intros (item & Hi & Hshown). exists (Some i). split; [|done].
    apply list_elem_of_lookup. exists i.
    by rewrite list_lookup_imap, Hi; simpl; rewrite Hshown.
Qed.

(** [X12] The flags of the list filter take two values only: the filter bit for
    an item that is shown, zero for an item that is hidden, one flag per
    item and in the order of the items. An item is shown when its name
    matches the pattern made of the filter name between two stars and, if
    assets are not to be shown, its action belongs to no asset library;
    inverting the filter hides exactly the items it showed and shows the
    others. [get_visible_sequences] returns the items that are shown, in
    their order. Both raise [AttributeError] when assets are not to be
    shown and an item has an unset action, and in no other case. *)
Theorem filter_flags_follow_the_filter pg l :
  filter_sequences fnmatch pg (Some l) =
    (if actions_readable pg l
     then Ok ((λ item, if shown fnmatch pg item
                       then bitflag_filter_item else 0%Z) <$> l)
     else Raise AttributeError)
  ∧ get_visible_sequences fnmatch pg (Some l) =
    (if actions_readable pg l then Ok (shown_positions fnmatch pg l)
     else Raise AttributeError)
  ∧ (∀ i, i ∈ shown_positions fnmatch pg l ↔
          ∃ item, l !! i = Some item ∧ shown fnmatch pg item = true)
  ∧ ∀ item,
      shown fnmatch pg item =
      negb (shown fnmatch
              (mkPsaExportPropertyGroup (sequence_source pg) (action_list pg)
                 (marker_list pg) (sequence_filter_name pg)
                 (negb (sequence_use_filter_invert pg))
                 (sequence_filter_asset pg)) item).
Proof.
  split_and!.
  - apply filter_sequences_spec.
  - apply get_visible_sequences_spec.
  - apply elem_of_shown_positions.
  - intros item. unfold shown. simpl.
    by destruct (fnmatch _ _ && _), (sequence_use_filter_invert pg).
Qed.

End ExportDialogProofs.

Lemma foldl_alter {A} (f : A → A) :
  (∀ x, f (f x) = f x) →
  ∀ (ps : list nat) (l : list A),
    foldl (λ l i, alter f i l) l ps =
    imap (λ i x, if bool_decide (i ∈ ps) then f x else x) l.
Proof.
  intros Hidem. induction ps as [|p ps IH]; intros l; simpl.
  - apply list_eq. intros i. rewrite list_lookup_imap.
    by destruct (l !! i).
  - rewrite IH. apply list_eq. intros i. rewrite !list_lookup_imap.
    destruct (decide (i = p)) as [->|Hne].
    + rewrite list_lookup_alter_eq. destruct (l !! p) as [x|]; [|done]. simpl.
      rewrite (bool_decide_eq_true_2 (p ∈ p :: ps)) by left.
      destruct (bool_decide (p ∈ ps)); by rewrite ?Hidem.
    + rewrite list_lookup_alter_ne by done.
      destruct (l !! i) as [x|]; [|done]. simpl. f_equal.
      destruct (bool_decide (i ∈ ps)) eqn:Hin.
      * apply bool_decide_eq_true in Hin.
        rewrite bool_decide_eq_true_2; [done|by right].
      * apply bool_decide_eq_false in Hin.
        rewrite bool_decide_eq_false_2; [done|].
        by intros [?|?]%elem_of_cons.
Qed.

Section SelectionProofs.
Variable fnmatch : string → string → bool.
Implicit Types (pg : PsaExportPropertyGroup) (l : list ListItem).

Local Abbreviation select_shown pg v :=
  (λ item, if shown fnmatch pg item then set_is_selected v item else item).

Lemma select_positions pg pg0 v l :
  foldl (λ l i, alter (set_is_selected v) i l) l
    (shown_positions fnmatch pg0 l) =
  select_shown pg0 v <$> l.
Proof.
  rewrite foldl_alter by done. apply list_eq. intros i.
  rewrite list_lookup_imap, list_lookup_fmap.
  destruct (l !! i) as [x|] eqn:Hx; [|done]. simpl. f_equal.
  destruct (shown fnmatch pg0 x) eqn:Hshown.
  - rewrite bool_decide_eq_true_2; [done|].
    apply elem_of_shown_positions. by exists x.
  - rewrite bool_decide_eq_false_2; [done|].
    intros (y & Hy & Hys)%elem_of_shown_positions. congruence.
Qed.

Lemma shown_select pg pg' v item :
  sequence_filter_name pg' = sequence_filter_name pg →
  sequence_use_filter_invert pg' = sequence_use_filter_invert pg →
  sequence_filter_asset pg' = sequence_filter_asset pg →
  shown fnmatch pg' (select_shown pg v item) = shown fnmatch pg item.
Proof.
  intros Hname Hinvert Hasset.
  assert (Hn : item_name (select_shown pg v item) = item_name item)
    by by destruct (shown fnmatch pg item).
  assert (Ha : item_action (select_shown pg v item) = item_action item)
    by by destruct (shown fnmatch pg item).
  set (item' := select_shown pg v item) in *.
  unfold shown, is_asset. by rewrite Hname, Hinvert, Hasset, Hn, Ha.
Qed.

(** What the two operators do to the property group: [value] is given to
    the items that are shown. *)
Lemma select_items_spec pg l v :
  get_item_list pg = Some l →
  let pg' := select_items pg v (shown_positions fnmatch pg l) in
  let l' := select_shown pg v <$> l in
  get_item_list pg' = Some l'
  ∧ shown_positions fnmatch pg' l' = shown_positions fnmatch pg l
  ∧ actions_readable pg' l' = actions_readable pg l
  ∧ select_items pg' v (shown_positions fnmatch pg' l') = pg'.
Proof.
  intros Hl pg' l'.
  assert (Hfields : sequence_source pg' = sequence_source pg ∧
            sequence_filter_name pg' = sequence_filter_name pg ∧
            sequence_use_filter_invert pg' = sequence_use_filter_invert pg ∧
            sequence_filter_asset pg' = sequence_filter_asset pg).
  { unfold pg', select_items. by repeat case_decide. }
  destruct Hfields as (Hsource & Hname & Hinvert & Hasset).
  assert (Hl' : get_item_list pg' = Some l').
  { unfold get_item_list in *. rewrite Hsource.
    unfold pg', select_items, l'.
    repeat case_decide; simpl; try done; injection Hl as <-;
      by rewrite select_positions. }
  assert (Hpos : shown_positions fnmatch pg' l' =
                 shown_positions fnmatch pg l).
  { unfold shown_positions, l'. f_equal. rewrite imap_fmap.
    apply imap_ext. intros i x _. simpl.
    by rewrite (shown_select pg pg' v x Hname Hinvert Hasset). }
  split_and!; [done|done| |].
  - unfold actions_readable. rewrite Hasset. f_equal.
    unfold l'. clear. induction l as [|x l IH]; [done|].
    rewrite fmap_cons. cbn [forallb]. rewrite IH. f_equal.
    by destruct (shown fnmatch pg x).
  - rewrite Hpos. unfold select_items at 1. rewrite Hsource.
    unfold get_item_list in Hl, Hl'. rewrite Hsource in Hl'.
    assert (Hidem : foldl (λ l i, alter (set_is_selected v) i l) l'
                      (shown_positions fnmatch pg l) = l').
    { rewrite <- Hpos, select_positions by done. unfold l'.
      rewrite <- list_fmap_compose. apply list_fmap_ext. intros i x _. simpl.
      rewrite (shown_select pg pg' v x Hname Hinvert Hasset).
      by destruct (shown fnmatch pg x) eqn:Hs; rewrite ?Hs. }
    rewrite <- Hsource in *. clearbody pg'.
    repeat case_decide; try done; injection Hl' as Hl';
      rewrite Hl', Hidem, <- Hl'; by destruct pg'.
Qed.

(** [X13] [Select All] gives [is_selected] to the items that are shown and
    leaves the hidden items, the names and the actions as they were. After
    it the operator is no longer available ([poll] is false), and running
    it again changes nothing. *)
Theorem select_all_selects_the_shown_items pg l :
  get_item_list pg = Some l →
  actions_readable pg l = true →
  ∃ pg',
    PsaExportActionsSelectAll_execute fnmatch pg = Ok pg'
    ∧ get_item_list pg' =
      Some ((λ item, if shown fnmatch pg item
                     then set_is_selected true item else item) <$> l)
    ∧ PsaExportActionsSelectAll_poll fnmatch pg' = Ok false
    ∧ PsaExportActionsSelectAll_execute fnmatch pg' = Ok pg'.
Proof.
  intros Hl Hread.
  destruct (select_items_spec pg l true Hl) as (Hl' & Hpos & Hread' & Hidem).
  set (pg' := select_items pg true (shown_positions fnmatch pg l)) in *.
  set (l' := select_shown pg true <$> l) in *.
  exists pg'. split_and!; [|done| |].
  - unfold PsaExportActionsSelectAll_execute.
    by rewrite Hl, get_visible_sequences_spec, Hread.
  - unfold PsaExportActionsSelectAll_poll.
    rewrite Hl', get_visible_sequences_spec, Hread', Hread. simpl. f_equal.
    apply not_true_is_false. intros (i & Hi & Hsel)%existsb_exists.
    apply list_elem_of_In in Hi. rewrite Hpos in Hi.
    apply elem_of_shown_positions in Hi as (x & Hx & Hshown).
    unfold item_is_selected in Hsel. simpl in Hsel. unfold l' in Hsel.
    by rewrite list_lookup_fmap, Hx in Hsel; simpl in Hsel;
      rewrite Hshown in Hsel.
  - unfold PsaExportActionsSelectAll_execute.
    by rewrite Hl', get_visible_sequences_spec, Hread', Hread; simpl;
      rewrite Hidem.
Qed.

(** [X14] [Deselect All] takes [is_selected] from the items that are shown and
    leaves the hidden items as they were. Its [poll] looks at every item,
    shown or hidden: after the operator has run it is still available
    exactly when a hidden item is selected, although running it again
    changes nothing. [Select All] is available after it exactly when an
    item is shown. *)
Theorem deselect_all_leaves_hidden_items pg l :
  get_item_list pg = Some l →
  actions_readable pg l = true →
  ∃ pg',
    PsaExportActionsDeselectAll_execute fnmatch pg = Ok pg'
    ∧ get_item_list pg' =
      Some ((λ item, if shown fnmatch pg item
                     then set_is_selected false item else item) <$> l)
    ∧ PsaExportActionsDeselectAll_poll pg' =
      Ok (existsb (λ item, negb (shown fnmatch pg item) && is_selected item)
            l)
    ∧ PsaExportActionsDeselectAll_execute fnmatch pg' = Ok pg'
    ∧ PsaExportActionsSelectAll_poll fnmatch pg' =
      Ok (existsb (shown fnmatch pg) l).
Proof.
  intros Hl Hread.
  destruct (select_items_spec pg l false Hl) as (Hl' & Hpos & Hread' & Hidem).
  set (pg' := select_items pg false (shown_positions fnmatch pg l)) in *.
  set (l' := select_shown pg false <$> l) in *.
  exists pg'. split_and!; [|done| | |].
  - unfold PsaExportActionsDeselectAll_execute.
    by rewrite Hl, get_visible_sequences_spec, Hread.
  - unfold PsaExportActionsDeselectAll_poll. rewrite Hl'. f_equal.
    unfold l'. clear. induction l as [|x l IH]; [done|].
    rewrite fmap_cons. cbn [existsb length].
    rewrite bool_decide_eq_true_2 by lia. simpl.
    f_equal.
    + by destruct (shown fnmatch pg x).
    + destruct l as [|y l]; [done|].
      rewrite <- IH. cbn [length fmap list_fmap].
      by rewrite bool_decide_eq_true_2 by lia.
  - unfold PsaExportActionsDeselectAll_execute.
    by rewrite Hl', get_visible_sequences_spec, Hread', Hread; simpl;
      rewrite Hidem.
  - unfold PsaExportActionsSelectAll_poll.
    rewrite Hl', get_visible_sequences_spec, Hread', Hread. simpl. f_equal.
    rewrite Hpos. apply eq_true_iff_eq. rewrite !existsb_exists. split.
    + intros (i & Hi & _). apply list_elem_of_In in Hi.
      apply elem_of_shown_positions in Hi as (x & Hx & Hshown).
      exists x. split; [|done].
      apply list_elem_of_In. by eapply list_elem_of_lookup_2.
    + intros (x & Hx & Hshown). apply list_elem_of_In in Hx.
      apply list_elem_of_lookup_1 in Hx as [i Hi].
      exists i. split.
      * apply list_elem_of_In, elem_of_shown_positions. by exists x.
      * unfold item_is_selected. simpl. unfold l'.
        by rewrite list_lookup_fmap, Hi; simpl; rewrite Hshown.
Qed.

End SelectionProofs.

Lemma select_all_selects_the_shown_items_witness :
  let idle := mkListItem "Idle" false (ActionSet false) in
  let pose := mkListItem "RefPose" false (ActionSet true) in
  let walk := mkListItem "Walk" true (ActionSet false) in
  let pg := mkPsaExportPropertyGroup "ACTIONS" [idle; pose; walk] [] ""
              false false in
  get_item_list pg = Some [idle; pose; walk]
  ∧ actions_readable pg [idle; pose; walk] = true
  ∧ ∃ pg',
      PsaExportActionsSelectAll_execute fnmatch_contains pg = Ok pg'
      ∧ get_item_list pg' =
        Some [set_is_selected true idle; pose; walk]
      ∧ PsaExportActionsSelectAll_poll fnmatch_contains pg' = Ok false.
Proof.
  intros idle pose walk pg.
  split_and!; [reflexivity..|].
  destruct (select_all_selects_the_shown_items fnmatch_contains pg
              [idle; pose; walk] eq_refl eq_refl)
    as (pg' & Hrun & Hlist & Hpoll & _).
  exists pg'. split_and!; [exact Hrun|exact Hlist|exact Hpoll].
Defined.

Lemma deselect_all_leaves_hidden_items_witness :
  let idle := mkListItem "Idle" true (ActionSet false) in
  let pose := mkListItem "RefPose" true (ActionSet true) in
  let pg := mkPsaExportPropertyGroup "ACTIONS" [idle; pose] [] "" false
              false in
  get_item_list pg = Some [idle; pose]
  ∧ actions_readable pg [idle; pose] = true
  ∧ ∃ pg',
      PsaExportActionsDeselectAll_execute fnmatch_contains pg = Ok pg'
      ∧ get_item_list pg' = Some [set_is_selected false idle; pose]
      ∧ PsaExportActionsDeselectAll_poll pg' = Ok true
      ∧ PsaExportActionsDeselectAll_execute fnmatch_contains pg' = Ok pg'.
Proof.
  intros idle pose pg.
  split_and!; [reflexivity..|].
  destruct (deselect_all_leaves_hidden_items fnmatch_contains pg
              [idle; pose] eq_refl eq_refl)
    as (pg' & Hrun & Hlist & Hpoll & Hagain & _).
  exists pg'. split_and!; [exact Hrun|exact Hlist|exact Hpoll|exact Hagain].
Defined.

(** ** The naming conflict of the export dialog *)

Lemma Counter_head (x : string) : ∀ (l : list string) v counts,
  foldl counter_add ((x, v) :: counts) l =
  (x, v + count_occ String.string_dec l x)
    :: foldl counter_add counts (filter (λ y, y ≠ x) l).
Proof.
  induction l as [|y l IH]; intros v counts.
  - simpl. by rewrite Nat.add_0_r.
  - cbn [foldl counter_add count_occ].
    destruct (decide (x = y)) as [<-|Hne].
    + rewrite IH, filter_cons_False by naive_solver.
      destruct (String.string_dec x x); [|done]. do 2 f_equal. lia.
    + rewrite IH, filter_cons_True by naive_solver.
      destruct (String.string_dec y x); [congruence|]. done.
Qed.

Lemma first_duplicate_Counter_cons x l :
  first_duplicate (Counter (x :: l)) =
  if decide (x ∈ l) then Some x else first_duplicate (Counter l).
Proof.
  unfold Counter. cbn [foldl counter_add]. rewrite Counter_head.
  cbn [first_duplicate].
  destruct (decide (x ∈ l)) as [Hin|Hnin].
  - apply list_elem_of_In, (count_occ_In String.string_dec) in Hin.
    destruct (Nat.ltb_spec 1 (1 + count_occ String.string_dec l x)); [done|lia].
  - assert (Hnone : count_occ String.string_dec l x = 0).
    { apply count_occ_not_In. by rewrite <- list_elem_of_In. }
    rewrite Hnone. simpl.
    assert (Hsame : filter (λ y, y ≠ x) l = l); [|by rewrite Hsame].
    clear Hnone. induction l as [|y l IH]; [done|].
    apply not_elem_of_cons in Hnin as [Hne Hnin].
    rewrite filter_cons_True by done. f_equal. by apply IH.
Qed.

Lemma first_duplicate_None l :
  first_duplicate (Counter l) = None ↔ NoDup l.
Proof.
  induction l as [|x l IH]; [by split; [constructor|]|].
  rewrite first_duplicate_Counter_cons, NoDup_cons.
  destruct (decide (x ∈ l)); naive_solver.
Qed.

Lemma first_duplicate_Some l n :
  first_duplicate (Counter l) = Some n ↔
  ∃ l1 l2, l = l1 ++ n :: l2 ∧ n ∈ l2 ∧ NoDup l1 ∧
           ∀ m, m ∈ l1 → m ∉ n :: l2.
Proof.
  induction l as [|x l IH].
  - split; [done|]. intros (l1 & l2 & Hl & _). by destruct l1.
  - rewrite first_duplicate_Counter_cons.
    destruct (decide (x ∈ l)) as [Hin|Hnin].
    + split.
      * intros [= <-]. exists [], l. split_and!; [done|done|constructor|].
        intros m Hm. by apply elem_of_nil in Hm.
      * intros (l1 & l2 & Hl & Hn & Hnd & Hfresh).
        destruct l1 as [|y l1]; simpl in Hl; injection Hl as <- ->; [done|].
        exfalso. apply NoDup_cons in Hnd as [Hx _].
        apply elem_of_app in Hin as [Hin|Hin]; [done|].
        by apply (Hfresh x); [left|].
    + rewrite IH. split.
      * intros (l1 & l2 & -> & Hn & Hnd & Hfresh).
        exists (x :: l1), l2. split_and!; [done|done| |].
        -- apply NoDup_cons. split; [|done].
           intros Hx. apply Hnin, elem_of_app. by left.
        -- intros m [->|Hm]%elem_of_cons; [|by apply Hfresh].
           intros Hx. apply Hnin, elem_of_app. by right.
      * intros (l1 & l2 & Hl & Hn & Hnd & Hfresh).
        destruct l1 as [|y l1]; simpl in Hl; injection Hl as <- ->.
        { exfalso. by apply Hnin. }
        exists l1, l2. split_and!; [done|done| |].
        -- by apply NoDup_cons in Hnd as [_ ?].
        -- intros m Hm. apply Hfresh. by right.
Qed.

(** [X15] The dialog shows the naming conflict label exactly when two selected
    items of the action list have the same name, whatever the source of the
    sequences is. It shows one label only, and the name on it is the first
    name of the selected items that occurs again further down: every
    selected name before it occurs once. Items that are not selected play
    no part. *)
Theorem duplicate_label_names_first_conflict (pg : PsaExportPropertyGroup) :
  let names :=
    item_name <$> filter (λ x, is_selected x = true) (action_list pg) in
  (draw_duplicate_label pg = None ↔ NoDup names)
  ∧ ∀ n, draw_duplicate_label pg = Some ("Duplicate action: " +:+ n) ↔
      ∃ l1 l2, names = l1 ++ n :: l2 ∧ n ∈ l2 ∧ NoDup l1 ∧
               ∀ m, m ∈ l1 → m ∉ n :: l2.
Proof.
  intros names. unfold draw_duplicate_label. fold names. split.
  - rewrite <- first_duplicate_None.
    by destruct (first_duplicate (Counter names)).
  - intros n. rewrite <- first_duplicate_Some.
    destruct (first_duplicate (Counter names)) as [n'|]; simpl; [|done].
    split; [|by intros [= ->]].
    intros [= Heq]. f_equal. by simplify_eq.
Qed.

(** ** The exporter, whatever the sizes of the lists *)

Lemma c_int32_range (z : Z) : (- 2 ^ 31 ≤ c_int32 z < 2 ^ 31)%Z.
Proof.
  unfold c_int32.
  pose proof (Z.mod_pos_bound (z + 2 ^ 31) (2 ^ 32) ltac:(lia)). lia.
Qed.

Lemma c_int32_congruent (z : Z) : (c_int32 z `mod` 2 ^ 32 = z `mod` 2 ^ 32)%Z.
Proof.
  unfold c_int32.
  rewrite <- Zminus_mod_idemp_l, Z.mod_mod by lia.
  rewrite Zminus_mod_idemp_l. f_equal. lia.
Qed.

Section ExporterExtras.
Context `{PsaData}.

Lemma records_app (fp1 fp2 : list Written) :
  records (fp1 ++ fp2) = records fp1 ++ records fp2.
Proof. apply omap_app. Qed.

Lemma headers_app (fp1 fp2 : list Written) :
  headers (fp1 ++ fp2) = headers fp1 ++ headers fp2.
Proof. apply omap_app. Qed.

Lemma records_section (s : Section) (fp : list Written) :
  records (WSection s :: fp) = records fp.
Proof. reflexivity. Qed.

Lemma headers_section (s : Section) (fp : list Written) :
  headers (WSection s :: fp) = s :: headers fp.
Proof. reflexivity. Qed.

Lemma write_section_header_only (fp : list Written) name :
  write_section fp name None None = fp ++ [WSection (mkSection name 0 0)].
Proof. reflexivity. Qed.

Lemma records_data (data : list Datum) : records (WDatum <$> data) = data.
Proof. induction data as [|d data IH]; [done|]. simpl. by f_equal. Qed.

Lemma headers_data (data : list Datum) : headers (WDatum <$> data) = [].
Proof. by induction data. Qed.

(** [X16] Whatever [data_type] and [data] are, [write_section] leaves the file
    written so far as it is, adds one header that carries the name, and
    then every element of [data] as a record, in order. The header is the
    zero header unless both [data_type] and [data] are given: a list given
    without its type is written under a header that announces no
    record. *)
Theorem write_section_appends fp name data_type data :
  ∃ header,
    write_section fp name data_type data =
      fp ++ WSection header :: (WDatum <$> default [] data)
    ∧ section_name header = name
    ∧ (data_type = None ∨ data = None →
       data_size header = 0%Z ∧ data_count header = 0%Z)
    ∧ (∀ t d, data_type = Some t → data = Some d →
         data_size header = sizeof t ∧
         (data_count header `mod` 2 ^ 32 =
          Z.of_nat (length d) `mod` 2 ^ 32)%Z ∧
         (- 2 ^ 31 ≤ data_count header < 2 ^ 31)%Z).
Proof.
  destruct data_type as [t|], data as [d|]; unfold write_section; simpl;
    eexists; (split; [by rewrite <- ?app_assoc, ?app_nil_r|]); simpl;
    (split; [done|]); split; try (intros [?|?]; done); try done.
  intros t' d' [= <-] [= <-].
  rewrite (c_int32_id (sizeof t)) by (pose proof (sizeof_range t); lia).
  split; [done|]. split; [apply c_int32_congruent|apply c_int32_range].
Qed.

(** [X17] Whatever the sizes of the three lists are, the file that [export]
    writes holds exactly four headers, named ANIMHEAD, BONENAMES, ANIMINFO
    and ANIMKEYS in this order, and its records are the bones, the values
    of the sequence dictionary in insertion order and the keys, each list
    in its own order and none of them cut short: the file has four entries
    more than there are bones, sequences and keys. *)
Theorem export_keeps_every_record (psa : Psa) :
  records (export psa) =
    (DBone <$> psa_bones psa) ++ (DSequence <$> (psa_sequences psa).*2)
    ++ (DKey <$> psa_keys psa)
  ∧ section_name <$> headers (export psa) =
    ["ANIMHEAD"; "BONENAMES"; "ANIMINFO"; "ANIMKEYS"]
  ∧ length (export psa) =
    4 + length (psa_bones psa) + length (psa_sequences psa)
    + length (psa_keys psa).
Proof.
  unfold export. rewrite !write_section_typed, write_section_header_only.
  split_and!.
  - rewrite !records_app, !records_section, !records_data.
    change (records []) with (@nil Datum). simpl. by rewrite <- !app_assoc.
  - rewrite !headers_app, !headers_section, !headers_data. reflexivity.
  - rewrite !length_app. simpl. rewrite !length_fmap. lia.
Qed.

End ExporterExtras.
